(** * Cache and metrics layer of the encoder service

    A shallow embedding of [models-service/cache_manager.py] and
    [models-service/metrics.py], and the properties of the specification
    that concern them.

    Conventions of the embedding:
    - a Python [int] is a [Z]; a [float] that the code computes with
      ([hits / total * 100], [n * 0.95], [time.time() - ts]) is a binary64
      [float], and so is a reading of [time.time()] in the cache, where an
      age is compared with a ttl; in the metrics collector, where readings
      only enter the samples that are recorded and summarised, a reading and
      a sample are the rational values ([Qc]) of the floats;
    - a [str] is a [string] (its UTF-8 bytes);
    - a plain [dict] is a [gmap]; an [OrderedDict] is the list of its items
      in iteration order;
    - an object's fields are a record, and a method takes the object and
      returns it again beside its result;
    - a call that may raise returns an [outcome]. *)

From Stdlib Require Import ZArith QArith Qcanon Uint63 PrimFloat FloatOps SpecFloat Qround.
From Stdlib Require Import Ascii String OrdersEx.
From stdpp Require Import base decidable option numbers list sorting.
From stdpp Require Import strings pretty gmap fin_maps.

#[local] Set Warnings "-inexact-float,-clear-no-such-hyp,-register-all".
#[local] Open Scope Z_scope.

(** ** Outcomes of calls *)

(** The exceptions that occur in the modelled code: [StopIteration] out of
    [next(iter(...))], and whatever an encoder function raises. *)
Inductive pyexn : Type :=
| StopIteration
| Exception (name : string).

(** A call on an object of type [St] either returns a value, or raises, both
    with the object as the call left it; [OutOfFuel] is the model's bound on
    a [while] loop, shown below never to be reached. *)
Inductive outcome (St A : Type) : Type :=
| Return (a : A) (s : St)
| Raise (e : pyexn) (s : St)
| OutOfFuel.
Arguments Return {St A} a s.
Arguments Raise {St A} e s.
Arguments OutOfFuel {St A}.

Definition returned {St A} (o : outcome St A) : option A :=
  match o with Return a _ => Some a | _ => None end.

Definition raised {St A} (o : outcome St A) : option pyexn :=
  match o with Raise e _ => Some e | _ => None end.

(** The object after the call, [s0] being the object before it. *)
Definition state_after {St A} (s0 : St) (o : outcome St A) : St :=
  match o with Return _ s => s | Raise _ s => s | OutOfFuel => s0 end.

(** ** Python numbers that end in a report *)

Inductive pynum : Type :=
| PyInt (z : Z)
| PyFloat (f : float).

(** [float(z)]: the binary64 number nearest to [z]. *)
Definition float_of_Z (z : Z) : float :=
  SF2Prim (binary_normalize prec emax z 0 false).

(** [a / b] on two [int]: the binary64 number nearest to the exact
    quotient, a tie to the even one, whatever the size of [a] and [b]
    ([b] is not zero and the quotient is below [2 ** 1024], where Python
    raises [ZeroDivisionError] and [OverflowError]). The quotient of
    [|a| * 2 ** k] by [|b|], with a last bit that tells whether the division
    left a remainder, has more than 55 bits and a unit below the smallest
    positive float, so its rounding is the rounding of the exact quotient. *)
Definition int_truediv (a b : Z) : float :=
  let k := Z.log2 (Z.abs b) + 1100 in
  let n := Z.abs a * 2 ^ k in
  let m := 2 * (n / Z.abs b) + (if n mod Z.abs b =? 0 then 0 else 1) in
  let r := SF2Prim (binary_normalize prec emax m (- k - 1) false) in
  if Bool.eqb (a <? 0) (b <? 0) then r else PrimFloat.opp r.

(** [f > z] for a [float] and an [int]: Python compares the exact values;
    a NaN is not greater than anything. *)
Definition float_gt_int (f : float) (z : Z) : bool :=
  match Prim2SF f with
  | S754_nan => false
  | S754_infinity sg => negb sg
  | S754_zero _ => bool_decide (z < 0)
  | S754_finite sg m e =>
      let v := if sg then Z.neg m else Z.pos m in
      match e with
      | Z.neg p => bool_decide (z * 2 ^ Z.pos p < v)
      | _ => bool_decide (z < v * 2 ^ e)
      end
  end.

(** [int(f)] of a finite [f]: truncation towards zero. *)
Definition int_of_float (f : float) : option Z :=
  match Prim2SF f with
  | S754_zero _ => Some 0
  | S754_finite sg m e =>
      let a := match e with
               | Z0 => Z.pos m
               | Z.pos p => Z.shiftl (Z.pos m) (Z.pos p)
               | Z.neg p => Z.shiftr (Z.pos m) (Z.pos p)
               end in
      Some (if sg then - a else a)
  | S754_infinity _ | S754_nan => None
  end.

(** [num / den] rounded to the nearest integer, a tie to the even one
    ([0 < den]). *)
Definition round_half_even (num den : Z) : Z :=
  let q := num / den in
  match (2 * (num mod den)) ?= den with
  | Lt => q
  | Gt => q + 1
  | Eq => if Z.even q then q else q + 1
  end.

(** The number of [10^-ndigits] units nearest to the exact value of [|x|]. *)
Definition decimal_units (ndigits : Z) (m : positive) (e : Z) : Z :=
  match e with
  | Z.neg p => round_half_even (Z.pos m * 10 ^ ndigits) (2 ^ Z.pos p)
  | _ => Z.pos m * 2 ^ e * 10 ^ ndigits
  end.

(** [round(x, ndigits)] on a float, [0 <= ndigits]: the exact value of [x]
    is rounded to [ndigits] decimals, half to even, and the decimal is read
    back as the nearest binary64 number. *)
Definition round_float (x : float) (ndigits : Z) : float :=
  match Prim2SF x with
  | S754_finite sg m e =>
      let r := PrimFloat.div (float_of_Z (decimal_units ndigits m e))
                             (float_of_Z (10 ^ ndigits)) in
      if sg then PrimFloat.opp r else r
  | _ => x
  end.

(** [round(x, ndigits)]: an [int] is returned as it is for [0 <= ndigits]. *)
Definition py_round (x : pynum) (ndigits : Z) : pynum :=
  match x with
  | PyInt z => PyInt z
  | PyFloat f => PyFloat (round_float f ndigits)
  end.

(** ** collections.OrderedDict with [str] keys *)

Module OrderedDict.
Section ops.
Context {A : Type}.

(** [key in d] *)
Definition od_contains (key : string) (d : list (string * A)) : bool :=
  bool_decide (key ∈ d.*1).

(** [d[key]], [None] standing for [KeyError] *)
Fixpoint od_get (key : string) (d : list (string * A)) : option A :=
  match d with
  | [] => None
  | (k, v) :: d' => if decide (k = key) then Some v else od_get key d'
  end.

(** [d.pop(key, None)], the popped value dropped *)
Definition od_pop (key : string) (d : list (string * A)) : list (string * A) :=
  filter (λ kv, kv.1 ≠ key) d.

(** [d.move_to_end(key)] for a [key] of [d] *)
Definition od_move_to_end (key : string) (d : list (string * A)) : list (string * A) :=
  match od_get key d with
  | Some v => od_pop key d ++ [(key, v)]
  | None => d
  end.

(** [d[key] = value]: a key of [d] keeps its place, a new one goes last *)
Fixpoint od_setitem (key : string) (value : A) (d : list (string * A)) : list (string * A) :=
  match d with
  | [] => [(key, value)]
  | (k, v) :: d' =>
      if decide (k = key) then (k, value) :: d' else (k, v) :: od_setitem key value d'
  end.

(** [next(iter(d))], [None] standing for [StopIteration] *)
Definition od_first (d : list (string * A)) : option string :=
  match d with
  | [] => None
  | (k, _) :: _ => Some k
  end.

End ops.
End OrderedDict.
Export OrderedDict.

(** ** LRUCache *)

Module LRUCache.

(** The fields of an [LRUCache]. A cached value is any Python object, [None]
    included: [V] is the type of the objects other than [None]. *)
Record t (V : Type) : Type := mk {
  _cache : list (string * option V);
  _timestamps : gmap string float;
  _ttls : gmap string Z;
  _max_size : Z;
  _default_ttl : Z;
  _hits : Z;
  _misses : Z
}.
Arguments mk {V}.
Arguments _cache {V}.
Arguments _timestamps {V}.
Arguments _ttls {V}.
Arguments _max_size {V}.
Arguments _default_ttl {V}.
Arguments _hits {V}.
Arguments _misses {V}.

(** What [get_stats] returns. *)
Record stats : Type := mk_stats {
  size : Z;
  max_size : Z;
  hits : Z;
  misses : Z;
  hit_rate_percent : pynum
}.

(** The operations of a run; each carries the readings of [time.time()]
    that the call makes. *)
Inductive op (V : Type) : Type :=
| OpGet (key : string) (now : float)
| OpSet (key : string) (value : option V) (ttl : option Z) (now : float)
| OpClear
| OpCleanupExpired (clock : nat → float).
Arguments OpGet {V}.
Arguments OpSet {V}.
Arguments OpClear {V}.
Arguments OpCleanupExpired {V}.

Section methods.
Context {V : Type}.

(** [LRUCache(max_size, default_ttl)] *)
Definition init (max_size default_ttl : Z) : t V :=
  mk [] ∅ ∅ max_size default_ttl 0 0.

Definition with_cache (c : list (string * option V)) (s : t V) : t V :=
  mk c (_timestamps s) (_ttls s) (_max_size s) (_default_ttl s) (_hits s) (_misses s).

Definition count_hit (s : t V) : t V :=
  mk (_cache s) (_timestamps s) (_ttls s) (_max_size s) (_default_ttl s)
     (_hits s + 1) (_misses s).

Definition count_miss (s : t V) : t V :=
  mk (_cache s) (_timestamps s) (_ttls s) (_max_size s) (_default_ttl s)
     (_hits s) (_misses s + 1).

(** [now - ts > ttl]: the age is the binary64 difference of the two
    readings of the clock. *)
Definition expired (now ts : float) (ttl : Z) : bool :=
  float_gt_int (PrimFloat.sub now ts) ttl.

(** [_is_expired(key)], [now] being the reading of [time.time()] *)
Definition _is_expired (key : string) (now : float) (s : t V) : bool :=
  match _timestamps s !! key with
  | None => true
  | Some ts =>
      let ttl := default (_default_ttl s) (_ttls s !! key) in
      expired now ts ttl
  end.

(** [_remove(key)] *)
Definition _remove (key : string) (s : t V) : t V :=
  mk (od_pop key (_cache s)) (delete key (_timestamps s)) (delete key (_ttls s))
     (_max_size s) (_default_ttl s) (_hits s) (_misses s).

(** [get(key)] *)
Definition get (key : string) (now : float) (s : t V) : option V * t V :=
  match od_get key (_cache s) with
  | None => (None, count_miss s)
  | Some v =>
      if _is_expired key now s then (None, count_miss (_remove key s))
      else (v, count_hit (with_cache (od_move_to_end key (_cache s)) s))
  end.

(** The loop of [set]:
    [while len(self._cache) >= self._max_size: self._remove(next(iter(self._cache)))],
    bounded by [fuel] iterations. *)
Fixpoint evict (fuel : nat) (s : t V) : outcome (t V) unit :=
  if bool_decide (_max_size s ≤ Z.of_nat (length (_cache s))) then
    match od_first (_cache s) with
    | None => Raise StopIteration s
    | Some oldest_key =>
        match fuel with
        | O => OutOfFuel
        | S fuel' => evict fuel' (_remove oldest_key s)
        end
    end
  else Return () s.

(** The last three statements of [set]. *)
Definition store (key : string) (value : option V) (ttl : option Z) (now : float)
    (s : t V) : t V :=
  mk (od_setitem key value (_cache s))
     (<[key := now]> (_timestamps s))
     (<[key := default (_default_ttl s) ttl]> (_ttls s))
     (_max_size s) (_default_ttl s) (_hits s) (_misses s).

(** [set(key, value, ttl)]; every iteration of the loop removes an entry,
    so the length of the cache bounds their number. *)
Definition set (key : string) (value : option V) (ttl : option Z) (now : float)
    (s : t V) : outcome (t V) unit :=
  let s1 := if od_contains key (_cache s) then _remove key s else s in
  match evict (length (_cache s1)) s1 with
  | Return _ s2 => Return () (store key value ttl now s2)
  | Raise e s2 => Raise e s2
  | OutOfFuel => OutOfFuel
  end.

(** [clear()] *)
Definition clear (s : t V) : t V :=
  mk [] ∅ ∅ (_max_size s) (_default_ttl s) (_hits s) (_misses s).

(** The comprehension of [cleanup_expired]: the keys of [keys] that are
    expired, [clock i] being the [i]-th reading of [time.time()];
    [_is_expired] reads the clock only for a key that has a timestamp. *)
Fixpoint expired_keys (keys : list string) (clock : nat → float) (i : nat)
    (s : t V) : list string :=
  match keys with
  | [] => []
  | key :: keys' =>
      match _timestamps s !! key with
      | None => key :: expired_keys keys' clock i s
      | Some _ =>
          if _is_expired key (clock i) s
          then key :: expired_keys keys' clock (S i) s
          else expired_keys keys' clock (S i) s
      end
  end.

(** [cleanup_expired()] *)
Definition cleanup_expired (clock : nat → float) (s : t V) : t V :=
  foldl (λ s' key, _remove key s') s (expired_keys (_cache s).*1 clock 0%nat s).

(** [get_stats()]: [self._hits / total] divides two [int], and the product
    with [100] is a product of floats. *)
Definition get_stats (s : t V) : stats :=
  let total := _hits s + _misses s in
  let hit_rate :=
    if bool_decide (0 < total)
    then PyFloat (PrimFloat.mul (int_truediv (_hits s) total) (float_of_Z 100))
    else PyInt 0 in
  mk_stats (Z.of_nat (length (_cache s))) (_max_size s) (_hits s) (_misses s)
           (py_round hit_rate 2).

(** One operation of a run, the caller catching what it raises. *)
Definition exec (o : op V) (s : t V) : t V :=
  match o with
  | OpGet key now => (get key now s).2
  | OpSet key value ttl now => state_after s (set key value ttl now s)
  | OpClear => clear s
  | OpCleanupExpired clock => cleanup_expired clock s
  end.

Definition run (ops : list (op V)) (s : t V) : t V :=
  foldl (λ s' o, exec o s') s ops.

(** The values that the calls [get(key)] for [key] in [keys], made one after
    the other and all reading [now], return. *)
Fixpoint gets (keys : list string) (now : float) (s : t V) : list (option V) :=
  match keys with
  | [] => []
  | key :: keys' => (get key now s).1 :: gets keys' now (get key now s).2
  end.

(** An insertion: the arguments of a call of [set] and the time it reads. *)
Record insertion : Type := mk_insertion {
  ins_key : string;
  ins_value : option V;
  ins_ttl : option Z;
  ins_now : float
}.

Definition op_of_insertion (i : insertion) : op V :=
  OpSet (ins_key i) (ins_value i) (ins_ttl i) (ins_now i).

Definition item_of_insertion (i : insertion) : string * option V :=
  (ins_key i, ins_value i).

(** The entry of insertion [i] into a cache of default ttl [default_ttl] has
    not expired at time [now]. *)
Definition fresh_at (default_ttl : Z) (now : float) (i : insertion) : Prop :=
  expired now (ins_now i) (default default_ttl (ins_ttl i)) = false.

(** An access to [key]: a [get] or a [set] of it. *)
Definition touches (o : op V) (key : string) : bool :=
  match o with
  | OpGet k _ | OpSet k _ _ _ => bool_decide (k = key)
  | OpClear | OpCleanupExpired _ => false
  end.

(** The position in [ops], counted from one, of the last access to [key];
    zero when [ops] never accesses it. *)
Fixpoint last_access (ops : list (op V)) (key : string) : nat :=
  match ops with
  | [] => 0
  | o :: ops' =>
      match last_access ops' key with
      | O => if touches o key then 1 else 0
      | S n => S (S n)
      end
  end.

(** The keys of the cache stand in the order of their last accesses in
    [ops], the least recently accessed one first. *)
Definition recency_ordered (ops : list (op V)) (s : t V) : Prop :=
  StronglySorted (λ k k', last_access ops k < last_access ops k')%nat (_cache s).*1.

(** The cache of capacity [m] and default ttl [d] holds exactly the entries
    of the insertions [l], in their order, each with the timestamp and the
    ttl of its insertion. *)
Definition holds (m d : Z) (s : t V) (l : list insertion) : Prop :=
  _max_size s = m ∧ _default_ttl s = d ∧
  NoDup (ins_key <$> l) ∧
  _cache s = item_of_insertion <$> l ∧
  ∀ i, i ∈ l →
    _timestamps s !! ins_key i = Some (ins_now i) ∧
    _ttls s !! ins_key i = Some (default d (ins_ttl i)).

(** The invariant of the three dictionaries: the ordered one has no key
    twice, and the timestamps and the ttls are those of its keys. *)
Definition wf (s : t V) : Prop :=
  NoDup (_cache s).*1 ∧
  (∀ k, k ∈ (_cache s).*1 ↔ is_Some (_timestamps s !! k)) ∧
  (∀ k, k ∈ (_cache s).*1 ↔ is_Some (_ttls s !! k)).

End methods.
End LRUCache.

(** ** Request data, its serialization and the cache key *)

(** [s[:n]] *)
Fixpoint string_take (n : nat) (s : string) : string :=
  match n, s with
  | S n', String c s' => String c (string_take n' s')
  | _, _ => EmptyString
  end.

(** A hexadecimal digit as [hexdigest] writes it. *)
Definition is_hex_digit (c : ascii) : Prop :=
  c ∈ list_ascii_of_string "0123456789abcdef".

Module Serialization.

(** The data of a request: a [list], a [dict] with [str] keys (its items in
    insertion order), or any other object, an [atom]. *)
Inductive pydata (atom : Type) : Type :=
| PyAtom (a : atom)
| PyList (xs : list (pydata atom))
| PyDict (items : list (string * pydata atom)).
Arguments PyAtom {atom}.
Arguments PyList {atom}.
Arguments PyDict {atom}.

(** The order in which [sort_keys=True] puts encoded items. A [str] is
    ordered by code points, which is the order of its UTF-8 bytes; the keys
    of a [dict] are distinct, so the key decides. *)
Definition key_le (p q : string * string) : Prop := String.le p.1 q.1.

#[global] Instance key_le_dec : RelDecision key_le.
Proof. intros p q. unfold key_le. apply _. Defined.

Section dumps.
Context {atom : Type}.

(** The library functions that the key derivation calls, on the objects
    that are neither a [list] nor a [dict]: [str(a)], [json.dumps(a)], and
    the JSON encoding of a [dict] key. *)
Variable str_of_atom : atom → string.
Variable json_of_atom : atom → string.
Variable json_of_key : string → string.

(** One encoded item: [key: value]. *)
Definition item_json (kv : string * string) : string :=
  json_of_key kv.1 +:+ ": " +:+ kv.2.

(** [json.dumps(d, sort_keys=True)], with the default separators. *)
Fixpoint dumps (d : pydata atom) : string :=
  match d with
  | PyAtom a => json_of_atom a
  | PyList xs => "[" +:+ String.concat ", " (dumps <$> xs) +:+ "]"
  | PyDict items =>
      "{" +:+ String.concat ", "
                (item_json <$> merge_sort key_le ((λ kv, (kv.1, dumps kv.2)) <$> items))
          +:+ "}"
  end.

(** The first statement of [_generate_cache_key]. *)
Definition serialize (d : pydata atom) : string :=
  match d with
  | PyAtom a => str_of_atom a
  | PyList _ | PyDict _ => dumps d
  end.

(** [f"{encoder_type}:{serialized}"] *)
Definition combined (encoder_type : string) (d : pydata atom) : string :=
  encoder_type +:+ ":" +:+ serialize d.

(** [hashlib.sha256(b).hexdigest()] *)
Variable sha256_hexdigest : string → string.

(** [_generate_cache_key(encoder_type, data)] *)
Definition _generate_cache_key (encoder_type : string) (d : pydata atom) : string :=
  string_take 32 (sha256_hexdigest (combined encoder_type d)).

End dumps.

(** Induction over [pydata], with the hypothesis for every element of a
    list and every value of a dict. *)
Section pydata_induction.
Context {atom : Type} (P : pydata atom → Prop).
Hypothesis Hatom : ∀ a, P (PyAtom a).
Hypothesis Hlist : ∀ xs, Forall P xs → P (PyList xs).
Hypothesis Hdict : ∀ items, Forall (λ kv, P kv.2) items → P (PyDict items).

Fixpoint pydata_nested_ind (d : pydata atom) : P d :=
  match d with
  | PyAtom a => Hatom a
  | PyList xs =>
      Hlist xs ((fix go (l : list (pydata atom)) : Forall P l :=
                   match l with
                   | [] => @List.Forall_nil _ P
                   | x :: l' => @List.Forall_cons _ P x l' (pydata_nested_ind x) (go l')
                   end) xs)
  | PyDict items =>
      Hdict items ((fix go (l : list (string * pydata atom)) : Forall (λ kv, P kv.2) l :=
                      match l with
                      | [] => @List.Forall_nil _ _
                      | kv :: l' => @List.Forall_cons _ (λ kv, P kv.2) kv l' (pydata_nested_ind kv.2) (go l')
                      end) items)
  end.

End pydata_induction.

(** A Python [dict] has no key twice. *)
Inductive wf_data {atom : Type} : pydata atom → Prop :=
| wf_atom a : wf_data (PyAtom a)
| wf_list xs : Forall wf_data xs → wf_data (PyList xs)
| wf_dict items :
    NoDup items.*1 → Forall (λ kv, wf_data kv.2) items → wf_data (PyDict items).

(** The same logical input: two mappings are the same when they have the
    same keys with the same values, in whatever order the keys were
    supplied. *)
Inductive same_data {atom : Type} : pydata atom → pydata atom → Prop :=
| same_atom a : same_data (PyAtom a) (PyAtom a)
| same_list xs ys : Forall2 same_data xs ys → same_data (PyList xs) (PyList ys)
| same_dict items1 items2 items2' :
    items2 ≡ₚ items2' →
    Forall2 (λ p q, p.1 = q.1 ∧ same_data p.2 q.2) items1 items2' →
    same_data (PyDict items1) (PyDict items2).

End Serialization.

(** ** CacheManager *)

Module CacheManager.
Import Serialization.

(** The [config] dictionary; an entry that is absent is [None]. *)
Record config : Type := mk_config {
  cfg_max_size : option Z;
  cfg_ttl : option Z;
  cfg_enabled : option bool
}.

(** The fields of a [CacheManager]; [_caches] maps a name to its cache. *)
Record t (V : Type) : Type := mk {
  _caches : gmap string (LRUCache.t V);
  _enabled : bool
}.
Arguments mk {V}.
Arguments _caches {V}.
Arguments _enabled {V}.

Section methods.
Context {V atom : Type}.
Variable str_of_atom : atom → string.
Variable json_of_atom : atom → string.
Variable json_of_key : string → string.
Variable sha256_hexdigest : string → string.

(** [CacheManager(config)] *)
Definition init (cfg : option config) : t V :=
  let cfg := default (mk_config None None None) cfg in
  let max_size := default 1000 (cfg_max_size cfg) in
  let ttl := default 3600 (cfg_ttl cfg) in
  mk (<["motion" := LRUCache.init max_size ttl]>
        (<["gesture" := LRUCache.init max_size ttl]>
           (<["typing" := LRUCache.init max_size ttl]> ∅)))
     (default true (cfg_enabled cfg)).

Definition cache_key (encoder_type : string) (data : pydata atom) : string :=
  _generate_cache_key str_of_atom json_of_atom json_of_key sha256_hexdigest
    encoder_type data.

(** [get_embedding(encoder_type, data)] *)
Definition get_embedding (encoder_type : string) (data : pydata atom) (now : float)
    (m : t V) : option V * t V :=
  if negb (_enabled m) then (None, m)
  else match _caches m !! encoder_type with
       | None => (None, m)
       | Some cache =>
           let key := cache_key encoder_type data in
           let r := LRUCache.get key now cache in
           (r.1, mk (<[encoder_type := r.2]> (_caches m)) (_enabled m))
       end.

(** [set_embedding(encoder_type, data, embedding, ttl)] *)
Definition set_embedding (encoder_type : string) (data : pydata atom)
    (embedding : option V) (ttl : option Z) (now : float) (m : t V) : outcome (t V) unit :=
  if negb (_enabled m) then Return () m
  else match _caches m !! encoder_type with
       | None => Return () m
       | Some cache =>
           let key := cache_key encoder_type data in
           match LRUCache.set key embedding ttl now cache with
           | Return _ cache' => Return () (mk (<[encoder_type := cache']> (_caches m)) (_enabled m))
           | Raise e cache' => Raise e (mk (<[encoder_type := cache']> (_caches m)) (_enabled m))
           | OutOfFuel => OutOfFuel
           end
       end.

End methods.

(** [get_stats()] *)
Definition get_stats {V} (m : t V) : bool * gmap string LRUCache.stats :=
  (_enabled m, LRUCache.get_stats <$> _caches m).

(** [clear(encoder_type)]: [None] and the empty string clear every cache. *)
Definition clear {V} (encoder_type : option string) (m : t V) : t V :=
  match encoder_type with
  | Some (String c e) =>
      mk (alter LRUCache.clear (String c e) (_caches m)) (_enabled m)
  | Some EmptyString | None => mk (LRUCache.clear <$> _caches m) (_enabled m)
  end.

(** [cleanup_expired()], [clock name] being the readings of [time.time()]
    while the cache [name] is swept. *)
Definition cleanup_expired {V} (clock : string → nat → float) (m : t V) : t V :=
  mk (map_imap (λ name cache, Some (LRUCache.cleanup_expired (clock name) cache))
        (_caches m))
     (_enabled m).

End CacheManager.

(** ** MetricsCollector *)

Module MetricsCollector.

(** The fields of a [MetricsCollector]. A [defaultdict] is the map of the
    keys it holds; a sample (a latency in milliseconds) is a rational
    number. *)
Record t : Type := mk {
  _start_time : Qc;
  _request_count : gmap string Z;
  _status_count : gmap string Z;
  _error_count : gmap string Z;
  _max_latency_samples : Z;
  _latencies : gmap string (list Qc);
  _inference_times : gmap string (list Qc);
  _active_requests : Z;
  _peak_active_requests : Z;
  _cache_hits : Z;
  _cache_misses : Z;
  _requests_in_window : Z;
  _window_start : Qc;
  _window_size : Z
}.

(** [MetricsCollector()], [clock 0] and [clock 1] being the two readings of
    [time.time()]. *)
Definition init (clock : nat → Qc) : t :=
  mk (clock 0%nat) ∅ ∅ ∅ 1000 ∅ ∅ 0 0 0 0 0 (clock 1%nat) 60.

(** [d[key] += 1] on a [defaultdict(int)] *)
Definition incr (key : string) (d : gmap string Z) : gmap string Z :=
  <[key := default 0 (d !! key) + 1]> d.

(** [d[key].append(x)] on a [defaultdict(list)] *)
Definition append_sample (key : string) (x : Qc) (d : gmap string (list Qc)) :
    gmap string (list Qc) :=
  <[key := default [] (d !! key) ++ [x]]> d.

(** [l[-n:]] *)
Definition slice_last (n : Z) (l : list Qc) : list Qc :=
  let len := Z.of_nat (length l) in
  let start := if bool_decide (0 < n) then Z.max 0 (len - n) else Z.min (- n) len in
  drop (Z.to_nat start) l.

(** [if len(d[key]) > n: d[key] = d[key][-n:]] *)
Definition trim (n : Z) (key : string) (d : gmap string (list Qc)) :
    gmap string (list Qc) :=
  let l := default [] (d !! key) in
  if bool_decide (n < Z.of_nat (length l)) then <[key := slice_last n l]> d
  else <[key := l]> d.

(** [record_request_start()] *)
Definition record_request_start (s : t) : t :=
  let active := _active_requests s + 1 in
  mk (_start_time s) (_request_count s) (_status_count s) (_error_count s)
     (_max_latency_samples s) (_latencies s) (_inference_times s)
     active (Z.max (_peak_active_requests s) active)
     (_cache_hits s) (_cache_misses s) (_requests_in_window s)
     (_window_start s) (_window_size s).

(** [record_request_end(endpoint, status_code, latency_ms)] *)
Definition record_request_end (endpoint : string) (status_code : Z) (latency_ms : Qc)
    (s : t) : t :=
  let errors :=
    if bool_decide (400 ≤ status_code)
    then incr "total" (incr endpoint (_error_count s))
    else _error_count s in
  let n := _max_latency_samples s in
  mk (_start_time s)
     (incr "total" (incr endpoint (_request_count s)))
     (incr (pretty status_code) (_status_count s))
     errors
     n
     (trim n "all" (trim n endpoint
        (append_sample "all" latency_ms (append_sample endpoint latency_ms (_latencies s)))))
     (_inference_times s)
     (Z.max 0 (_active_requests s - 1)) (_peak_active_requests s)
     (_cache_hits s) (_cache_misses s) (_requests_in_window s + 1)
     (_window_start s) (_window_size s).

(** [record_inference_time(model_type, time_ms)] *)
Definition record_inference_time (model_type : string) (time_ms : Qc) (s : t) : t :=
  mk (_start_time s) (_request_count s) (_status_count s) (_error_count s)
     (_max_latency_samples s) (_latencies s)
     (trim (_max_latency_samples s) model_type
        (append_sample model_type time_ms (_inference_times s)))
     (_active_requests s) (_peak_active_requests s)
     (_cache_hits s) (_cache_misses s) (_requests_in_window s)
     (_window_start s) (_window_size s).

(** [record_cache_hit()] *)
Definition record_cache_hit (s : t) : t :=
  mk (_start_time s) (_request_count s) (_status_count s) (_error_count s)
     (_max_latency_samples s) (_latencies s) (_inference_times s)
     (_active_requests s) (_peak_active_requests s)
     (_cache_hits s + 1) (_cache_misses s) (_requests_in_window s)
     (_window_start s) (_window_size s).

(** [record_cache_miss()] *)
Definition record_cache_miss (s : t) : t :=
  mk (_start_time s) (_request_count s) (_status_count s) (_error_count s)
     (_max_latency_samples s) (_latencies s) (_inference_times s)
     (_active_requests s) (_peak_active_requests s)
     (_cache_hits s) (_cache_misses s + 1) (_requests_in_window s)
     (_window_start s) (_window_size s).

(** [reset()] *)
Definition reset (now : Qc) (s : t) : t :=
  mk (_start_time s) ∅ ∅ ∅ (_max_latency_samples s) ∅ ∅ 0 0 0 0 0 now (_window_size s).

(** What [_calculate_percentiles] returns; [avg] is the exact mean, of which
    the code computes the binary64 rounding. *)
Record percentiles : Type := mk_percentiles {
  avg : Qc;
  min : Qc;
  max : Qc;
  p50 : Qc;
  p95 : Qc;
  p99 : Qc
}.

(** [sorted(data)] *)
Definition sorted (data : list Qc) : list Qc := merge_sort Qcle data.

(** [int(n * p)], the product being a binary64 number. *)
Definition percentile_index (n : nat) (p : float) : option nat :=
  Z.to_nat <$> int_of_float (PrimFloat.mul (float_of_Z (Z.of_nat n)) p).

(** [sorted_data[int(n * p)]], [None] standing for [IndexError]. *)
Definition percentile (sorted_data : list Qc) (p : float) : option Qc :=
  i ← percentile_index (length sorted_data) p; sorted_data !! i.

(** [_calculate_percentiles(data)], [None] standing for [IndexError]. *)
Definition _calculate_percentiles (data : list Qc) : option percentiles :=
  match data with
  | [] => Some (mk_percentiles 0 0 0 0 0 0)
  | _ :: _ =>
      let sorted_data := sorted data in
      let n := length sorted_data in
      lo ← head sorted_data;
      hi ← last sorted_data;
      q50 ← percentile sorted_data 0.5;
      q95 ← (if bool_decide (20 ≤ n)%nat then percentile sorted_data 0.95 else Some hi);
      q99 ← (if bool_decide (100 ≤ n)%nat then percentile sorted_data 0.99 else Some hi);
      Some (mk_percentiles (foldr Qcplus 0%Qc data / Qc_of_Z (Z.of_nat n))%Qc
                           lo hi q50 q95 q99)
  end.

(** The part of what [get_metrics] returns that does not depend on the
    wall clock: the [service] entry and [requests_per_second] are left
    out. *)
Record snapshot : Type := mk_snapshot {
  requests_total : Z;
  requests_by_endpoint : gmap string Z;
  requests_by_status : gmap string Z;
  requests_errors : gmap string Z;
  requests_active : Z;
  requests_peak_active : Z;
  latency_overall_ms : percentiles;
  latency_by_endpoint : gmap string percentiles;
  model_inference_ms : gmap string percentiles;
  cache_hits : Z;
  cache_misses : Z;
  cache_hit_rate_percent : pynum
}.

(** [{k: _calculate_percentiles(v) for k, v in d.items()}] *)
Definition summarize (d : gmap string (list Qc)) : option (gmap string percentiles) :=
  map_fold (λ k v acc, m ← acc; pc ← _calculate_percentiles v; Some (<[k := pc]> m))
           (Some ∅) d.

(** [get_metrics()], [clock i] being the [i]-th reading of [time.time()].
    Reading [self._request_count['total']] and [self._latencies['all']]
    creates the entries that are missing. *)
Definition get_metrics (clock : nat → Qc) (s : t) : outcome t snapshot :=
  let window_elapsed := (clock 1%nat - _window_start s)%Qc in
  let reset_window := bool_decide (Qc_of_Z (_window_size s) ≤ window_elapsed)%Qc in
  let total_cache_ops := _cache_hits s + _cache_misses s in
  let cache_hit_rate :=
    if bool_decide (0 < total_cache_ops)
    then PyFloat (PrimFloat.mul (int_truediv (_cache_hits s) total_cache_ops)
                                (float_of_Z 100))
    else PyInt 0 in
  let request_count := <["total" := default 0 (_request_count s !! "total")]> (_request_count s) in
  let latencies := <["all" := default [] (_latencies s !! "all")]> (_latencies s) in
  let s' :=
    mk (_start_time s) request_count (_status_count s) (_error_count s)
       (_max_latency_samples s) latencies (_inference_times s)
       (_active_requests s) (_peak_active_requests s)
       (_cache_hits s) (_cache_misses s)
       (if reset_window then 0 else _requests_in_window s)
       (if reset_window then clock 2%nat else _window_start s)
       (_window_size s) in
  match _calculate_percentiles (default [] (latencies !! "all")),
        summarize (delete "all" latencies),
        summarize (_inference_times s) with
  | Some overall, Some by_endpoint, Some inference =>
      Return (mk_snapshot (default 0 (request_count !! "total")) request_count
                (_status_count s) (_error_count s)
                (_active_requests s) (_peak_active_requests s)
                overall by_endpoint inference
                (_cache_hits s) (_cache_misses s) (py_round cache_hit_rate 2))
             s'
  | _, _, _ => Raise (Exception "IndexError") s'
  end.

(** The calls that record something. *)
Inductive op : Type :=
| OpRequestStart
| OpRequestEnd (endpoint : string) (status_code : Z) (latency_ms : Qc)
| OpInferenceTime (model_type : string) (time_ms : Qc)
| OpCacheHit
| OpCacheMiss
| OpGetMetrics (clock : nat → Qc)
| OpReset (now : Qc).

Definition exec (o : op) (s : t) : t :=
  match o with
  | OpRequestStart => record_request_start s
  | OpRequestEnd endpoint status_code latency_ms =>
      record_request_end endpoint status_code latency_ms s
  | OpInferenceTime model_type time_ms => record_inference_time model_type time_ms s
  | OpCacheHit => record_cache_hit s
  | OpCacheMiss => record_cache_miss s
  | OpGetMetrics clock => state_after s (get_metrics clock s)
  | OpReset now => reset now s
  end.

Definition run (ops : list op) (s : t) : t := foldl (λ s' o, exec o s') s ops.

(** The collector before and after every operation of a run. *)
Fixpoint trace (ops : list op) (s : t) : list t :=
  match ops with
  | [] => [s]
  | o :: ops' => s :: trace ops' (exec o s)
  end.

(** The largest of the active counts of a list of states, and zero. *)
Definition max_active (l : list t) : Z := foldr Z.max 0 (_active_requests <$> l).

(** The calls that bracket a request. *)
Inductive request_event : Type :=
| RequestStart
| RequestEnd (endpoint : string) (status_code : Z) (latency_ms : Qc).

Definition op_of_event (e : request_event) : op :=
  match e with
  | RequestStart => OpRequestStart
  | RequestEnd endpoint status_code latency_ms =>
      OpRequestEnd endpoint status_code latency_ms
  end.

(** Every series of [d] holds at most [n] samples. *)
Definition bounded (n : Z) (d : gmap string (list Qc)) : Prop :=
  ∀ key l, d !! key = Some l → Z.of_nat (length l) ≤ n.

(** The invariant of the sample series. *)
Definition series_bounded (s : t) : Prop :=
  _max_latency_samples s = 1000 ∧
  bounded 1000 (_latencies s) ∧
  bounded 1000 (_inference_times s).

(** A series that [get_metrics] summarises. *)
Definition summarised (s : t) (series : list Qc) : Prop :=
  ∃ key, _latencies s !! key = Some series ∨ _inference_times s !! key = Some series.

End MetricsCollector.

(** ** cached_encode *)

Module CachedEncode.
Import Serialization.

(** What the wrapper does besides its bookkeeping, in the order it does it:
    the lookup, the call of the wrapped function, the store. The log is not
    a variable of the program: it records the calls that the properties
    count. *)
Inductive event : Type :=
| EvGetEmbedding
| EvFunc
| EvSetEmbedding.

(** The module globals [cache_manager] and [metrics], and the log. *)
Record world (V : Type) : Type := mk_world {
  cache_manager : option (CacheManager.t V);
  metrics : MetricsCollector.t;
  log : list event
}.
Arguments mk_world {V}.
Arguments cache_manager {V}.
Arguments metrics {V}.
Arguments log {V}.

Section wrapper.
Context {V atom : Type}.
Variable str_of_atom : atom → string.
Variable json_of_atom : atom → string.
Variable json_of_key : string → string.
Variable sha256_hexdigest : string → string.

(** [get_cache()]: the global manager, created with the default
    configuration when there is none. *)
Definition get_cache (w : world V) : CacheManager.t V * world V :=
  match cache_manager w with
  | Some m => (m, w)
  | None =>
      let m := CacheManager.init None in
      (m, mk_world (Some m) (metrics w) (log w))
  end.

(** [cached_encode(encoder_type)(func)(data, *args, **kwargs)]. The wrapped
    function, applied to the extra arguments, either raises or returns an
    embedding or [None]; [now_get] and [now_set] are the readings of
    [time.time()] in the lookup and in the store. *)
Definition cached_encode (encoder_type : string) (func : pydata atom → pyexn + option V)
    (data : pydata atom) (now_get now_set : float) (w : world V) :
    outcome (world V) (option V) :=
  let '(cache, w0) := get_cache w in
  let looked :=
    CacheManager.get_embedding str_of_atom json_of_atom json_of_key sha256_hexdigest
      encoder_type data now_get cache in
  let cache1 := looked.2 in
  match looked.1 with
  | Some cached_result =>
      Return (Some cached_result)
        (mk_world (Some cache1) (MetricsCollector.record_cache_hit (metrics w0))
           (log w0 ++ [EvGetEmbedding]))
  | None =>
      let w1 := mk_world (Some cache1) (MetricsCollector.record_cache_miss (metrics w0))
                  (log w0 ++ [EvGetEmbedding; EvFunc]) in
      match func data with
      | inl e => Raise e w1
      | inr None => Return None w1
      | inr (Some result) =>
          match CacheManager.set_embedding str_of_atom json_of_atom json_of_key
                  sha256_hexdigest encoder_type data (Some result) None now_set cache1 with
          | Return _ cache2 =>
              Return (Some result)
                (mk_world (Some cache2) (metrics w1) (log w1 ++ [EvSetEmbedding]))
          | Raise e cache2 =>
              Raise e (mk_world (Some cache2) (metrics w1) (log w1 ++ [EvSetEmbedding]))
          | OutOfFuel => OutOfFuel
          end
      end
  end.

(** The manager that the wrapper looks into, and what the lookup gives. *)
Definition lookup (encoder_type : string) (data : pydata atom) (now_get : float)
    (w : world V) : option V * CacheManager.t V :=
  CacheManager.get_embedding str_of_atom json_of_atom json_of_key sha256_hexdigest
    encoder_type data now_get (get_cache w).1.

End wrapper.

#[global] Instance event_eq_dec : EqDecision event.
Proof. solve_decision. Defined.

(** The number of calls of the wrapped function in a log. *)
Definition calls (l : list event) : nat :=
  length (filter (λ e, e = EvFunc) l).

End CachedEncode.

(** ** Runs and their counts *)

(** The operation is a call of [get]. *)
Definition is_get {V} (o : LRUCache.op V) : bool :=
  match o with
  | LRUCache.OpGet _ _ => true
  | _ => false
  end.

(** ** The global manager *)

(** [init_cache(config)]: a new manager takes the place of the global
    one. *)
Definition init_cache {V} (cfg : option CacheManager.config) (w : CachedEncode.world V) :
    CacheManager.t V * CachedEncode.world V :=
  let m := CacheManager.init cfg in
  (m, CachedEncode.mk_world (Some m) (CachedEncode.metrics w) (CachedEncode.log w)).

(** ** Runs of a collector *)

(** The operations of a run since its last [reset]. *)
Definition since_reset (ops : list MetricsCollector.op) : list MetricsCollector.op :=
  foldl (λ acc o, match o with MetricsCollector.OpReset _ => [] | _ => acc ++ [o] end) [] ops.

(** The operation is a [record_request_end] with an endpoint and a status
    code that [p] accepts. *)
Definition is_end (p : string → Z → bool) (o : MetricsCollector.op) : bool :=
  match o with
  | MetricsCollector.OpRequestEnd endpoint status_code _ => p endpoint status_code
  | _ => false
  end.

Definition is_cache_hit (o : MetricsCollector.op) : bool :=
  match o with MetricsCollector.OpCacheHit => true | _ => false end.

Definition is_cache_miss (o : MetricsCollector.op) : bool :=
  match o with MetricsCollector.OpCacheMiss => true | _ => false end.

(** The number of operations of [ops] that [f] accepts. *)
Definition count_ops (f : MetricsCollector.op → bool) (ops : list MetricsCollector.op) : Z :=
  Z.of_nat (length (filter (λ o, f o = true) ops)).

(** The samples that a run has appended to the latency series [key] and to
    the inference series [key] since its last [reset]: a request adds its
    latency to the series of its endpoint and then to the series [all]. *)
Definition latency_samples (key : string) (ops : list MetricsCollector.op) : list Qc :=
  foldl (λ acc o,
           match o with
           | MetricsCollector.OpReset _ => []
           | MetricsCollector.OpRequestEnd endpoint _ latency_ms =>
               acc ++ (if decide (endpoint = key) then [latency_ms] else [])
                   ++ (if decide ("all" = key) then [latency_ms] else [])
           | _ => acc
           end) [] ops.

Definition inference_samples (key : string) (ops : list MetricsCollector.op) : list Qc :=
  foldl (λ acc o,
           match o with
           | MetricsCollector.OpReset _ => []
           | MetricsCollector.OpInferenceTime model_type time_ms =>
               acc ++ (if decide (model_type = key) then [time_ms] else [])
           | _ => acc
           end) [] ops.

(** The last [n] elements of a list. *)
Definition last_n {A} (n : nat) (l : list A) : list A := drop (length l - n) l.

(** ** The decorators of the metrics module *)

Module Tracking.

(** What the wrapped function, or an operation on its result, raises: an
    instance of [Exception], which [except Exception] catches, or another
    [BaseException] ([KeyboardInterrupt], [SystemExit], [GeneratorExit]),
    which it does not catch. *)
Inductive raise_kind : Type :=
| IsException (e : pyexn)
| NotException (name : string).

(** The outcome of an operation on the object that a wrapped function has
    returned. *)
Inductive probe (A : Type) : Type :=
| Gives (a : A)
| Fails (e : raise_kind).
Arguments Gives {A}.
Arguments Fails {A}.

(** The object [result[1]] as [isinstance(result[1], int)] sees it: an
    [int], a [bool], which is an instance of [int] as well, or another
    object. *)
Inductive item : Type :=
| IntItem (z : Z)
| BoolItem (b : bool)
| OtherItem.

(** What [track_request] asks of the result: whether it has an [__iter__]
    attribute, what [len(result)] gives, and what [result[1]] gives (the
    same at both places where the wrapper evaluates it). *)
Record response : Type := mk_response {
  has_iter : probe bool;
  len : probe Z;
  item1 : probe item
}.

(** The [status_code] that the wrapper passes on: an [int] or a [bool]. *)
Inductive status_code : Type :=
| IntCode (z : Z)
| BoolCode (b : bool).

(** The status code that [track_request] reads off the result; an
    operation that fails raises inside the [try] block. *)
Definition status_of (result : response) : raise_kind + status_code :=
  match has_iter result with
  | Fails e => inl e
  | Gives false => inr (IntCode 200)
  | Gives true =>
      match len result with
      | Fails e => inl e
      | Gives n =>
          if bool_decide (2 ≤ n) then
            match item1 result with
            | Fails e => inl e
            | Gives (IntItem z) => inr (IntCode z)
            | Gives (BoolItem b) => inr (BoolCode b)
            | Gives OtherItem => inr (IntCode 200)
            end
          else inr (IntCode 200)
      end
  end.

(** [str(status_code)] *)
Definition status_str (c : status_code) : string :=
  match c with
  | IntCode z => pretty z
  | BoolCode true => "True"
  | BoolCode false => "False"
  end.

(** [record_request_end(endpoint, status_code, latency_ms)] for a status
    code that is an [int] or a [bool]; [True] and [False] compare as [1]
    and [0], so a [bool] is never counted as an error. *)
Definition record_request_end (endpoint : string) (c : status_code) (latency_ms : Qc)
    (s : MetricsCollector.t) : MetricsCollector.t :=
  match c with
  | IntCode z => MetricsCollector.record_request_end endpoint z latency_ms s
  | BoolCode b =>
      let n := MetricsCollector._max_latency_samples s in
      MetricsCollector.mk (MetricsCollector._start_time s)
        (MetricsCollector.incr "total"
           (MetricsCollector.incr endpoint (MetricsCollector._request_count s)))
        (MetricsCollector.incr (status_str (BoolCode b)) (MetricsCollector._status_count s))
        (MetricsCollector._error_count s)
        n
        (MetricsCollector.trim n "all" (MetricsCollector.trim n endpoint
           (MetricsCollector.append_sample "all" latency_ms
              (MetricsCollector.append_sample endpoint latency_ms
                 (MetricsCollector._latencies s)))))
        (MetricsCollector._inference_times s)
        (Z.max 0 (MetricsCollector._active_requests s - 1))
        (MetricsCollector._peak_active_requests s)
        (MetricsCollector._cache_hits s) (MetricsCollector._cache_misses s)
        (MetricsCollector._requests_in_window s + 1)
        (MetricsCollector._window_start s) (MetricsCollector._window_size s)
  end.

(** [endpoint_name or func.__name__] *)
Definition endpoint_of (endpoint_name : option string) (func_name : string) : string :=
  match endpoint_name with
  | Some (String c n) => String c n
  | Some EmptyString | None => func_name
  end.

(** The wrapper [track_request(endpoint_name)(func)], called. The wrapped
    function, applied to the arguments of the call, returns or raises, and
    may record metrics of its own; [clock i] is the [i]-th reading of
    [time.time()]. The wrapper returns the result, or raises again what was
    raised: the [except Exception] clause records the end of the request,
    and what it does not catch passes with nothing recorded. *)
Definition track_request (endpoint_name : option string) (func_name : string)
    (func : MetricsCollector.t → (raise_kind + response) * MetricsCollector.t)
    (clock : nat → Qc) (m : MetricsCollector.t) :
    (raise_kind + response) * MetricsCollector.t :=
  let name := endpoint_of endpoint_name func_name in
  let start_time := clock 0%nat in
  let m1 := MetricsCollector.record_request_start m in
  let handled (e : pyexn) (now : Qc) (m2 : MetricsCollector.t) :=
    (inl (IsException e),
     MetricsCollector.record_request_end name 500
       ((now - start_time) * Qc_of_Z 1000)%Qc m2) in
  match func m1 with
  | (inr result, m2) =>
      let latency_ms := ((clock 1%nat - start_time) * Qc_of_Z 1000)%Qc in
      match status_of result with
      | inr status_code => (inr result, record_request_end name status_code latency_ms m2)
      | inl (IsException e) => handled e (clock 2%nat) m2
      | inl (NotException n) => (inl (NotException n), m2)
      end
  | (inl (IsException e), m2) => handled e (clock 1%nat) m2
  | (inl (NotException n), m2) => (inl (NotException n), m2)
  end.


End Tracking.

(** ** _format_uptime *)

(** [int(x // y)] and [x % y] for a float [x], given by its exact value,
    and a positive integer [y], for [0 <= x < 2 ** 53]: there the remainder
    [fmod] is exact, [x] less the remainder is an integer below [2 ** 53],
    and so is its quotient by [y], so that the floor division and the
    remainder of the floats are the exact ones. Beyond that bound the
    float [//] rounds, and these definitions do not describe it. *)
Definition floordiv (x : Qc) (y : Z) : Z := Qfloor (x / Qc_of_Z y)%Qc.

Definition pymod (x : Qc) (y : Z) : Qc :=
  (x - Qc_of_Z y * Qc_of_Z (Qfloor (x / Qc_of_Z y)%Qc))%Qc.

(** The parts that are printed, joined by a space. *)
Definition uptime_text (days hours minutes secs : Z) : string :=
  String.concat " "
    ((if bool_decide (0 < days) then [pretty days +:+ "d"] else []) ++
     (if bool_decide (0 < hours) then [pretty hours +:+ "h"] else []) ++
     (if bool_decide (0 < minutes) then [pretty minutes +:+ "m"] else []) ++
     [pretty secs +:+ "s"]).

(** [_format_uptime(seconds)], for [0 <= seconds < 2 ** 53] *)
Definition _format_uptime (seconds : Qc) : string :=
  let days := floordiv seconds 86400 in
  let hours := floordiv (pymod seconds 86400) 3600 in
  let minutes := floordiv (pymod seconds 3600) 60 in
  let secs := Qfloor (pymod seconds 60) in
  uptime_text days hours minutes secs.

(** ** The key of the cache itself *)

Section generate_key.
Context {atom : Type}.
Variable str_of_atom : atom → string.
Variable json_of_atom : atom → string.
Variable json_of_key : string → string.
Variable sha256_hexdigest : string → string.

(** [LRUCache._generate_key(data)] *)
Definition _generate_key (d : Serialization.pydata atom) : string :=
  string_take 32
    (sha256_hexdigest (Serialization.serialize str_of_atom json_of_atom json_of_key d)).

End generate_key.

(** ** Instances used by the witnesses and the counterexamples *)

Module LRUExamples.

Definition a1 : LRUCache.insertion (V:=Z) := LRUCache.mk_insertion "a" (Some 1) None 0%float.
Definition b2 : LRUCache.insertion (V:=Z) := LRUCache.mk_insertion "b" (Some 2) None 0%float.
Definition c3 : LRUCache.insertion (V:=Z) := LRUCache.mk_insertion "c" (Some 3) None 0%float.
Definition d4 : LRUCache.insertion (V:=Z) := LRUCache.mk_insertion "d" (Some 4) None 1%float.

(** A cache of capacity three after [set] of a, b and c, [get] of a, and
    [set] of d. *)
Definition refreshed : LRUCache.t Z :=
  LRUCache.run ((LRUCache.op_of_insertion <$> [a1; b2; c3])
                ++ [LRUCache.OpGet "a" 1%float; LRUCache.op_of_insertion d4])
               (LRUCache.init 3 3600).

(** A cache of capacity one after [set] of a, [get] of a, and [set] of b. *)
Definition single : LRUCache.t Z :=
  LRUCache.run [LRUCache.op_of_insertion a1; LRUCache.OpGet "a" 0%float;
                LRUCache.op_of_insertion b2]
               (LRUCache.init 1 3600).

(** A cache holding one entry of ttl one second, set at time zero. *)
Definition short_lived : LRUCache.t Z :=
  LRUCache.run [LRUCache.OpSet "abc" (Some 7) (Some 1) 0%float] (LRUCache.init 10 3600).

(** A cache after one [set], 23 hits and 137 misses. *)
Definition hits_23_misses_137 : LRUCache.t Z :=
  LRUCache.run ([LRUCache.op_of_insertion a1]
                ++ replicate 23 (LRUCache.OpGet "a" 0%float)
                ++ replicate 137 (LRUCache.OpGet "b" 0%float))
               (LRUCache.init 1000 3600).

End LRUExamples.

Module KeyExamples.
Import Serialization.

(** The JSON encoding of a key without special characters: the key between
    double quotes. The scalars of the samples are integers, for which [str]
    and [json.dumps] both write the decimal digits ([pretty]). *)
Definition json_of_key (k : string) : string :=
  String (ascii_of_nat 34) EmptyString +:+ k +:+ String (ascii_of_nat 34) EmptyString.

(** A stand-in for [hashlib.sha256(b).hexdigest()] that has its format only:
    64 hexadecimal digits. *)
Definition stand_in_hexdigest (b : string) : string :=
  "0000000000000000000000000000000000000000000000000000000000000000".

(** One mapping, its keys supplied in two orders. *)
Definition sample_xy : pydata Z :=
  PyDict [("x", PyAtom 1); ("y", PyList [PyAtom 2; PyAtom 3])].
Definition sample_yx : pydata Z :=
  PyDict [("y", PyList [PyAtom 2; PyAtom 3]); ("x", PyAtom 1)].

(** A manager with caching disabled. *)
Definition disabled : CacheManager.t (list Z) :=
  CacheManager.init (Some (CacheManager.mk_config None None (Some false))).

End KeyExamples.

Module MetricsExamples.

Definition clock0 : nat → Qc := λ _, 0%Qc.

(** A collector after three requests on one endpoint. *)
Definition three_requests : list MetricsCollector.op :=
  [MetricsCollector.OpRequestEnd "encode" 200 (Qc_of_Z 12);
   MetricsCollector.OpRequestEnd "encode" 200 (Qc_of_Z 7);
   MetricsCollector.OpRequestEnd "encode" 500 (Qc_of_Z 30)].

Definition three_latencies : list Qc := [Qc_of_Z 12; Qc_of_Z 7; Qc_of_Z 30].

End MetricsExamples.

Module WrapperExamples.
Import Serialization.

(** The module globals at start-up: no manager yet, a new collector. *)
Definition fresh_world : CachedEncode.world (list Z) :=
  CachedEncode.mk_world None (MetricsCollector.init MetricsExamples.clock0) [].

(** An encoder that fails, and one that answers. *)
Definition failing (data : pydata Z) : pyexn + option (list Z) :=
  inl (Exception "RuntimeError").
Definition answering (data : pydata Z) : pyexn + option (list Z) :=
  inr (Some [1; 2; 3]).

End WrapperExamples.

Module SweepExamples.

(** A cache holding [a] with a ttl of one second and [b] with the default
    ttl, both set at time zero. *)
Definition two_entries : LRUCache.t Z :=
  LRUCache.run [LRUCache.OpSet "a" (Some 1) (Some 1) 0%float;
                LRUCache.OpSet "b" (Some 2) None 0%float]
               (LRUCache.init 10 3600).

(** A clock that reads two seconds at every reading. *)
Definition at_two : nat → float := λ _, 2%float.

(** Two reads, of a key that is there and of one that is not. *)
Definition two_reads : list (LRUCache.op Z) :=
  [LRUCache.OpGet "abc" 0%float; LRUCache.OpGet "zz" 0%float].

End SweepExamples.

Module ManagerExamples.

(** The globals with caching disabled, and with caches of capacity zero. *)
Definition disabled_world : CachedEncode.world (list Z) :=
  CachedEncode.mk_world (Some KeyExamples.disabled)
    (MetricsCollector.init MetricsExamples.clock0) [].

Definition no_capacity : CacheManager.t (list Z) :=
  CacheManager.init (Some (CacheManager.mk_config (Some 0) None None)).

Definition no_capacity_world : CachedEncode.world (list Z) :=
  CachedEncode.mk_world (Some no_capacity) (MetricsCollector.init MetricsExamples.clock0) [].

End ManagerExamples.

Module TrackingExamples.

(** A model call that returns and records nothing itself, and a clock that
    reads the seconds 10 and 10.25. *)
Definition inference (m : MetricsCollector.t) : (pyexn + Z) * MetricsCollector.t :=
  (inr 7, m).

Definition quarter_second : nat → Qc :=
  λ i, match i with O => Qc_of_Z 10 | _ => (Qc_of_Z 41 / Qc_of_Z 4)%Qc end.

End TrackingExamples.

Module DigestExamples.

(** A stand-in for [hashlib.sha256(b).hexdigest()] that depends on its
    input: the bytes of [b] in hexadecimal, filled up with zeros and cut to
    64 digits. *)
Definition hex_digit (n : nat) : ascii :=
  nth n (list_ascii_of_string "0123456789abcdef") "0"%char.

Fixpoint hex_of (b : string) : string :=
  match b with
  | EmptyString => EmptyString
  | String c b' =>
      String (hex_digit (nat_of_ascii c / 16))
        (String (hex_digit (nat_of_ascii c mod 16)) (hex_of b'))
  end.

Definition zeros : string :=
  "0000000000000000000000000000000000000000000000000000000000000000".

Definition prefix_hexdigest (b : string) : string :=
  string_take 64 (hex_of b +:+ zeros).

End DigestExamples.

(** * Properties *)

(** ** The ordered dictionary *)

Section OrderedDict_facts.
Context {A : Type}.
Implicit Types (d : list (string * A)) (k : string) (v : A).

Lemma od_get_None k d : od_get k d = None ↔ k ∉ d.*1.
Proof.
  induction d as [|[k' v'] d IH]; simpl.
  - split; [intros _; apply not_elem_of_nil | done].
  - case_decide as Hk; subst.
    + split; [done | intros []; left].
    + rewrite IH, not_elem_of_cons. split; [by intros ?; split | by intros [_ ?]].
Qed.

Lemma od_get_Some_elem k v d : od_get k d = Some v → (k, v) ∈ d.
Proof.
  induction d as [|[k' v'] d IH]; simpl; [done|].
  case_decide; subst.
  - intros [= ->]. left.
  - intros ?. right. auto.
Qed.

Lemma od_get_is_Some k d : is_Some (od_get k d) ↔ k ∈ d.*1.
Proof.
  destruct (od_get k d) eqn:E.
  - split; [|eauto]. intros _. apply od_get_Some_elem in E.
    apply list_elem_of_fmap. by exists (k, a).
  - apply od_get_None in E. split; [by intros [? [=]] | done].
Qed.

Lemma od_contains_true k d : od_contains k d = true ↔ k ∈ d.*1.
Proof. unfold od_contains. apply bool_decide_eq_true. Qed.

Lemma od_contains_false k d : od_contains k d = false ↔ k ∉ d.*1.
Proof. unfold od_contains. apply bool_decide_eq_false. Qed.

Lemma od_pop_keys k d : (od_pop k d).*1 = filter (λ k', k' ≠ k) d.*1.
Proof.
  unfold od_pop. induction d as [|[k' v'] d IH]; [done|].
  rewrite fmap_cons, !filter_cons. simpl.
  destruct (decide (k' ≠ k)); simpl; [f_equal|]; exact IH.
Qed.

Lemma od_pop_not_elem k d : k ∉ (od_pop k d).*1.
Proof. rewrite od_pop_keys, list_elem_of_filter. by intros [? _]. Qed.

Lemma od_pop_elem k k' d : k' ∈ (od_pop k d).*1 ↔ k' ≠ k ∧ k' ∈ d.*1.
Proof. by rewrite od_pop_keys, list_elem_of_filter. Qed.

Lemma od_pop_absent k d : k ∉ d.*1 → od_pop k d = d.
Proof.
  unfold od_pop. induction d as [|[k' v'] d IH]; [done|].
  rewrite fmap_cons, not_elem_of_cons, filter_cons. simpl. intros [Hne Hd].
  rewrite decide_True by done. by rewrite IH.
Qed.

Lemma od_pop_head k v d : k ∉ d.*1 → od_pop k ((k, v) :: d) = d.
Proof.
  intros Hd. unfold od_pop. rewrite filter_cons. simpl.
  rewrite decide_False by naive_solver. by apply od_pop_absent.
Qed.

Lemma od_pop_length_le k d : (length (od_pop k d) ≤ length d)%nat.
Proof. apply length_filter. Qed.

Lemma od_pop_length_lt k d : k ∈ d.*1 → (length (od_pop k d) < length d)%nat.
Proof.
  unfold od_pop. induction d as [|[k' v'] d IH]; simpl.
  - intros ?%elem_of_nil. done.
  - rewrite filter_cons. simpl. case_decide as Hk.
    + intros [?|?]%elem_of_cons; [congruence|]. simpl. apply IH in H. lia.
    + intros _. pose proof (length_filter (λ kv : string * A, kv.1 ≠ k) d). lia.
Qed.

Lemma od_pop_NoDup k d : NoDup d.*1 → NoDup (od_pop k d).*1.
Proof. rewrite od_pop_keys. apply NoDup_filter. Qed.

Lemma od_pop_length_NoDup k d :
  NoDup d.*1 → k ∈ d.*1 → S (length (od_pop k d)) = length d.
Proof.
  induction d as [|[k' v'] d IH]; simpl.
  - intros _ ?%elem_of_nil. done.
  - rewrite NoDup_cons. intros [Hk' Hd] Hin. destruct (decide (k' = k)) as [->|Hne].
    + by rewrite od_pop_head.
    + unfold od_pop. rewrite filter_cons. simpl. rewrite decide_True by done.
      simpl. f_equal. apply IH; [done|].
      apply elem_of_cons in Hin as [?|?]; [congruence | done].
Qed.

Lemma od_get_pop_ne k k' d : k' ≠ k → od_get k' (od_pop k d) = od_get k' d.
Proof.
  intros Hne. unfold od_pop. induction d as [|[k0 v0] d IH]; [done|].
  rewrite filter_cons. simpl. case_decide as H0; simpl.
  - case_decide; [done | apply IH].
  - subst k0. rewrite decide_False by done. apply IH.
Qed.

Lemma od_get_pop_eq k d : od_get k (od_pop k d) = None.
Proof. apply od_get_None, od_pop_not_elem. Qed.

Lemma od_get_app k d1 d2 :
  od_get k (d1 ++ d2) = match od_get k d1 with Some v => Some v | None => od_get k d2 end.
Proof.
  induction d1 as [|[k0 v0] d1 IH]; simpl; [done|]. by case_decide.
Qed.

Lemma od_setitem_absent k v d : k ∉ d.*1 → od_setitem k v d = d ++ [(k, v)].
Proof.
  induction d as [|[k' v'] d IH]; simpl; [done|].
  rewrite not_elem_of_cons. intros [Hne Hd].
  rewrite decide_False by done. by rewrite IH.
Qed.

Lemma od_setitem_keys_length k v d :
  (length (od_setitem k v d) ≤ S (length d))%nat.
Proof.
  induction d as [|[k' v'] d IH]; simpl; [lia|]. case_decide; simpl; lia.
Qed.

Lemma od_get_setitem_eq k v d : od_get k (od_setitem k v d) = Some v.
Proof.
  induction d as [|[k' v'] d IH]; simpl.
  - by rewrite decide_True.
  - case_decide as Hk; simpl; [by rewrite decide_True | by rewrite decide_False].
Qed.

Lemma od_move_to_end_length k d :
  (length (od_move_to_end k d) ≤ length d)%nat.
Proof.
  unfold od_move_to_end. destruct (od_get k d) eqn:E; [|done].
  rewrite length_app. simpl.
  assert (k ∈ d.*1) as Hin by (apply od_get_is_Some; eauto).
  apply od_pop_length_lt in Hin. lia.
Qed.

End OrderedDict_facts.

(** ** LRUCache: the eviction loop *)

Section LRUCache_facts.
Context {V : Type}.
Implicit Types (s : LRUCache.t V) (k key : string) (v value : option V).

Lemma remove_length_le k s :
  (length (LRUCache._cache (LRUCache._remove k s)) ≤ length (LRUCache._cache s))%nat.
Proof. apply od_pop_length_le. Qed.

(** The loop of [set] ends within [length (_cache s)] iterations. *)
Lemma evict_total fuel s :
  (length (LRUCache._cache s) ≤ fuel)%nat → LRUCache.evict fuel s ≠ OutOfFuel.
Proof.
  revert s. induction fuel as [|fuel IH]; intros s Hlen; simpl.
  - case_bool_decide; [|done].
    destruct (LRUCache._cache s) as [|[k v] c]; simpl in *; [done | exfalso; lia].
  - case_bool_decide; [|done].
    destruct (LRUCache._cache s) as [|[k v] c] eqn:Ec; simpl; [done|].
    apply IH. 
    assert (k ∈ (LRUCache._cache s).*1) as Hin by (rewrite Ec; left).
    apply od_pop_length_lt in Hin. rewrite Ec in Hin. simpl in *. rewrite Ec. lia.
Qed.

(** With a capacity of one or more the loop returns, leaving fewer entries
    than the capacity; it touches nothing when there is room already. *)
Lemma evict_returns fuel s :
  (length (LRUCache._cache s) ≤ fuel)%nat → 1 ≤ LRUCache._max_size s →
  ∃ s', LRUCache.evict fuel s = Return () s' ∧
        Z.of_nat (length (LRUCache._cache s')) < LRUCache._max_size s' ∧
        (length (LRUCache._cache s') ≤ length (LRUCache._cache s))%nat ∧
        LRUCache._max_size s' = LRUCache._max_size s ∧
        LRUCache._default_ttl s' = LRUCache._default_ttl s ∧
        LRUCache._hits s' = LRUCache._hits s ∧
        LRUCache._misses s' = LRUCache._misses s.
Proof.
  revert s. induction fuel as [|fuel IH]; intros s Hlen Hmax; simpl.
  - case_bool_decide.
    + destruct (LRUCache._cache s) as [|[k v] c]; simpl in *; lia.
    + exists s. repeat split; try done. lia.
  - case_bool_decide.
    + destruct (LRUCache._cache s) as [|[k v] c] eqn:Ec; simpl in *; [lia|].
      assert (k ∈ (LRUCache._cache s).*1) as Hin by (rewrite Ec; left).
      apply od_pop_length_lt in Hin. rewrite Ec in Hin. simpl in Hin.
      destruct (IH (LRUCache._remove k s)) as (s' & -> & ? & ? & ? & ? & ? & ?).
      { simpl. rewrite Ec. simpl. lia. }
      { done. }
      exists s'. simpl in *. rewrite Ec in *. simpl in *. repeat split; try done. lia.
    + exists s. repeat split; try done. lia.
Qed.

(** With no capacity the loop empties the cache and raises. *)
Lemma evict_raises fuel s :
  (length (LRUCache._cache s) ≤ fuel)%nat → LRUCache._max_size s ≤ 0 →
  ∃ s', LRUCache.evict fuel s = Raise StopIteration s' ∧ LRUCache._cache s' = [].
Proof.
  revert s. induction fuel as [|fuel IH]; intros s Hlen Hmax; simpl.
  - rewrite bool_decide_eq_true_2 by lia.
    destruct (LRUCache._cache s) as [|[k v] c] eqn:Ec; simpl in *; [eauto | lia].
  - rewrite bool_decide_eq_true_2 by lia.
    destruct (LRUCache._cache s) as [|[k v] c] eqn:Ec; simpl in *; [eauto|].
    apply IH; [|done].
    assert (k ∈ (LRUCache._cache s).*1) as Hin by (rewrite Ec; left).
    apply od_pop_length_lt in Hin. rewrite Ec in Hin. simpl in *. rewrite Ec. simpl. lia.
Qed.


(** The loop only removes entries: what [_remove] preserves, it preserves. *)
Lemma evict_preserves (P : LRUCache.t V → Prop) fuel s :
  (∀ k s', P s' → P (LRUCache._remove k s')) →
  P s → P (state_after s (LRUCache.evict fuel s)).
Proof.
  intros Hrem. revert s. induction fuel as [|fuel IH]; intros s Hs; simpl.
  - case_bool_decide; [|done]. by destruct (od_first _).
  - case_bool_decide; [|done]. destruct (od_first _) as [k|]; [|done].
    specialize (IH (LRUCache._remove k s) (Hrem _ _ Hs)).
    by destruct (LRUCache.evict fuel (LRUCache._remove k s)).
Qed.

Lemma evict_room fuel s :
  Z.of_nat (length (LRUCache._cache s)) < LRUCache._max_size s →
  LRUCache.evict fuel s = Return () s.
Proof.
  intros Hlt. destruct fuel; simpl; by rewrite bool_decide_eq_false_2 by lia.
Qed.

(** A full cache loses its first entry, and no other. *)
Lemma evict_full fuel s k0 v0 c :
  LRUCache._cache s = (k0, v0) :: c → k0 ∉ c.*1 →
  Z.of_nat (length (LRUCache._cache s)) = LRUCache._max_size s →
  LRUCache.evict (S fuel) s = Return () (LRUCache._remove k0 s) ∧
  LRUCache._cache (LRUCache._remove k0 s) = c.
Proof.
  intros Ec Hk0 Hfull.
  assert (LRUCache._cache (LRUCache._remove k0 s) = c) as Hc.
  { simpl. rewrite Ec. by apply od_pop_head. }
  split; [|done]. simpl. rewrite bool_decide_eq_true_2 by lia.
  rewrite Ec. simpl. apply evict_room. rewrite Hc. simpl.
  rewrite Ec in Hfull. simpl length in Hfull. lia.
Qed.

Lemma wf_init max_size default_ttl :
  LRUCache.wf (LRUCache.init (V:=V) max_size default_ttl).
Proof.
  split; [constructor|]. simpl.
  split; intros k; rewrite lookup_empty; split;
    first [by intros ?%elem_of_nil | by intros [? [=]]].
Qed.

Lemma wf_remove k s : LRUCache.wf s → LRUCache.wf (LRUCache._remove k s).
Proof.
  intros (Hnd & Hts & Httl). split; [by apply od_pop_NoDup|]. simpl.
  split; intros k'; rewrite od_pop_elem.
  - destruct (decide (k = k')) as [->|Hne].
    + rewrite lookup_delete_eq. split; [by intros [? _] | by intros [? [=]]].
    + rewrite lookup_delete_ne by done. rewrite <- Hts. naive_solver.
  - destruct (decide (k = k')) as [->|Hne].
    + rewrite lookup_delete_eq. split; [by intros [? _] | by intros [? [=]]].
    + rewrite lookup_delete_ne by done. rewrite <- Httl. naive_solver.
Qed.

Lemma wf_count_miss s : LRUCache.wf s → LRUCache.wf (LRUCache.count_miss s).
Proof. done. Qed.

Lemma wf_count_hit s : LRUCache.wf s → LRUCache.wf (LRUCache.count_hit s).
Proof. done. Qed.

Lemma od_move_to_end_keys key (c : list (string * option V)) :
  NoDup c.*1 → NoDup (od_move_to_end key c).*1 ∧
  ∀ k, k ∈ (od_move_to_end key c).*1 ↔ k ∈ c.*1.
Proof.
  intros Hnd. unfold od_move_to_end. destruct (od_get key c) as [v|] eqn:E; [|done].
  assert (key ∈ c.*1) as Hin by (apply od_get_is_Some; eauto).
  rewrite fmap_app. simpl. split.
  - apply NoDup_app. split; [by apply od_pop_NoDup|]. split; [|apply NoDup_singleton].
    intros k Hk ->%list_elem_of_singleton. by apply od_pop_not_elem in Hk.
  - intros k. rewrite elem_of_app, od_pop_elem, list_elem_of_singleton.
    destruct (decide (k = key)) as [->|]; naive_solver.
Qed.

Lemma wf_get key now s : LRUCache.wf s → LRUCache.wf (LRUCache.get key now s).2.
Proof.
  intros Hwf. unfold LRUCache.get. destruct (od_get key _) as [v|]; [|done].
  destruct (LRUCache._is_expired key now s); simpl.
  - by apply wf_count_miss, wf_remove.
  - destruct Hwf as (Hnd & Hts & Httl).
    destruct (od_move_to_end_keys key _ Hnd) as [Hnd' Hk].
    split; [done|]. simpl. split; intros k; rewrite Hk; auto.
Qed.

Lemma wf_store key value ttl now s :
  key ∉ (LRUCache._cache s).*1 → LRUCache.wf s →
  LRUCache.wf (LRUCache.store key value ttl now s).
Proof.
  intros Hk (Hnd & Hts & Httl). unfold LRUCache.store, LRUCache.wf. simpl.
  rewrite od_setitem_absent by done. rewrite fmap_app. simpl. split.
  - apply NoDup_app. split; [done|]. split; [|apply NoDup_singleton].
    by intros k ? ->%list_elem_of_singleton.
  - split; intros k; rewrite elem_of_app, list_elem_of_singleton;
      (destruct (decide (key = k)) as [->|Hne];
       [rewrite lookup_insert_eq; naive_solver
       |rewrite lookup_insert_ne by done]).
    + rewrite <- Hts. naive_solver.
    + rewrite <- Httl. naive_solver.
Qed.

Lemma wf_set key value ttl now s :
  LRUCache.wf s → LRUCache.wf (state_after s (LRUCache.set key value ttl now s)).
Proof.
  intros Hwf. unfold LRUCache.set.
  set (s1 := if od_contains key _ then _ else _).
  assert (LRUCache.wf s1 ∧ key ∉ (LRUCache._cache s1).*1) as Hs1.
  { subst s1. destruct (od_contains key _) eqn:E.
    - split; [by apply wf_remove | apply od_pop_not_elem].
    - split; [done | by apply od_contains_false]. }
  pose proof (evict_preserves
    (λ s', LRUCache.wf s' ∧ key ∉ (LRUCache._cache s').*1)
    (length (LRUCache._cache s1)) s1) as Hev.
  destruct (LRUCache.evict _ s1) as [[] s2|e s2|]; simpl in *.
  - destruct Hev as [Hwf2 Hk2]; [|done|by apply wf_store].
    intros k s' [? Hk]. split; [by apply wf_remove|].
    simpl. rewrite od_pop_elem. naive_solver.
  - apply Hev; [|done]. intros k s' [? Hk]. split; [by apply wf_remove|].
    simpl. rewrite od_pop_elem. naive_solver.
  - done.
Qed.

Lemma wf_clear s : LRUCache.wf (LRUCache.clear s).
Proof. apply (wf_init 0 0). Qed.

Lemma wf_cleanup_expired clock s :
  LRUCache.wf s → LRUCache.wf (LRUCache.cleanup_expired clock s).
Proof.
  unfold LRUCache.cleanup_expired. generalize (LRUCache.expired_keys (LRUCache._cache s).*1 clock 0 s).
  intros ks. revert s. induction ks as [|k ks IH]; intros s Hwf; simpl; [done|].
  by apply IH, wf_remove.
Qed.

Lemma wf_exec (o : LRUCache.op V) s : LRUCache.wf s → LRUCache.wf (LRUCache.exec o s).
Proof.
  destruct o; simpl; auto using wf_get, wf_set, wf_clear, wf_cleanup_expired.
Qed.

(** Every cache that a run builds from a new one satisfies the invariant of
    its dictionaries. *)
Lemma wf_run (ops : list (LRUCache.op V)) s : LRUCache.wf s → LRUCache.wf (LRUCache.run ops s).
Proof.
  revert s. induction ops as [|o ops IH]; intros s Hwf; simpl; [done|].
  by apply IH, wf_exec.
Qed.


(** ** LRUCache: [set] and [get] *)

Lemma evict_fields fuel s :
  let s' := state_after s (LRUCache.evict fuel s) in
  LRUCache._max_size s' = LRUCache._max_size s ∧
  LRUCache._default_ttl s' = LRUCache._default_ttl s ∧
  LRUCache._hits s' = LRUCache._hits s ∧
  LRUCache._misses s' = LRUCache._misses s ∧
  (length (LRUCache._cache s') ≤ length (LRUCache._cache s))%nat ∧
  (∀ k, k ∈ (LRUCache._cache s').*1 → k ∈ (LRUCache._cache s).*1).
Proof.
  apply (evict_preserves (λ s',
    LRUCache._max_size s' = LRUCache._max_size s ∧
    LRUCache._default_ttl s' = LRUCache._default_ttl s ∧
    LRUCache._hits s' = LRUCache._hits s ∧
    LRUCache._misses s' = LRUCache._misses s ∧
    (length (LRUCache._cache s') ≤ length (LRUCache._cache s))%nat ∧
    (∀ k, k ∈ (LRUCache._cache s').*1 → k ∈ (LRUCache._cache s).*1))); [|done].
  intros k s' (? & ? & ? & ? & Hlen & Hin). simpl. repeat split; try done.
  - pose proof (od_pop_length_le k (LRUCache._cache s')). lia.
  - intros k'. rewrite od_pop_elem. intros [_ ?]. auto.
Qed.

(** The state in which [set] runs its loop. *)
#[local] Abbreviation set_prepared key s :=
  (if od_contains key (LRUCache._cache s) then LRUCache._remove key s else s).

Lemma set_prepared_spec key s :
  (key ∉ (LRUCache._cache (set_prepared key s)).*1) ∧
  LRUCache._cache (set_prepared key s) = od_pop key (LRUCache._cache s) ∧
  LRUCache._max_size (set_prepared key s) = LRUCache._max_size s ∧
  LRUCache._default_ttl (set_prepared key s) = LRUCache._default_ttl s ∧
  LRUCache._hits (set_prepared key s) = LRUCache._hits s ∧
  LRUCache._misses (set_prepared key s) = LRUCache._misses s.
Proof.
  destruct (od_contains key _) eqn:E; simpl.
  - split; [apply od_pop_not_elem | done].
  - apply od_contains_false in E. split; [done|]. by rewrite od_pop_absent.
Qed.

(** With a capacity of one or more, [set] returns: it stores the entry in a
    cache that has room for it and does not hold the key. *)
Lemma set_returns key value ttl now s :
  1 ≤ LRUCache._max_size s →
  ∃ s2, LRUCache.set key value ttl now s = Return () (LRUCache.store key value ttl now s2) ∧
        (key ∉ (LRUCache._cache s2).*1) ∧
        Z.of_nat (length (LRUCache._cache s2)) < LRUCache._max_size s ∧
        LRUCache._max_size s2 = LRUCache._max_size s ∧
        LRUCache._default_ttl s2 = LRUCache._default_ttl s ∧
        LRUCache._hits s2 = LRUCache._hits s ∧
        LRUCache._misses s2 = LRUCache._misses s.
Proof.
  intros Hmax. unfold LRUCache.set.
  destruct (set_prepared_spec key s) as (Hk & _ & Hm & Hd & Hh & Hmi).
  destruct (evict_returns (length (LRUCache._cache (set_prepared key s)))
              (set_prepared key s)) as (s2 & Hev & Hlen & _); [done | lia |].
  pose proof (evict_fields (length (LRUCache._cache (set_prepared key s)))
                (set_prepared key s)) as Hf.
  rewrite Hev in *. simpl in Hf. destruct Hf as (? & ? & ? & ? & _ & Hin).
  exists s2. split; [done|]. split; [by intros ?; apply Hk, Hin|].
  split; [lia|]. repeat split; congruence.
Qed.

(** Without capacity, [set] raises [StopIteration], whatever the cache holds. *)
Lemma set_raises key value ttl now s :
  LRUCache._max_size s ≤ 0 →
  ∃ s', LRUCache.set key value ttl now s = Raise StopIteration s' ∧
        LRUCache._cache s' = [] ∧ LRUCache._max_size s' = LRUCache._max_size s.
Proof.
  intros Hmax. unfold LRUCache.set.
  destruct (set_prepared_spec key s) as (_ & _ & Hm & _).
  destruct (evict_raises (length (LRUCache._cache (set_prepared key s)))
              (set_prepared key s)) as (s' & Hev & Hc); [done | lia |].
  pose proof (evict_fields (length (LRUCache._cache (set_prepared key s)))
                (set_prepared key s)) as Hf.
  rewrite Hev in *. simpl in Hf. destruct Hf as (? & _).
  exists s'. repeat split; [done | congruence].
Qed.

(** [set] never exhausts the bound of its loop. *)
Lemma set_total key value ttl now s : LRUCache.set key value ttl now s ≠ OutOfFuel.
Proof.
  destruct (Z_le_gt_dec 1 (LRUCache._max_size s)) as [H|H].
  - destruct (set_returns key value ttl now s H) as (? & -> & _). done.
  - destruct (set_raises key value ttl now s) as (? & -> & _); [lia | done].
Qed.

Lemma get_store_fresh key value ttl now now' s2 :
  float_gt_int (PrimFloat.sub now' now) (default (LRUCache._default_ttl s2) ttl) = false →
  (LRUCache.get key now' (LRUCache.store key value ttl now s2)).1 = value.
Proof.
  intros Hfresh. unfold LRUCache.get. simpl. rewrite od_get_setitem_eq.
  unfold LRUCache._is_expired, LRUCache.expired. simpl. rewrite !lookup_insert_eq. simpl.
  by rewrite Hfresh.
Qed.

(** C10. [set] is total exactly when the capacity is one or more: then it
    returns, whatever the cache holds, with the entry stored last under its
    key, timestamp and ttl, so that a [get] within the ttl returns the value;
    with a capacity of zero or less it raises [StopIteration], and on a new
    cache of capacity zero the first [set] raises and leaves the cache as it
    was. *)
Theorem set_total_iff_capacity s key value ttl now :
  (1 ≤ LRUCache._max_size s →
   ∃ s', LRUCache.set key value ttl now s = Return () s' ∧
         od_get key (LRUCache._cache s') = Some value ∧
         last (LRUCache._cache s') = Some (key, value) ∧
         LRUCache._timestamps s' !! key = Some now ∧
         LRUCache._ttls s' !! key = Some (default (LRUCache._default_ttl s) ttl) ∧
         ∀ now', float_gt_int (PrimFloat.sub now' now)
                                (default (LRUCache._default_ttl s) ttl) = false →
                 (LRUCache.get key now' s').1 = value) ∧
  (LRUCache._max_size s ≤ 0 →
   raised (LRUCache.set key value ttl now s) = Some StopIteration) ∧
  (∀ default_ttl,
     LRUCache.set key value ttl now (LRUCache.init 0 default_ttl)
     = Raise StopIteration (LRUCache.init 0 default_ttl)).
Proof.
  split; [|split].
  - intros Hmax.
    destruct (set_returns key value ttl now s Hmax) as (s2 & -> & Hk & _ & _ & Hd & _).
    eexists. split; [done|]. simpl. rewrite od_setitem_absent by done.
    rewrite od_get_app, (proj2 (od_get_None key _) Hk). simpl.
    rewrite decide_True by done. rewrite last_snoc, !lookup_insert_eq, Hd.
    repeat split; try done. intros now' Hfresh. rewrite <- Hd in Hfresh.
    by apply get_store_fresh.
  - intros Hmax. by destruct (set_raises key value ttl now s Hmax) as (? & -> & _).
  - intros default_ttl. done.
Qed.

(** The capacity bounds the number of entries after any operation. *)
Lemma exec_capacity (o : LRUCache.op V) s :
  0 ≤ LRUCache._max_size s →
  Z.of_nat (length (LRUCache._cache s)) ≤ LRUCache._max_size s →
  LRUCache._max_size (LRUCache.exec o s) = LRUCache._max_size s ∧
  Z.of_nat (length (LRUCache._cache (LRUCache.exec o s))) ≤ LRUCache._max_size s.
Proof.
  intros Hmax Hlen. destruct o as [key now|key value ttl now| |clock]; simpl.
  - unfold LRUCache.get. destruct (od_get key _) as [v|]; [|done].
    destruct (LRUCache._is_expired key now s); simpl; split; try done.
    + pose proof (od_pop_length_le key (LRUCache._cache s)). lia.
    + pose proof (od_move_to_end_length key (LRUCache._cache s)). lia.
  - destruct (Z_le_gt_dec 1 (LRUCache._max_size s)) as [H|H].
    + destruct (set_returns key value ttl now s H) as (s2 & -> & _ & ? & ? & _).
      simpl. split; [done|].
      pose proof (od_setitem_keys_length key value (LRUCache._cache s2)). lia.
    + destruct (set_raises key value ttl now s) as (s' & -> & Hc & ?); [lia|].
      simpl. rewrite Hc. simpl. split; [done | lia].
  - split; [done | simpl; lia].
  - unfold LRUCache.cleanup_expired.
    generalize (LRUCache.expired_keys (LRUCache._cache s).*1 clock 0 s). intros ks.
    revert s Hmax Hlen. induction ks as [|k ks IH]; intros s Hmax Hlen; simpl; [done|].
    destruct (IH (LRUCache._remove k s)) as [-> ?]; simpl; try done.
    pose proof (od_pop_length_le k (LRUCache._cache s)). lia.
Qed.

(** C2, for a capacity that is not negative. After every operation of a run
    of [get], [set], [clear] and [cleanup_expired] on a new cache, that is
    after every prefix of the run, the cache holds at most [max_size]
    entries. *)
Theorem capacity_invariant (max_size default_ttl : Z) (ops : list (LRUCache.op V)) (n : nat) :
  0 ≤ max_size →
  LRUCache.size (LRUCache.get_stats
    (LRUCache.run (take n ops) (LRUCache.init max_size default_ttl))) ≤ max_size.
Proof.
  intros Hmax. simpl.
  cut (LRUCache._max_size (LRUCache.run (take n ops) (LRUCache.init max_size default_ttl)) = max_size ∧
       Z.of_nat (length (LRUCache._cache
         (LRUCache.run (take n ops) (LRUCache.init max_size default_ttl)))) ≤ max_size);
    [by intros [_ ?]|].
  generalize (take n ops). intros l.
  assert (LRUCache._max_size (LRUCache.init (V:=V) max_size default_ttl) = max_size ∧
          Z.of_nat (length (LRUCache._cache (LRUCache.init (V:=V) max_size default_ttl))) ≤ max_size)
    as Hinit by (simpl; split; [done | lia]).
  revert Hinit. generalize (LRUCache.init (V:=V) max_size default_ttl).
  induction l as [|o l IH]; intros s [Hm Hl]; simpl; [done|].
  apply IH. destruct (exec_capacity o s) as [-> ?]; subst; done.
Qed.


(** C3. In a cache whose dictionaries agree, as they do in every cache that
    a run builds, a [get] that finds an entry older than its ttl returns [None],
    removes the entry, so that [get_stats] reports one entry fewer and the
    next [get] of the key misses as well, and counts one miss; a [get] that
    finds an entry within its ttl returns the stored value, counts one hit
    and makes the entry the most recently used one. The age of the entry is
    the binary64 difference [now - ts] of the two readings of the clock,
    and it is compared with the ttl exactly. *)
Theorem get_expiry s key now v ts ttl :
  LRUCache.wf s →
  od_get key (LRUCache._cache s) = Some v →
  LRUCache._timestamps s !! key = Some ts →
  LRUCache._ttls s !! key = Some ttl →
  let r := LRUCache.get key now s in
  (float_gt_int (PrimFloat.sub now ts) ttl = true →
   r.1 = None ∧
   od_get key (LRUCache._cache r.2) = None ∧
   LRUCache.size (LRUCache.get_stats r.2) = LRUCache.size (LRUCache.get_stats s) - 1 ∧
   LRUCache.misses (LRUCache.get_stats r.2) = LRUCache.misses (LRUCache.get_stats s) + 1 ∧
   LRUCache.hits (LRUCache.get_stats r.2) = LRUCache.hits (LRUCache.get_stats s) ∧
   ∀ now', (LRUCache.get key now' r.2).1 = None ∧
           LRUCache._misses (LRUCache.get key now' r.2).2 = LRUCache._misses s + 2) ∧
  (float_gt_int (PrimFloat.sub now ts) ttl = false →
   r.1 = v ∧
   LRUCache.hits (LRUCache.get_stats r.2) = LRUCache.hits (LRUCache.get_stats s) + 1 ∧
   LRUCache.misses (LRUCache.get_stats r.2) = LRUCache.misses (LRUCache.get_stats s) ∧
   LRUCache.size (LRUCache.get_stats r.2) = LRUCache.size (LRUCache.get_stats s) ∧
   last (LRUCache._cache r.2) = Some (key, v)).
Proof.
  intros (Hnd & _ & _) Hget Hts Httl r.
  assert (key ∈ (LRUCache._cache s).*1) as Hin by (apply od_get_is_Some; eauto).
  subst r. unfold LRUCache.get, LRUCache._is_expired, LRUCache.expired.
  rewrite Hget, Hts, Httl. simpl.
  split; intros Hage; rewrite Hage.
  - simpl.
    rewrite od_get_pop_eq. simpl.
    pose proof (od_pop_length_NoDup key _ Hnd Hin).
    repeat split; try done; lia.
  - simpl. unfold od_move_to_end.
    rewrite Hget, last_snoc, length_app. simpl.
    pose proof (od_pop_length_NoDup key _ Hnd Hin).
    repeat split; try done; lia.
Qed.

(** *** Recency *)

Lemma StronglySorted_filter_keep {A} (R : relation A) (P : A → Prop)
    `{!∀ x, Decision (P x)} (l : list A) :
  StronglySorted R l → StronglySorted R (filter P l).
Proof.
  induction 1 as [|x l Hs IH Hall]; [constructor|].
  rewrite filter_cons. case_decide; [|done].
  constructor; [done|]. apply Forall_forall. intros y [_ Hy]%list_elem_of_filter.
  by eapply Forall_forall in Hall.
Qed.

Lemma StronglySorted_agree {A} (f g : A → nat) (l : list A) :
  (∀ x, x ∈ l → f x = g x) →
  StronglySorted (λ a b, f a < f b)%nat l → StronglySorted (λ a b, g a < g b)%nat l.
Proof.
  intros Hfg Hs. induction Hs as [|x l Hs IH Hall]; [constructor|].
  constructor.
  - apply IH. intros y Hy. apply Hfg. by right.
  - apply Forall_forall. intros y Hy. eapply Forall_forall in Hall; [|done].
    rewrite <- !Hfg; [done | by right | by left].
Qed.

Lemma last_access_snoc (ops : list (LRUCache.op V)) (o : LRUCache.op V) key :
  LRUCache.last_access (ops ++ [o]) key =
  if LRUCache.touches o key then S (length ops) else LRUCache.last_access ops key.
Proof.
  induction ops as [|o' ops IH]; simpl.
  - by destruct (LRUCache.touches o key).
  - rewrite IH. destruct (LRUCache.touches o key); [done|].
    by destruct (LRUCache.last_access ops key).
Qed.

Lemma last_access_le (ops : list (LRUCache.op V)) key :
  (LRUCache.last_access ops key ≤ length ops)%nat.
Proof.
  induction ops as [|o ops IH]; simpl; [done|].
  destruct (LRUCache.last_access ops key); [destruct (LRUCache.touches o key)|]; lia.
Qed.


Lemma recency_remove ops k s :
  LRUCache.recency_ordered ops s → LRUCache.recency_ordered ops (LRUCache._remove k s).
Proof.
  unfold LRUCache.recency_ordered. simpl. rewrite od_pop_keys.
  apply StronglySorted_filter_keep.
Qed.

(** Appending the accessed key to the other keys keeps the order. *)
Lemma recency_snoc (ops : list (LRUCache.op V)) (o : LRUCache.op V) key (l : list string) :
  LRUCache.touches o key = true → key ∉ l →
  StronglySorted (λ k k', LRUCache.last_access ops k < LRUCache.last_access ops k')%nat l →
  StronglySorted (λ k k', LRUCache.last_access (ops ++ [o]) k
                          < LRUCache.last_access (ops ++ [o]) k')%nat (l ++ [key]).
Proof.
  intros Ht Hk Hs.
  assert (∀ x, x ∈ l → LRUCache.touches o x = false) as Hother.
  { intros x Hx. destruct o; simpl in *; try done;
      apply bool_decide_eq_true in Ht; subst; apply bool_decide_eq_false; by intros ->. }
  apply StronglySorted_app_2.
  - intros x1 x2 Hx1 ->%list_elem_of_singleton.
    rewrite !last_access_snoc, Ht, (Hother _ Hx1).
    pose proof (last_access_le ops x1). lia.
  - eapply StronglySorted_agree; [|done].
    intros x Hx. by rewrite last_access_snoc, (Hother _ Hx).
  - repeat constructor.
Qed.

(** Keys that the operation does not access keep their order. *)
Lemma recency_untouched (ops : list (LRUCache.op V)) (o : LRUCache.op V) (l : list string) :
  (∀ x, x ∈ l → LRUCache.touches o x = false) →
  StronglySorted (λ k k', LRUCache.last_access ops k < LRUCache.last_access ops k')%nat l →
  StronglySorted (λ k k', LRUCache.last_access (ops ++ [o]) k
                          < LRUCache.last_access (ops ++ [o]) k')%nat l.
Proof.
  intros Hother. apply StronglySorted_agree.
  intros x Hx. by rewrite last_access_snoc, (Hother _ Hx).
Qed.

Lemma touches_other (o : LRUCache.op V) key (l : list string) :
  LRUCache.touches o key = true → key ∉ l → ∀ x, x ∈ l → LRUCache.touches o x = false.
Proof.
  intros Ht Hk x Hx. destruct o; simpl in *; try done;
    apply bool_decide_eq_true in Ht; subst; apply bool_decide_eq_false; by intros ->.
Qed.

(** Every operation keeps the keys in the order of their last accesses. *)
Lemma exec_recency (ops : list (LRUCache.op V)) (o : LRUCache.op V) s :
  LRUCache.recency_ordered ops s →
  LRUCache.recency_ordered (ops ++ [o]) (LRUCache.exec o s).
Proof.
  intros Hs. unfold LRUCache.recency_ordered in *.
  destruct o as [key now|key value ttl now| |clock]; simpl.
  - unfold LRUCache.get. destruct (od_get key _) as [v|] eqn:E.
    + destruct (LRUCache._is_expired key now s); simpl.
      * rewrite od_pop_keys. apply recency_untouched.
        -- apply (touches_other _ key); [simpl; by apply bool_decide_eq_true|].
           rewrite list_elem_of_filter. by intros [? _].
        -- by apply StronglySorted_filter_keep.
      * unfold od_move_to_end. rewrite E, fmap_app. simpl.
        apply recency_snoc; [simpl; by apply bool_decide_eq_true|apply od_pop_not_elem|].
        rewrite od_pop_keys. by apply StronglySorted_filter_keep.
    + simpl. apply recency_untouched; [|done].
      apply (touches_other _ key); [simpl; by apply bool_decide_eq_true|].
      by apply od_get_None.
  - unfold LRUCache.set.
    pose proof (evict_preserves
      (λ s', LRUCache.recency_ordered ops s' ∧ key ∉ (LRUCache._cache s').*1)
      (length (LRUCache._cache (set_prepared key s))) (set_prepared key s)) as Hev.
    destruct (set_prepared_spec key s) as (Hk & Hc & _).
    destruct Hev as [Hs2 Hk2].
    { intros k s' [? Hk']. split; [by apply recency_remove|].
      simpl. rewrite od_pop_elem. by intros [_ ?]. }
    { split; [|done]. unfold LRUCache.recency_ordered. rewrite Hc, od_pop_keys.
      by apply StronglySorted_filter_keep. }
    destruct (LRUCache.evict _ _) as [[] s2|e s2|] eqn:Eev; simpl in *.
    + rewrite od_setitem_absent, fmap_app by done. simpl.
      apply recency_snoc; [simpl; by apply bool_decide_eq_true|done|done].
    + apply recency_untouched; [|done].
      apply (touches_other _ key); [simpl; by apply bool_decide_eq_true|done].
    + exfalso. by eapply evict_total in Eev.
  - constructor.
  - apply recency_untouched; [done|]. unfold LRUCache.cleanup_expired.
    generalize (LRUCache.expired_keys (LRUCache._cache s).*1 clock 0 s). intros ks.
    revert s Hs. induction ks as [|k ks IH]; intros s Hs; simpl; [done|].
    apply IH. by apply recency_remove.
Qed.

Lemma run_snoc (ops : list (LRUCache.op V)) (o : LRUCache.op V) s :
  LRUCache.run (ops ++ [o]) s = LRUCache.exec o (LRUCache.run ops s).
Proof. unfold LRUCache.run. by rewrite foldl_app. Qed.

(** In every cache that a run builds from a new one, the entries stand in
    the order of their last accesses. *)
Lemma run_recency (ops : list (LRUCache.op V)) max_size default_ttl :
  LRUCache.recency_ordered ops (LRUCache.run ops (LRUCache.init max_size default_ttl)).
Proof.
  induction ops as [|o ops IH] using rev_ind; [constructor|].
  rewrite run_snoc. by apply exec_recency.
Qed.


Lemma exec_max_size (o : LRUCache.op V) s :
  LRUCache._max_size (LRUCache.exec o s) = LRUCache._max_size s.
Proof.
  destruct o as [key now|key value ttl now| |clock]; simpl.
  - unfold LRUCache.get. destruct (od_get key _); [|done].
    by destruct (LRUCache._is_expired key now s).
  - unfold LRUCache.set.
    destruct (set_prepared_spec key s) as (_ & _ & Hm & _).
    pose proof (evict_fields (length (LRUCache._cache (set_prepared key s)))
                  (set_prepared key s)) as (Hf & _).
    destruct (LRUCache.evict _ _) as [[] s2|e s2|]; simpl in *; congruence.
  - done.
  - unfold LRUCache.cleanup_expired.
    generalize (LRUCache.expired_keys (LRUCache._cache s).*1 clock 0 s). intros ks.
    revert s. induction ks as [|k ks IH]; intros s; simpl; [done|]. by rewrite IH.
Qed.

Lemma run_max_size (ops : list (LRUCache.op V)) s :
  LRUCache._max_size (LRUCache.run ops s) = LRUCache._max_size s.
Proof.
  revert s. induction ops as [|o ops IH]; intros s; simpl; [done|].
  by rewrite IH, exec_max_size.
Qed.

(** The overflow of a cache that a run has filled: [set] of a new key
    removes the first entry, which is the least recently accessed one, and
    no other. *)
Lemma set_evicts_least_recent (ops : list (LRUCache.op V)) max_size default_ttl
    key value ttl now :
  let s := LRUCache.run ops (LRUCache.init max_size default_ttl) in
  1 ≤ max_size → key ∉ (LRUCache._cache s).*1 →
  Z.of_nat (length (LRUCache._cache s)) = max_size →
  ∃ oldest v0 c s',
    LRUCache._cache s = (oldest, v0) :: c ∧
    LRUCache.set key value ttl now s = Return () s' ∧
    LRUCache._cache s' = c ++ [(key, value)] ∧
    ∀ k, k ∈ c.*1 → (LRUCache.last_access ops oldest < LRUCache.last_access ops k)%nat.
Proof.
  intros s Hmax Hkey Hfull.
  assert (LRUCache.wf s) as (Hnd & _) by apply wf_run, wf_init.
  pose proof (run_recency ops max_size default_ttl) as Hrec. fold s in Hrec.
  pose proof (run_max_size ops (LRUCache.init max_size default_ttl)) as Hm.
  fold s in Hm. simpl in Hm. unfold LRUCache.recency_ordered in Hrec.
  destruct (LRUCache._cache s) as [|[oldest v0] c] eqn:Ec; [simpl in Hfull; lia|].
  rewrite fmap_cons in Hnd, Hrec, Hkey. simpl in Hnd, Hrec, Hkey.
  apply NoDup_cons in Hnd as [Hold _].
  apply StronglySorted_cons in Hrec as [Hall _].
  apply not_elem_of_cons in Hkey as [Hne Hkey].
  destruct (evict_full (length c) s oldest v0 c) as [Hev Hc]; [done|done| |].
  { rewrite Ec, Hm. done. }
  exists oldest, v0, c, (LRUCache.store key value ttl now (LRUCache._remove oldest s)).
  split; [done|]. split.
  - unfold LRUCache.set. rewrite (proj2 (od_contains_false key _)).
    + rewrite Ec. simpl length. by rewrite Hev.
    + by rewrite Ec, fmap_cons, not_elem_of_cons.
  - split.
    + unfold LRUCache.store. simpl in Hc |- *. rewrite Hc.
      by apply od_setitem_absent.
    + intros k Hk. by eapply Forall_forall in Hall.
Qed.


Implicit Types (i : LRUCache.insertion (V:=V)) (l : list (LRUCache.insertion (V:=V))).

(** *** Caches described by their insertions *)

Lemma items_keys l : (LRUCache.item_of_insertion <$> l).*1 = LRUCache.ins_key <$> l.
Proof. by rewrite <- list_fmap_compose. Qed.

Lemma od_get_items l i :
  NoDup (LRUCache.ins_key <$> l) → i ∈ l →
  od_get (LRUCache.ins_key i) (LRUCache.item_of_insertion <$> l) = Some (LRUCache.ins_value i).
Proof.
  induction l as [|j l IH]; [by intros _ ?%elem_of_nil|].
  rewrite fmap_cons, NoDup_cons. intros [Hj Hnd] [->|Hi]%elem_of_cons; simpl.
  - by rewrite decide_True.
  - rewrite decide_False; [by apply IH|].
    intros Heq. apply Hj. rewrite Heq. by apply list_elem_of_fmap_2.
Qed.

Lemma od_get_items_absent l k :
  k ∉ LRUCache.ins_key <$> l → od_get k (LRUCache.item_of_insertion <$> l) = None.
Proof. intros Hk. apply od_get_None. by rewrite items_keys. Qed.

Lemma od_pop_items l k :
  od_pop k (LRUCache.item_of_insertion <$> l)
  = LRUCache.item_of_insertion <$> filter (λ j, LRUCache.ins_key j ≠ k) l.
Proof.
  unfold od_pop. induction l as [|j l IH]; [done|].
  rewrite fmap_cons, !filter_cons. simpl.
  destruct (decide (LRUCache.ins_key j ≠ k)); [rewrite fmap_cons; f_equal|]; exact IH.
Qed.

Lemma filter_key_absent l k :
  k ∉ LRUCache.ins_key <$> l → filter (λ j, LRUCache.ins_key j ≠ k) l = l.
Proof.
  induction l as [|j l IH]; [done|].
  rewrite fmap_cons, not_elem_of_cons, filter_cons. intros [Hne Hk].
  rewrite decide_True by done. by rewrite IH.
Qed.

Lemma filter_keys l k :
  LRUCache.ins_key <$> filter (λ j, LRUCache.ins_key j ≠ k) l
  = filter (λ k', k' ≠ k) (LRUCache.ins_key <$> l).
Proof.
  induction l as [|j l IH]; [done|].
  rewrite fmap_cons, !filter_cons.
  destruct (decide (LRUCache.ins_key j ≠ k)); [rewrite fmap_cons; f_equal|]; exact IH.
Qed.

Lemma holds_init m d : LRUCache.holds m d (LRUCache.init (V:=V) m d) [].
Proof.
  unfold LRUCache.holds. simpl.
  split; [done|]. split; [done|]. split; [apply NoDup_nil_2|]. split; [done|].
  by intros i ?%elem_of_nil.
Qed.

(** The state that [set] leaves when its loop returns [s2]. *)
Lemma holds_store m d s2 l i :
  LRUCache.holds m d s2 l → LRUCache.ins_key i ∉ LRUCache.ins_key <$> l →
  LRUCache.holds m d
    (LRUCache.store (LRUCache.ins_key i) (LRUCache.ins_value i) (LRUCache.ins_ttl i)
       (LRUCache.ins_now i) s2) (l ++ [i]).
Proof.
  intros (Hm & Hd & Hnd & Hc & Hl) Hi. unfold LRUCache.holds, LRUCache.store. simpl.
  split; [done|]. split; [done|]. split; [|split].
  - rewrite fmap_app. apply NoDup_app. split; [done|]. split; [|apply NoDup_singleton].
    intros k Hk ->%list_elem_of_singleton. done.
  - rewrite Hc, od_setitem_absent by (by rewrite items_keys). by rewrite fmap_app.
  - intros j [Hj| ->%list_elem_of_singleton]%elem_of_app.
    + assert (LRUCache.ins_key i ≠ LRUCache.ins_key j) as Hne.
      { intros Heq. apply Hi. rewrite Heq. by apply list_elem_of_fmap_2. }
      rewrite !lookup_insert_ne by done. by apply Hl.
    + by rewrite !lookup_insert_eq, Hd.
Qed.

Lemma holds_remove_head m d s i0 l :
  LRUCache.holds m d s (i0 :: l) →
  LRUCache.holds m d (LRUCache._remove (LRUCache.ins_key i0) s) l.
Proof.
  intros (Hm & Hd & Hnd & Hc & Hl). rewrite fmap_cons in Hnd.
  apply NoDup_cons in Hnd as [Hi0 Hnd]. unfold LRUCache.holds. simpl.
  split; [done|]. split; [done|]. split; [done|]. split.
  - rewrite Hc, fmap_cons. apply od_pop_head. by rewrite items_keys.
  - intros j Hj.
    assert (LRUCache.ins_key i0 ≠ LRUCache.ins_key j) as Hne.
    { intros Heq. apply Hi0. rewrite Heq. by apply list_elem_of_fmap_2. }
    rewrite !lookup_delete_ne by done. apply Hl. by right.
Qed.

(** [set] of a new key into a cache with room. *)
Lemma holds_set_room m d s l i :
  LRUCache.holds m d s l → LRUCache.ins_key i ∉ LRUCache.ins_key <$> l →
  Z.of_nat (length l) < m →
  LRUCache.holds m d (LRUCache.exec (LRUCache.op_of_insertion i) s) (l ++ [i]).
Proof.
  intros Hs Hi Hroom. pose proof Hs as (Hm & Hd & Hnd & Hc & Hl).
  simpl. unfold LRUCache.set.
  rewrite (proj2 (od_contains_false (LRUCache.ins_key i) _))
    by (by rewrite Hc, items_keys).
  rewrite evict_room by (by rewrite Hc, length_fmap, Hm). simpl.
  by apply holds_store.
Qed.

(** [set] of a new key into a full cache. *)
Lemma holds_set_full m d s i0 l i :
  LRUCache.holds m d s (i0 :: l) → LRUCache.ins_key i ∉ LRUCache.ins_key <$> (i0 :: l) →
  Z.of_nat (length (i0 :: l)) = m →
  LRUCache.holds m d (LRUCache.exec (LRUCache.op_of_insertion i) s) (l ++ [i]).
Proof.
  intros Hs Hi Hfull. pose proof Hs as (Hm & Hd & Hnd & Hc & Hl).
  simpl. unfold LRUCache.set.
  rewrite (proj2 (od_contains_false (LRUCache.ins_key i) _))
    by (by rewrite Hc, items_keys).
  rewrite fmap_cons in Hnd. apply NoDup_cons in Hnd as [Hi0 _].
  destruct (evict_full (length l) s (LRUCache.ins_key i0) (LRUCache.ins_value i0)
              (LRUCache.item_of_insertion <$> l)) as [Hev _].
  { by rewrite Hc. }
  { by rewrite items_keys. }
  { rewrite Hc, length_fmap, Hm. done. }
  rewrite Hc, fmap_cons. simpl length. rewrite length_fmap, Hev. simpl.
  apply holds_store; [by apply holds_remove_head|].
  rewrite fmap_cons, not_elem_of_cons in Hi. by destruct Hi.
Qed.

(** A [get] of an entry that has not expired returns its value and moves
    it to the end. *)
Lemma holds_get_hit m d s l i now :
  LRUCache.holds m d s l → i ∈ l → LRUCache.fresh_at d now i →
  (LRUCache.get (LRUCache.ins_key i) now s).1 = LRUCache.ins_value i ∧
  LRUCache.holds m d (LRUCache.get (LRUCache.ins_key i) now s).2
    (filter (λ j, LRUCache.ins_key j ≠ LRUCache.ins_key i) l ++ [i]).
Proof.
  intros (Hm & Hd & Hnd & Hc & Hl) Hi Hfresh.
  unfold LRUCache.get, LRUCache._is_expired.
  destruct (Hl i Hi) as [Hts Httl].
  rewrite Hc, od_get_items, Hts, Httl by done. simpl.
  unfold LRUCache.fresh_at in Hfresh. rewrite Hfresh. simpl. split; [done|].
  unfold LRUCache.holds. simpl. split; [done|]. split; [done|]. split; [|split].
  - rewrite fmap_app. apply NoDup_app. split; [|split; [|apply NoDup_singleton]].
    + rewrite filter_keys. by apply NoDup_filter.
    + intros k [j [Hk [Hj _]%list_elem_of_filter]]%list_elem_of_fmap Hki%list_elem_of_singleton.
      congruence.
  - unfold od_move_to_end. rewrite od_get_items by done. by rewrite od_pop_items, fmap_app.
  - intros j [[_ Hj]%list_elem_of_filter| ->%list_elem_of_singleton]%elem_of_app; by apply Hl.
Qed.


Lemma holds_run_insertions m d ins : ∀ l s,
  LRUCache.holds m d s l → NoDup (LRUCache.ins_key <$> (l ++ ins)) →
  Z.of_nat (length (l ++ ins)) ≤ m →
  LRUCache.holds m d (LRUCache.run (LRUCache.op_of_insertion <$> ins) s) (l ++ ins).
Proof.
  induction ins as [|i ins IH]; intros l s Hs Hnd Hlen.
  - by rewrite app_nil_r.
  - rewrite fmap_cons. simpl. rewrite cons_middle, app_assoc in Hnd, Hlen |- *.
    apply IH; [|done|done].
    rewrite fmap_app in Hnd. apply NoDup_app in Hnd as [Hnd _].
    rewrite fmap_app in Hnd. apply NoDup_app in Hnd as (_ & Hi & _).
    rewrite !length_app in Hlen. simpl in Hlen.
    apply holds_set_room; [done| |lia].
    intros Hin. apply (Hi _ Hin). simpl. left.
Qed.

Lemma holds_get_absent m d s l k now :
  LRUCache.holds m d s l → k ∉ LRUCache.ins_key <$> l →
  (LRUCache.get k now s).1 = None ∧ LRUCache.holds m d (LRUCache.get k now s).2 l.
Proof.
  intros Hs Hk. pose proof Hs as (_ & _ & _ & Hc & _).
  unfold LRUCache.get. by rewrite Hc, od_get_items_absent.
Qed.

Lemma moved_Permutation l i :
  NoDup (LRUCache.ins_key <$> l) → i ∈ l →
  filter (λ j, LRUCache.ins_key j ≠ LRUCache.ins_key i) l ++ [i] ≡ₚ l.
Proof.
  induction l as [|j l IH]; [by intros _ ?%elem_of_nil|].
  rewrite fmap_cons, NoDup_cons, filter_cons. intros [Hj Hnd] [->|Hi]%elem_of_cons.
  - rewrite decide_False by (by intros []). rewrite filter_key_absent by done.
    symmetry. apply Permutation_cons_append.
  - rewrite decide_True.
    + simpl. by rewrite IH.
    + intros Heq. apply Hj. rewrite Heq. by apply list_elem_of_fmap_2.
Qed.

Lemma od_get_items_Permutation l l' k :
  NoDup (LRUCache.ins_key <$> l) → l ≡ₚ l' →
  od_get k (LRUCache.item_of_insertion <$> l) = od_get k (LRUCache.item_of_insertion <$> l').
Proof.
  intros Hnd Hp.
  assert (NoDup (LRUCache.ins_key <$> l')) as Hnd' by (by rewrite <- Hp).
  destruct (decide (k ∈ LRUCache.ins_key <$> l)) as [Hin|Hout].
  - apply list_elem_of_fmap in Hin as (i & -> & Hi).
    rewrite !od_get_items; try done. by rewrite <- Hp.
  - rewrite !od_get_items_absent; try done. by rewrite <- Hp.
Qed.

(** While no entry has expired, [get] returns what the cache holds under the
    key, and the cache holds the same entries afterwards. *)
Lemma holds_get m d s l k now :
  LRUCache.holds m d s l → Forall (LRUCache.fresh_at d now) l →
  (LRUCache.get k now s).1 = default None (od_get k (LRUCache.item_of_insertion <$> l)) ∧
  ∃ l', LRUCache.holds m d (LRUCache.get k now s).2 l' ∧ l' ≡ₚ l.
Proof.
  intros Hs Hfresh. pose proof Hs as (_ & _ & Hnd & _).
  destruct (decide (k ∈ LRUCache.ins_key <$> l)) as [Hin|Hout].
  - apply list_elem_of_fmap in Hin as (i & -> & Hi).
    destruct (holds_get_hit m d s l i now) as [-> Hs']; [done|done| |].
    { by eapply Forall_forall in Hfresh. }
    rewrite od_get_items by done. split; [done|].
    eexists. split; [exact Hs'|]. by apply moved_Permutation.
  - destruct (holds_get_absent m d s l k now) as [-> Hs']; [done|done|].
    rewrite od_get_items_absent by done. split; [done|]. by exists l.
Qed.

(** So the order in which the entries are queried does not matter. *)
Lemma holds_gets m d keys : ∀ s l now,
  LRUCache.holds m d s l → Forall (LRUCache.fresh_at d now) l →
  LRUCache.gets keys now s
  = (λ k, default None (od_get k (LRUCache.item_of_insertion <$> l))) <$> keys.
Proof.
  induction keys as [|k keys IH]; intros s l now Hs Hfresh; [done|].
  rewrite fmap_cons. cbn [LRUCache.gets].
  destruct (holds_get m d s l k now Hs Hfresh) as (-> & l' & Hs' & Hp). f_equal.
  rewrite (IH _ l' now Hs') by (by rewrite Hp).
  pose proof Hs' as (_ & _ & Hnd' & _).
  apply list_fmap_ext. intros _ k' _. simpl. f_equal.
  by apply od_get_items_Permutation.
Qed.

(** The scenario of C1: the cache is filled, its first entry is read, and
    one more key is inserted. *)
Lemma holds_refresh_overflow i1 i2 rest inew default_ttl t_get :
  let inserted := i1 :: i2 :: rest in
  let max_size := Z.of_nat (length inserted) in
  NoDup (LRUCache.ins_key <$> (inserted ++ [inew])) →
  LRUCache.fresh_at default_ttl t_get i1 →
  LRUCache.holds max_size default_ttl
    (LRUCache.run ((LRUCache.op_of_insertion <$> inserted)
                   ++ [LRUCache.OpGet (LRUCache.ins_key i1) t_get;
                       LRUCache.op_of_insertion inew])
                  (LRUCache.init max_size default_ttl))
    (rest ++ [i1; inew]).
Proof.
  intros inserted max_size Hnd Hfresh.
  pose proof Hnd as Hnd1. rewrite fmap_app in Hnd1.
  apply NoDup_app in Hnd1 as (Hnd1 & Hnew & _).
  unfold LRUCache.run. rewrite foldl_app. fold (LRUCache.run (V:=V)).
  pose proof (holds_run_insertions max_size default_ttl inserted []
    (LRUCache.init max_size default_ttl) (holds_init _ _)) as Hfull.
  simpl app in Hfull. specialize (Hfull Hnd1 (Z.le_refl _)).
  set (s1 := LRUCache.run (LRUCache.op_of_insertion <$> inserted) _) in *.
  simpl foldl.
  destruct (holds_get_hit max_size default_ttl s1 inserted i1 t_get)
    as [_ Hs2]; [done | by left | done |].
  subst inserted. rewrite filter_cons, decide_False in Hs2 by (by intros []).
  rewrite fmap_cons, NoDup_cons in Hnd1. destruct Hnd1 as [Hi1 Hnd2].
  rewrite filter_key_absent in Hs2 by done. simpl app in Hs2.
  replace (rest ++ [i1; inew]) with ((rest ++ [i1]) ++ [inew])
    by (by rewrite <- app_assoc).
  apply (holds_set_full max_size default_ttl _ i2 (rest ++ [i1]) inew Hs2).
  - intros Hin. apply (Hnew (LRUCache.ins_key inew)); [|by left].
    rewrite fmap_cons, fmap_app in Hin. simpl in Hin.
    rewrite fmap_cons, fmap_cons.
    apply elem_of_cons in Hin as [->|[Hin|Hin%list_elem_of_singleton]%elem_of_app].
    + right. by left.
    + right. by right.
    + rewrite Hin. by left.
  - unfold max_size. simpl. rewrite length_app. simpl. lia.
Qed.


(** C1, for a capacity of two or more. A new cache of capacity
    [max_size] is filled with the [max_size] insertions [i1 :: i2 :: rest] of
    distinct keys, the key of [i1] is read by a [get] before it expires, and
    one more key is inserted: then the entry of [i2] is the one that is
    gone. While no entry has expired, [get] returns the value of [i1], [None]
    for the key of [i2], and its value for every other inserted key, in
    whatever order the keys are queried. And whenever [set] of a new key
    finds the cache of a run full, the one entry that it removes is the
    least recently accessed one, an access being a [get] or a [set] of the
    key. *)
Theorem lru_eviction_order :
  (∀ i1 i2 rest inew default_ttl t_get,
     let inserted := i1 :: i2 :: rest in
     let max_size := Z.of_nat (length inserted) in
     let s := LRUCache.run ((LRUCache.op_of_insertion <$> inserted)
                            ++ [LRUCache.OpGet (LRUCache.ins_key i1) t_get;
                                LRUCache.op_of_insertion inew])
                           (LRUCache.init max_size default_ttl) in
     NoDup (LRUCache.ins_key <$> (inserted ++ [inew])) →
     LRUCache.fresh_at default_ttl t_get i1 →
     LRUCache._cache s = LRUCache.item_of_insertion <$> (rest ++ [i1; inew]) ∧
     ∀ now, Forall (LRUCache.fresh_at default_ttl now) (i1 :: rest ++ [inew]) →
       (LRUCache.get (LRUCache.ins_key i1) now s).1 = LRUCache.ins_value i1 ∧
       (LRUCache.get (LRUCache.ins_key i2) now s).1 = None ∧
       (∀ i, i ∈ rest ++ [inew] →
             (LRUCache.get (LRUCache.ins_key i) now s).1 = LRUCache.ins_value i) ∧
       (∀ keys, LRUCache.gets keys now s = (λ k, (LRUCache.get k now s).1) <$> keys)) ∧
  (∀ (ops : list (LRUCache.op V)) max_size default_ttl key value ttl now,
     let s := LRUCache.run ops (LRUCache.init max_size default_ttl) in
     1 ≤ max_size → key ∉ (LRUCache._cache s).*1 →
     Z.of_nat (length (LRUCache._cache s)) = max_size →
     ∃ oldest v0 c s',
       LRUCache._cache s = (oldest, v0) :: c ∧
       LRUCache.set key value ttl now s = Return () s' ∧
       LRUCache._cache s' = c ++ [(key, value)] ∧
       ∀ k, k ∈ c.*1 →
            (LRUCache.last_access ops oldest < LRUCache.last_access ops k)%nat).
Proof.
  split; [|apply set_evicts_least_recent].
  intros i1 i2 rest inew default_ttl t_get inserted max_size s Hnd Hget.
  pose proof (holds_refresh_overflow i1 i2 rest inew default_ttl t_get Hnd Hget) as Hs.
  fold inserted max_size s in Hs. pose proof Hs as (_ & _ & Hnd' & Hc & _).
  split; [done|]. intros now Hfresh.
  assert (Forall (LRUCache.fresh_at default_ttl now) (rest ++ [i1; inew])) as Hfresh'.
  { rewrite Forall_forall in Hfresh |- *. intros i Hi. apply Hfresh.
    rewrite elem_of_cons, elem_of_app, list_elem_of_singleton.
    rewrite elem_of_app, elem_of_cons, list_elem_of_singleton in Hi. tauto. }
  assert (∀ k, (LRUCache.get k now s).1
    = default None (od_get k (LRUCache.item_of_insertion <$> (rest ++ [i1; inew])))) as Hlook.
  { intros k. by destruct (holds_get max_size default_ttl s _ k now Hs Hfresh') as [-> _]. }
  split; [|split; [|split]].
  - rewrite Hlook, od_get_items; [done|done|].
    rewrite elem_of_app, elem_of_cons. tauto.
  - rewrite Hlook, od_get_items_absent; [done|].
    subst inserted. rewrite <- !app_comm_cons, !fmap_cons, NoDup_cons, NoDup_cons in Hnd.
    destruct Hnd as (Hi1 & Hi2 & _).
    rewrite fmap_app, elem_of_app in Hi2.
    rewrite fmap_app, elem_of_app, !fmap_cons, elem_of_cons, list_elem_of_singleton.
    rewrite not_elem_of_cons in Hi1.
    intros [Hin|[Heq|Heq]].
    + apply Hi2. left. exact Hin.
    + destruct Hi1 as [Hi1 _]. by apply Hi1.
    + apply Hi2. right. rewrite fmap_cons, Heq. left.
  - intros i Hi. rewrite Hlook, od_get_items; [done|done|].
    rewrite elem_of_app, elem_of_cons, list_elem_of_singleton.
    rewrite elem_of_app, list_elem_of_singleton in Hi. tauto.
  - intros keys. rewrite (holds_gets max_size default_ttl keys s _ now Hs Hfresh').
    apply list_fmap_ext. intros _ k _. by rewrite Hlook.
Qed.

End LRUCache_facts.

(** ** LRUCache: instances *)


Lemma lru_eviction_order_witness :
  NoDup (LRUCache.ins_key <$> ([LRUExamples.a1; LRUExamples.b2; LRUExamples.c3] ++ [LRUExamples.d4])) ∧
  LRUCache.fresh_at 3600 1%float LRUExamples.a1 ∧
  (LRUCache.get "a" 2%float LRUExamples.refreshed).1 = Some 1 ∧
  (LRUCache.get "b" 2%float LRUExamples.refreshed).1 = None.
Proof.
  assert (NoDup (LRUCache.ins_key <$>
    ([LRUExamples.a1; LRUExamples.b2; LRUExamples.c3] ++ [LRUExamples.d4]))) as Hnd
    by (apply (bool_decide_unpack _); vm_compute; exact I).
  assert (LRUCache.fresh_at 3600 1%float LRUExamples.a1) as Hfresh
    by (vm_compute; reflexivity).
  split; [exact Hnd|]. split; [exact Hfresh|].
  destruct (proj1 (lru_eviction_order (V:=Z)) LRUExamples.a1 LRUExamples.b2
              [LRUExamples.c3] LRUExamples.d4 3600 1%float Hnd Hfresh) as [_ Hq].
  destruct (Hq 2%float) as (Ha & Hb & _).
  - repeat constructor; vm_compute; reflexivity.
  - split; [exact Ha | exact Hb].
Defined.

(** With a capacity of one, the entry that was just read is the one that
    the next insertion removes: C1 as stated fails there. *)
Lemma lru_capacity_one_evicts_first :
  (LRUCache.get "a" 0%float LRUExamples.single).1 = None ∧
  (LRUCache.get "a" 0%float LRUExamples.single).1 ≠ Some 1 ∧
  (LRUCache.get "b" 0%float LRUExamples.single).1 = Some 2.
Proof. vm_compute. repeat split; congruence. Qed.

Lemma capacity_invariant_witness :
  0 ≤ 2 ∧
  LRUCache.size (LRUCache.get_stats
    (LRUCache.run (take 3 (LRUCache.op_of_insertion <$>
                     [LRUExamples.a1; LRUExamples.b2; LRUExamples.c3]))
                  (LRUCache.init 2 3600))) ≤ 2.
Proof. split; [lia | apply capacity_invariant; lia]. Defined.

(** A cache created with a negative [max_size] holds more than [max_size]
    entries from the start: C2 as stated fails there. *)
Lemma negative_capacity_exceeded :
  ¬ (∀ (max_size default_ttl : Z) (ops : list (LRUCache.op Z)) (n : nat),
       LRUCache.size (LRUCache.get_stats
         (LRUCache.run (take n ops) (LRUCache.init max_size default_ttl))) ≤ max_size).
Proof.
  intros H. specialize (H (-1) 3600 [LRUCache.OpGet "a" 0%float] 1%nat).
  vm_compute in H. by apply H.
Qed.

Lemma get_expiry_witness :
  LRUCache.wf LRUExamples.short_lived ∧
  od_get "abc" (LRUCache._cache LRUExamples.short_lived) = Some (Some 7) ∧
  LRUCache._timestamps LRUExamples.short_lived !! "abc" = Some 0%float ∧
  LRUCache._ttls LRUExamples.short_lived !! "abc" = Some 1 ∧
  float_gt_int (PrimFloat.sub 2 0) 1 = true ∧
  (LRUCache.get "abc" 2%float LRUExamples.short_lived).1 = None ∧
  LRUCache.size (LRUCache.get_stats (LRUCache.get "abc" 2%float LRUExamples.short_lived).2)
  = LRUCache.size (LRUCache.get_stats LRUExamples.short_lived) - 1.
Proof.
  assert (LRUCache.wf LRUExamples.short_lived) as Hwf by apply wf_run, wf_init.
  assert (float_gt_int (PrimFloat.sub 2 0) 1 = true) as Hage by (vm_compute; reflexivity).
  split; [exact Hwf|]. split; [reflexivity|]. split; [reflexivity|].
  split; [reflexivity|]. split; [exact Hage|].
  destruct (get_expiry LRUExamples.short_lived "abc" 2%float (Some 7) 0%float 1 Hwf
              eq_refl eq_refl eq_refl) as [Hexp _].
  destruct (Hexp Hage) as (Hnone & _ & Hsize & _).
  split; [exact Hnone | exact Hsize].
Defined.

Lemma set_total_iff_capacity_witness :
  1 ≤ LRUCache._max_size (LRUCache.init (V:=Z) 2 3600) ∧
  ∃ s', LRUCache.set "a" (Some 1) None 0%float (LRUCache.init (V:=Z) 2 3600) = Return () s' ∧
        od_get "a" (LRUCache._cache s') = Some (Some 1).
Proof.
  assert (1 ≤ LRUCache._max_size (LRUCache.init (V:=Z) 2 3600)) as Hmax by (simpl; lia).
  split; [exact Hmax|].
  destruct (proj1 (set_total_iff_capacity (LRUCache.init (V:=Z) 2 3600)
                     "a" (Some 1) None 0%float) Hmax) as (s' & Hset & Hget & _).
  exists s'. split; [exact Hset | exact Hget].
Defined.
(** ** LRUCache: the scenarios of the specification *)

(** Scenario A: [set] then [get] returns the value, with one hit and no
    miss. *)
Example scenario_set_then_get :
  let s := LRUCache.run [LRUCache.OpSet "abc" (Some [1; 2; 3]) None 0%float]
             (LRUCache.init (V:=list Z) 1000 3600) in
  (LRUCache.get "abc" 1%float s).1 = Some [1; 2; 3] ∧
  LRUCache.hits (LRUCache.get_stats (LRUCache.get "abc" 1%float s).2) = 1 ∧
  LRUCache.misses (LRUCache.get_stats (LRUCache.get "abc" 1%float s).2) = 0.
Proof. vm_compute. repeat split; reflexivity. Qed.

(** Scenario B: with a capacity of two, the third [set] evicts the first
    key. *)
Example scenario_capacity_two :
  LRUCache.gets ["a"; "b"; "c"] 1%float
    (LRUCache.run (LRUCache.op_of_insertion <$>
                     [LRUExamples.a1; LRUExamples.b2; LRUExamples.c3])
                  (LRUCache.init 2 3600))
  = [None; Some 2; Some 3].
Proof. vm_compute. reflexivity. Qed.

(** The age is a binary64 difference: an entry of ttl one second that was
    set at [0.1] is still returned at [1.1], because [1.1 - 0.1] is [1.0]
    in binary64, although the exact difference of the two floats is above
    one. *)
Example scenario_rounded_age :
  let s := LRUCache.run [LRUCache.OpSet "abc" (Some 7) (Some 1) 0.1%float]
             (LRUCache.init (V:=Z) 10 3600) in
  (LRUCache.get "abc" 1.1%float s).1 = Some 7 ∧
  float_gt_int (PrimFloat.sub 1.1 0.1) 1 = false.
Proof. vm_compute. split; reflexivity. Qed.

(** P3: an entry of ttl one second, read after two seconds, is a miss and is
    gone. *)
Example scenario_ttl_expiry :
  (LRUCache.get "abc" 2%float LRUExamples.short_lived).1 = None ∧
  LRUCache.size (LRUCache.get_stats (LRUCache.get "abc" 2%float LRUExamples.short_lived).2) = 0 ∧
  (LRUCache.get "abc" 1%float LRUExamples.short_lived).1 = Some 7.
Proof. vm_compute. repeat split; reflexivity. Qed.

(** ** LRUCache: [get_stats] *)

(** C7, as the code computes it. [get_stats] reports the number of entries,
    [max_size] and the two counters as they are; with no [get] counted the
    hit rate is the integer 0, and otherwise, the counters not being
    negative, it is [round(x, 2)] of the binary64 number
    [x = hits / total * 100]: the quotient of the two integers is rounded
    to the nearest float first, whatever their size, and its product with
    100 is rounded again. *)
Theorem get_stats_report {V : Type} (s : LRUCache.t V) :
  let H := LRUCache._hits s in
  let M := LRUCache._misses s in
  let r := LRUCache.get_stats s in
  LRUCache.size r = Z.of_nat (length (LRUCache._cache s)) ∧
  LRUCache.max_size r = LRUCache._max_size s ∧
  LRUCache.hits r = H ∧
  LRUCache.misses r = M ∧
  (H = 0 → M = 0 → LRUCache.hit_rate_percent r = PyInt 0) ∧
  (0 ≤ H → 0 ≤ M → 0 < H + M →
   LRUCache.hit_rate_percent r
   = py_round (PyFloat (PrimFloat.mul (int_truediv H (H + M)) (float_of_Z 100))) 2).
Proof.
  intros H M r. subst r. unfold LRUCache.get_stats. simpl.
  repeat split; try done.
  - intros HH HM. fold H M. by rewrite HH, HM.
  - intros _ _ Hpos. by rewrite bool_decide_eq_true_2.
Qed.

(** After 23 hits and 137 misses the exact rate is 14.375 percent, which
    [round(100 * H / (H + M), 2)] turns into 14.38; the code reports 14.37,
    because [23 / 160 * 100] is the binary64 number just below 14.375. C7 as
    stated fails there. *)
Lemma hit_rate_23_137 :
  let H := LRUCache._hits LRUExamples.hits_23_misses_137 in
  let M := LRUCache._misses LRUExamples.hits_23_misses_137 in
  let reported := LRUCache.hit_rate_percent (LRUCache.get_stats LRUExamples.hits_23_misses_137) in
  H = 23 ∧ M = 137 ∧
  reported = PyFloat (PrimFloat.div (float_of_Z 1437) (float_of_Z 100)) ∧
  py_round (PyFloat (int_truediv (100 * H) (H + M))) 2
  = PyFloat (PrimFloat.div (float_of_Z 1438) (float_of_Z 100)) ∧
  round_half_even (100 * H * 100) (H + M) = 1438 ∧
  reported ≠ py_round (PyFloat (int_truediv (100 * H) (H + M))) 2.
Proof.
  cbv zeta. repeat (split; [vm_compute; reflexivity|]).
  intros Heq.
  apply (f_equal (λ x, match x with PyFloat f => Prim2SF f | PyInt _ => S754_nan end)) in Heq.
  vm_compute in Heq. discriminate.
Qed.

Lemma get_stats_report_witness :
  0 ≤ LRUCache._hits LRUExamples.hits_23_misses_137 ∧
  0 ≤ LRUCache._misses LRUExamples.hits_23_misses_137 ∧
  0 < LRUCache._hits LRUExamples.hits_23_misses_137
      + LRUCache._misses LRUExamples.hits_23_misses_137 ∧
  LRUCache.hit_rate_percent (LRUCache.get_stats LRUExamples.hits_23_misses_137)
  = py_round (PyFloat (PrimFloat.mul
      (int_truediv (LRUCache._hits LRUExamples.hits_23_misses_137)
         (LRUCache._hits LRUExamples.hits_23_misses_137
          + LRUCache._misses LRUExamples.hits_23_misses_137))
      (float_of_Z 100))) 2.
Proof.
  assert (0 ≤ LRUCache._hits LRUExamples.hits_23_misses_137) as Hh
    by (vm_compute; discriminate).
  assert (0 ≤ LRUCache._misses LRUExamples.hits_23_misses_137) as Hm
    by (vm_compute; discriminate).
  assert (0 < LRUCache._hits LRUExamples.hits_23_misses_137
              + LRUCache._misses LRUExamples.hits_23_misses_137) as Hpos
    by (vm_compute; reflexivity).
  split; [exact Hh|]. split; [exact Hm|]. split; [exact Hpos|].
  destruct (get_stats_report LRUExamples.hits_23_misses_137) as (_ & _ & _ & _ & _ & Hrate).
  exact (Hrate Hh Hm Hpos).
Defined.

(** The quotient of two counters above [2 ** 53] is the rounding of the
    exact quotient, not the quotient of the two roundings: the rate is
    73.65 here, where the latter would give 73.64. *)
Example hit_rate_of_large_counters :
  py_round (PyFloat (PrimFloat.mul
     (int_truediv 12635508471285850581 (12635508471285850581 + 4521811742287169419))
     (float_of_Z 100))) 2
  = PyFloat (PrimFloat.div (float_of_Z 7365) (float_of_Z 100)) ∧
  py_round (PyFloat (PrimFloat.mul
     (PrimFloat.div (float_of_Z 12635508471285850581)
        (float_of_Z (12635508471285850581 + 4521811742287169419)))
     (float_of_Z 100))) 2
  = PyFloat (PrimFloat.div (float_of_Z 7364) (float_of_Z 100)).
Proof. split; vm_compute; reflexivity. Qed.
(** ** Key derivation *)

Section Serialization_facts.
Import Serialization.
Context {atom : Type}.
Variable str_of_atom : atom → string.
Variable json_of_atom : atom → string.
Variable json_of_key : string → string.

Lemma key_le_total : Total key_le.
Proof. intros p q. unfold key_le. apply (total String.le). Qed.

Lemma key_le_trans : Transitive key_le.
Proof. intros p q r. unfold key_le. apply transitivity. Qed.

#[local] Existing Instance key_le_total.
#[local] Existing Instance key_le_trans.

(** Items with distinct keys have one sorted order. *)
Lemma sort_items_unique (l1 l2 : list (string * string)) :
  NoDup l1.*1 → l1 ≡ₚ l2 → merge_sort key_le l1 = merge_sort key_le l2.
Proof.
  intros Hnd Hp. apply (StronglySorted_unique_strong key_le).
  - intros [k1 v1] [k2 v2] Hx1 Hx2 H12 H21. unfold key_le in *. simpl in *.
    assert (k1 = k2) as -> by (by apply (anti_symm String.le)).
    rewrite merge_sort_Permutation in Hx1, Hx2. rewrite <- Hp in Hx2.
    f_equal. clear -Hnd Hx1 Hx2.
    induction l1 as [|[k v] l1 IH]; [by apply elem_of_nil in Hx1|].
    rewrite fmap_cons, NoDup_cons in Hnd. destruct Hnd as [Hk Hnd].
    apply elem_of_cons in Hx1 as [[= -> ->]|Hx1], Hx2 as [[= ->]|Hx2]; try done.
    + exfalso. apply Hk. apply list_elem_of_fmap. by exists (k, v2).
    + exfalso. apply Hk. apply list_elem_of_fmap. by exists (k, v1).
    + by apply IH.
  - apply StronglySorted_merge_sort; apply _.
  - apply StronglySorted_merge_sort; apply _.
  - by rewrite !merge_sort_Permutation.
Qed.

Lemma wf_dict_Permutation (items items' : list (string * pydata atom)) :
  items ≡ₚ items' → wf_data (PyDict items) → wf_data (PyDict items').
Proof.
  intros Hp Hwf. inversion Hwf as [| |? Hnd Hall]; subst.
  constructor; by rewrite <- Hp.
Qed.

(** The serialization: two inputs that are the same up to the order in
    which the keys of their mappings were supplied have the same JSON
    text. *)
Lemma dumps_same_data (d1 : pydata atom) : ∀ d2,
  same_data d1 d2 → wf_data d1 → wf_data d2 →
  dumps json_of_atom json_of_key d1 = dumps json_of_atom json_of_key d2.
Proof.
  induction d1 as [a|xs IH|items IH] using pydata_nested_ind;
    intros d2 Hsame Hwf1 Hwf2; inversion Hsame as [|? ys Hall|? ? items2' Hp Hall]; subst.
  - done.
  - simpl. do 3 f_equal.
    inversion Hwf1 as [|? Hw1|]; inversion Hwf2 as [|? Hw2|]; subst.
    clear Hsame Hwf1 Hwf2. revert IH Hw1 Hw2.
    induction Hall as [|x y xs ys Hxy Hall IHall]; intros IH Hw1 Hw2; [done|].
    apply Forall_cons in IH as [IHx IH], Hw1 as [Hx Hw1], Hw2 as [Hy Hw2].
    rewrite !fmap_cons. f_equal; [by apply IHx | by apply IHall].
  - simpl. do 4 f_equal.
    pose proof (wf_dict_Permutation _ _ Hp Hwf2) as Hwf2'.
    inversion Hwf1 as [| |? Hnd1 Hw1]; inversion Hwf2' as [| |? Hnd2 Hw2]; subst.
    transitivity (merge_sort key_le
      ((λ kv, (kv.1, dumps json_of_atom json_of_key kv.2)) <$> items2')).
    + f_equal. clear Hsame Hwf1 Hwf2 Hwf2' Hnd1 Hnd2 Hp. revert IH Hw1 Hw2.
      induction Hall as [|x y xs ys [Hk Hxy] Hall IHall]; intros IH Hw1 Hw2; [done|].
      apply Forall_cons in IH as [IHx IH], Hw1 as [Hx Hw1], Hw2 as [Hy Hw2].
      rewrite !fmap_cons. f_equal; [|by apply IHall].
      rewrite Hk. f_equal. by apply IHx.
    + apply sort_items_unique; [|by rewrite Hp].
      by rewrite <- list_fmap_compose.
Qed.

Lemma serialize_same_data (d1 d2 : pydata atom) :
  same_data d1 d2 → wf_data d1 → wf_data d2 →
  serialize str_of_atom json_of_atom json_of_key d1
  = serialize str_of_atom json_of_atom json_of_key d2.
Proof.
  intros Hsame Hwf1 Hwf2. pose proof (dumps_same_data d1 d2 Hsame Hwf1 Hwf2) as Hd.
  by destruct Hsame.
Qed.

(** *** Strings *)

Lemma length_string_append (s t : string) :
  String.length (s +:+ t) = (String.length s + String.length t)%nat.
Proof. induction s as [|c s IH]; simpl; [done|]. by rewrite IH. Qed.

Lemma string_append_inj_r (s1 s2 t : string) : s1 +:+ t = s2 +:+ t → s1 = s2.
Proof.
  revert s2. induction s1 as [|c1 s1 IH]; intros [|c2 s2] Heq.
  - done.
  - apply (f_equal String.length) in Heq.
    rewrite !length_string_append in Heq. simpl in Heq. lia.
  - apply (f_equal String.length) in Heq.
    rewrite !length_string_append in Heq. simpl in Heq. lia.
  - injection Heq as -> Heq. f_equal. by apply IH.
Qed.

Lemma length_string_take n (s : string) :
  String.length (string_take n s) = (n `min` String.length s)%nat.
Proof.
  revert s. induction n as [|n IH]; intros [|c s]; simpl; try done. by rewrite IH.
Qed.

Lemma string_take_chars (P : ascii → Prop) n (s : string) :
  Forall P (list_ascii_of_string s) → Forall P (list_ascii_of_string (string_take n s)).
Proof.
  revert s. induction n as [|n IH]; intros [|c s]; simpl; try done.
  intros [Hc Hs]%Forall_cons. apply Forall_cons. split; [done | by apply IH].
Qed.
End Serialization_facts.

(** ** CacheManager *)

Section CacheManager_facts.
Import Serialization.
Context {V atom : Type}.
Variable str_of_atom : atom → string.
Variable json_of_atom : atom → string.
Variable json_of_key : string → string.
Variable sha256_hexdigest : string → string.

#[local] Abbreviation get_embedding :=
  (CacheManager.get_embedding (V:=V) str_of_atom json_of_atom json_of_key sha256_hexdigest).
#[local] Abbreviation set_embedding :=
  (CacheManager.set_embedding (V:=V) str_of_atom json_of_atom json_of_key sha256_hexdigest).
#[local] Abbreviation cache_key :=
  (CacheManager.cache_key str_of_atom json_of_atom json_of_key sha256_hexdigest).

Lemma same_data_refl (d : pydata atom) : same_data d d.
Proof.
  induction d as [a|xs IH|items IH] using pydata_nested_ind.
  - constructor.
  - constructor. induction IH; by constructor.
  - apply (same_dict items items items); [done|].
    induction IH; by constructor.
Qed.

(** The managed namespaces of a new manager. *)
Lemma init_namespaces (cfg : option CacheManager.config) (encoder_type : string) :
  CacheManager._caches (CacheManager.init (V:=V) cfg) !! encoder_type = None ↔
  encoder_type ∉ ["motion"; "gesture"; "typing"].
Proof.
  unfold CacheManager.init. simpl. rewrite !not_elem_of_cons.
  rewrite !lookup_insert_None, lookup_empty.
  split.
  - intros [[[_ ?] ?] ?]. repeat split; try congruence. apply not_elem_of_nil.
  - intros (? & ? & ? & _). repeat split; congruence.
Qed.

(** C4. With caching disabled, or for an encoder type that has no cache,
    [get_embedding] returns [None] and [set_embedding] returns, both leaving
    the manager exactly as it was: no cache gains or loses an entry and no
    counter moves. So a [get_embedding] after a [set_embedding] of the same
    input still returns [None]. *)
Theorem disabled_or_unknown_noop (m : CacheManager.t V) (encoder_type : string)
    (data : pydata atom) (embedding : option V) (ttl : option Z) (now now' : float) :
  CacheManager._enabled m = false ∨ CacheManager._caches m !! encoder_type = None →
  get_embedding encoder_type data now m = (None, m) ∧
  set_embedding encoder_type data embedding ttl now m = Return () m ∧
  get_embedding encoder_type data now'
    (state_after m (set_embedding encoder_type data embedding ttl now m)) = (None, m).
Proof.
  intros Hoff.
  assert (get_embedding encoder_type data now m = (None, m) ∧
          get_embedding encoder_type data now' m = (None, m) ∧
          set_embedding encoder_type data embedding ttl now m = Return () m) as (Hg & Hg' & Hs).
  { unfold CacheManager.get_embedding, CacheManager.set_embedding.
    destruct Hoff as [-> | Hnone]; [done|].
    rewrite Hnone. by destruct (CacheManager._enabled m). }
  rewrite Hs. simpl. by rewrite Hg.
Qed.

(** [set_embedding] touches the cache of its encoder type and no other. *)
Lemma set_embedding_other (m : CacheManager.t V) (e1 e2 : string)
    (data : pydata atom) (embedding : option V) (ttl : option Z) (now : float) :
  e1 ≠ e2 →
  let m' := state_after m (set_embedding e1 data embedding ttl now m) in
  CacheManager._caches m' !! e2 = CacheManager._caches m !! e2 ∧
  CacheManager._enabled m' = CacheManager._enabled m.
Proof.
  intros Hne. cbv zeta. unfold CacheManager.set_embedding.
  destruct (CacheManager._enabled m) eqn:En; simpl; [|done].
  destruct (CacheManager._caches m !! e1) as [cache|]; simpl; [|done].
  destruct (LRUCache.set _ _ _ _ _); simpl; by rewrite ?lookup_insert_ne.
Qed.

Lemma get_embedding_congr (m m' : CacheManager.t V) (e : string) (data : pydata atom) (now : float) :
  CacheManager._caches m' !! e = CacheManager._caches m !! e →
  CacheManager._enabled m' = CacheManager._enabled m →
  (get_embedding e data now m').1 = (get_embedding e data now m).1.
Proof.
  intros Hc He. unfold CacheManager.get_embedding. rewrite Hc, He.
  destruct (CacheManager._enabled m); simpl; [|done].
  by destruct (CacheManager._caches m !! e).
Qed.

Hypothesis sha256_hexdigest_length :
  ∀ b, String.length (sha256_hexdigest b) = 64%nat.
Hypothesis sha256_hexdigest_hex :
  ∀ b, Forall is_hex_digit (list_ascii_of_string (sha256_hexdigest b)).

(** C9. The key is a function of the encoder type and the input: inputs
    that are the same up to the order in which the keys of their mappings
    were supplied get the same key, which is 32 hexadecimal digits. The key
    is the first 32 digits of the digest of the string
    [encoder_type:serialized]; for one input, two encoder types give two
    different strings to hash, so that they get one key only when the
    digests of two different strings agree in their first 32 digits. And
    the caches are apart: a [set_embedding] under one encoder type changes
    nothing of what [get_embedding] returns under another, so that on a new
    manager an embedding stored under [motion] is not found under
    [gesture]. *)
Theorem cache_key_deterministic :
  (∀ encoder_type d1 d2,
     same_data d1 d2 → wf_data d1 → wf_data d2 →
     cache_key encoder_type d1 = cache_key encoder_type d2) ∧
  (∀ encoder_type d,
     String.length (cache_key encoder_type d) = 32%nat ∧
     Forall is_hex_digit (list_ascii_of_string (cache_key encoder_type d))) ∧
  (∀ e1 e2 d,
     e1 ≠ e2 →
     combined str_of_atom json_of_atom json_of_key e1 d
     ≠ combined str_of_atom json_of_atom json_of_key e2 d) ∧
  (∀ encoder_type d,
     cache_key encoder_type d
     = string_take 32
         (sha256_hexdigest
            (encoder_type +:+ ":" +:+ serialize str_of_atom json_of_atom json_of_key d))) ∧
  (∀ e1 e2 d,
     e1 ≠ e2 → cache_key e1 d = cache_key e2 d →
     ∃ x y, x ≠ y ∧
       x = combined str_of_atom json_of_atom json_of_key e1 d ∧
       y = combined str_of_atom json_of_atom json_of_key e2 d ∧
       string_take 32 (sha256_hexdigest x) = string_take 32 (sha256_hexdigest y)) ∧
  (∀ (m : CacheManager.t V) e1 e2 d embedding ttl now now',
     e1 ≠ e2 →
     (get_embedding e2 d now' (state_after m (set_embedding e1 d embedding ttl now m))).1
     = (get_embedding e2 d now' m).1) ∧
  (∀ cfg d embedding ttl now now',
     (get_embedding "gesture" d now'
        (state_after (CacheManager.init cfg)
           (set_embedding "motion" d embedding ttl now (CacheManager.init cfg)))).1 = None).
Proof.
  assert (∀ e1 e2 d, e1 ≠ e2 →
            combined str_of_atom json_of_atom json_of_key e1 d
            ≠ combined str_of_atom json_of_atom json_of_key e2 d) as Hcombined.
  { intros e1 e2 d Hne Heq. apply Hne. unfold combined in Heq.
    by apply string_append_inj_r in Heq. }
  split; [|split; [|split; [|split; [|split; [|split]]]]].
  - intros e d1 d2 Hsame Hwf1 Hwf2.
    unfold CacheManager.cache_key, _generate_cache_key, combined.
    by rewrite (serialize_same_data str_of_atom json_of_atom json_of_key d1 d2).
  - intros e d. unfold CacheManager.cache_key, _generate_cache_key. split.
    + rewrite length_string_take, sha256_hexdigest_length. done.
    + apply string_take_chars, sha256_hexdigest_hex.
  - exact Hcombined.
  - done.
  - intros e1 e2 d Hne Heq. eexists _, _. split; [by apply (Hcombined e1 e2 d)|].
    split; [reflexivity|]. split; [reflexivity|]. exact Heq.
  - intros m e1 e2 d embedding ttl now now' Hne.
    destruct (set_embedding_other m e1 e2 d embedding ttl now Hne) as [Hc He].
    by apply get_embedding_congr.
  - intros cfg d embedding ttl now now'.
    destruct (set_embedding_other (CacheManager.init cfg) "motion" "gesture"
                d embedding ttl now) as [Hc He]; [done|].
    rewrite (get_embedding_congr _ _ _ _ _ Hc He).
    unfold CacheManager.get_embedding, CacheManager.init. simpl.
    destruct (default true _); simpl; [|done].
    rewrite lookup_insert_ne by done. rewrite lookup_insert_eq. simpl.
    unfold LRUCache.get. done.
Qed.
End CacheManager_facts.

(** ** CacheManager: instances *)

Lemma disabled_or_unknown_noop_witness :
  (CacheManager._enabled KeyExamples.disabled = false ∨
   CacheManager._caches KeyExamples.disabled !! "motion" = None) ∧
  CacheManager.get_embedding pretty pretty KeyExamples.json_of_key
    KeyExamples.stand_in_hexdigest "motion" KeyExamples.sample_xy 1%float
    (state_after KeyExamples.disabled
       (CacheManager.set_embedding pretty pretty KeyExamples.json_of_key
          KeyExamples.stand_in_hexdigest "motion" KeyExamples.sample_xy
          (Some [1; 2; 3]) None 0%float KeyExamples.disabled))
  = (None, KeyExamples.disabled).
Proof.
  assert (CacheManager._enabled KeyExamples.disabled = false ∨
          CacheManager._caches KeyExamples.disabled !! "motion" = None) as Hoff
    by (left; reflexivity).
  split; [exact Hoff|].
  exact (proj2 (proj2 (disabled_or_unknown_noop pretty pretty KeyExamples.json_of_key
    KeyExamples.stand_in_hexdigest KeyExamples.disabled "motion" KeyExamples.sample_xy
    (Some [1; 2; 3]) None 0%float 1%float Hoff))).
Defined.

Lemma hex_digit_is_hex (n : nat) : is_hex_digit (DigestExamples.hex_digit n).
Proof.
  unfold is_hex_digit, DigestExamples.hex_digit.
  destruct (decide (n < 16)%nat) as [Hn|Hn].
  - apply list_elem_of_In, nth_In. simpl. lia.
  - rewrite nth_overflow by (simpl; lia). apply (bool_decide_unpack _). vm_compute. exact I.
Qed.

Lemma list_ascii_of_string_app (s t : string) :
  list_ascii_of_string (s +:+ t) = list_ascii_of_string s ++ list_ascii_of_string t.
Proof. induction s as [|c s IH]; simpl; [done|]. by rewrite IH. Qed.

Lemma prefix_hexdigest_length (b : string) :
  String.length (DigestExamples.prefix_hexdigest b) = 64%nat.
Proof.
  unfold DigestExamples.prefix_hexdigest.
  rewrite length_string_take, length_string_append.
  change (String.length DigestExamples.zeros) with 64%nat. lia.
Qed.

Lemma prefix_hexdigest_hex (b : string) :
  Forall is_hex_digit (list_ascii_of_string (DigestExamples.prefix_hexdigest b)).
Proof.
  unfold DigestExamples.prefix_hexdigest. apply string_take_chars.
  rewrite list_ascii_of_string_app. apply Forall_app. split.
  - induction b as [|c b IH]; simpl; [done|].
    repeat (apply Forall_cons; split; [apply hex_digit_is_hex|]). exact IH.
  - unfold is_hex_digit. apply (bool_decide_unpack _). vm_compute. exact I.
Qed.

Lemma cache_key_deterministic_witness :
  (∀ b, String.length (DigestExamples.prefix_hexdigest b) = 64%nat) ∧
  (∀ b, Forall is_hex_digit (list_ascii_of_string (DigestExamples.prefix_hexdigest b))) ∧
  Serialization.same_data KeyExamples.sample_xy KeyExamples.sample_yx ∧
  Serialization.wf_data KeyExamples.sample_xy ∧
  Serialization.wf_data KeyExamples.sample_yx ∧
  CacheManager.cache_key pretty pretty KeyExamples.json_of_key
    DigestExamples.prefix_hexdigest "motion" KeyExamples.sample_xy
  = CacheManager.cache_key pretty pretty KeyExamples.json_of_key
      DigestExamples.prefix_hexdigest "motion" KeyExamples.sample_yx ∧
  CacheManager.cache_key pretty pretty KeyExamples.json_of_key
    DigestExamples.prefix_hexdigest "motion" KeyExamples.sample_xy
  = "6d6f74696f6e3a7b2278223a20312c20" ∧
  CacheManager.cache_key pretty pretty KeyExamples.json_of_key
    DigestExamples.prefix_hexdigest "gesture" KeyExamples.sample_xy
  = "676573747572653a7b2278223a20312c".
Proof.
  assert (Serialization.same_data KeyExamples.sample_xy KeyExamples.sample_yx) as Hsame.
  { apply (Serialization.same_dict _ _
             [("x", Serialization.PyAtom 1);
              ("y", Serialization.PyList [Serialization.PyAtom 2; Serialization.PyAtom 3])]).
    - apply perm_swap.
    - repeat constructor; apply same_data_refl. }
  assert (Serialization.wf_data KeyExamples.sample_xy) as Hwf1.
  { constructor; [apply (bool_decide_unpack _); vm_compute; exact I|].
    repeat constructor. }
  assert (Serialization.wf_data KeyExamples.sample_yx) as Hwf2.
  { constructor; [apply (bool_decide_unpack _); vm_compute; exact I|].
    repeat constructor. }
  split; [exact prefix_hexdigest_length|]. split; [exact prefix_hexdigest_hex|].
  split; [exact Hsame|]. split; [exact Hwf1|]. split; [exact Hwf2|].
  split; [|split; vm_compute; reflexivity].
  exact (proj1 (cache_key_deterministic (V:=list Z) pretty pretty KeyExamples.json_of_key
    DigestExamples.prefix_hexdigest prefix_hexdigest_length prefix_hexdigest_hex)
    "motion" _ _ Hsame Hwf1 Hwf2).
Defined.

(** The JSON text of the sample mapping, whichever way its keys come. *)
Example dumps_sample :
  Serialization.dumps pretty KeyExamples.json_of_key KeyExamples.sample_yx
  = "{" +:+ KeyExamples.json_of_key "x" +:+ ": 1, "
        +:+ KeyExamples.json_of_key "y" +:+ ": [2, 3]}".
Proof. vm_compute. reflexivity. Qed.

(** ** MetricsCollector: active requests *)

Section MetricsCollector_facts.
Implicit Types (s : MetricsCollector.t) (o : MetricsCollector.op)
  (e : MetricsCollector.request_event).

Lemma metrics_run_trace_last (ops : list MetricsCollector.op) s :
  last (MetricsCollector.trace ops s) = Some (MetricsCollector.run ops s).
Proof.
  revert s. induction ops as [|o ops IH]; intros s; simpl; [done|].
  rewrite <- IH. by destruct ops.
Qed.

(** A request event keeps the active count at zero or more, and the peak
    at the largest active count so far. *)
Lemma request_events_peak (evs : list MetricsCollector.request_event) : ∀ s,
  0 ≤ MetricsCollector._active_requests s ≤ MetricsCollector._peak_active_requests s →
  let ops := MetricsCollector.op_of_event <$> evs in
  Forall (λ s', 0 ≤ MetricsCollector._active_requests s') (MetricsCollector.trace ops s) ∧
  MetricsCollector._peak_active_requests (MetricsCollector.run ops s)
  = Z.max (MetricsCollector._peak_active_requests s)
          (MetricsCollector.max_active (MetricsCollector.trace ops s)).
Proof.
  induction evs as [|e evs IH]; intros s Hs ops; subst ops.
  - simpl. split; [constructor; [lia | constructor]|]. unfold MetricsCollector.max_active. simpl. lia.
  - rewrite fmap_cons.
    change (MetricsCollector.run (?o :: ?l) s)
      with (MetricsCollector.run l (MetricsCollector.exec o s)).
    change (MetricsCollector.trace (?o :: ?l) s)
      with (s :: MetricsCollector.trace l (MetricsCollector.exec o s)).
    set (s1 := MetricsCollector.exec (MetricsCollector.op_of_event e) s).
    assert (0 ≤ MetricsCollector._active_requests s1
            ≤ MetricsCollector._peak_active_requests s1
            ∧ MetricsCollector._peak_active_requests s1
              = Z.max (MetricsCollector._peak_active_requests s)
                      (MetricsCollector._active_requests s1)) as [Hs1 Hp1].
    { subst s1. destruct e; simpl; lia. }
    destruct (IH s1 Hs1) as [Hall Hpeak].
    split; [constructor; [lia | done]|].
    rewrite Hpeak. unfold MetricsCollector.max_active. rewrite fmap_cons. simpl foldr.
    assert (MetricsCollector._active_requests s1
            ≤ foldr Z.max 0 (MetricsCollector._active_requests <$>
                MetricsCollector.trace (MetricsCollector.op_of_event <$> evs) s1)) as Hhead.
    { destruct evs; simpl; lia. }
    lia.
Qed.

(** C8. Along every sequence of [record_request_start] and
    [record_request_end] calls on a new collector the active count is never
    negative, an end at zero leaving it at zero, and the peak is the largest
    active count that the sequence has reached. Three starts give an active
    count and a peak of three; two ends after them leave one active request
    and the peak at three. *)
Theorem active_requests_floor_and_peak (clock : nat → Qc)
    (evs : list MetricsCollector.request_event) :
  let ops := MetricsCollector.op_of_event <$> evs in
  let s0 := MetricsCollector.init clock in
  Forall (λ s, 0 ≤ MetricsCollector._active_requests s) (MetricsCollector.trace ops s0) ∧
  MetricsCollector._peak_active_requests (MetricsCollector.run ops s0)
  = MetricsCollector.max_active (MetricsCollector.trace ops s0) ∧
  (∀ s endpoint status_code latency_ms,
     MetricsCollector._active_requests s = 0 →
     MetricsCollector._active_requests
       (MetricsCollector.record_request_end endpoint status_code latency_ms s) = 0) ∧
  (∀ endpoint1 status1 latency1 endpoint2 status2 latency2,
     let starts := replicate 3 MetricsCollector.OpRequestStart in
     let s3 := MetricsCollector.run starts s0 in
     let s5 := MetricsCollector.run
                 (starts ++ [MetricsCollector.OpRequestEnd endpoint1 status1 latency1;
                             MetricsCollector.OpRequestEnd endpoint2 status2 latency2]) s0 in
     MetricsCollector._active_requests s3 = 3 ∧
     MetricsCollector._peak_active_requests s3 = 3 ∧
     MetricsCollector._active_requests s5 = 1 ∧
     MetricsCollector._peak_active_requests s5 = 3).
Proof.
  intros ops s0.
  destruct (request_events_peak evs s0) as [Hall Hpeak]; [simpl; lia|].
  split; [exact Hall|]. split; [|split].
  - fold ops in Hpeak. rewrite Hpeak. simpl. 
    assert (0 ≤ MetricsCollector.max_active (MetricsCollector.trace ops s0)); [|lia].
    unfold MetricsCollector.max_active.
    generalize (MetricsCollector._active_requests <$> MetricsCollector.trace ops s0).
    intros l. induction l; simpl; lia.
  - intros s endpoint status_code latency_ms Hzero. simpl. lia.
  - intros. simpl. lia.
Qed.
End MetricsCollector_facts.

(** ** MetricsCollector: percentiles *)

Section Percentile_facts.
Implicit Types (s : MetricsCollector.t) (o : MetricsCollector.op)
  (d : gmap string (list Qc)) (l data : list Qc).

(** For every length that a series of the collector can have, the binary64
    product [n * p] truncates to the floor of the exact product. *)
Lemma percentile_index_exact (n : nat) :
  (n ≤ 1000)%nat →
  MetricsCollector.percentile_index n 0.5 = Some (n / 2)%nat ∧
  MetricsCollector.percentile_index n 0.95 = Some (95 * n / 100)%nat ∧
  MetricsCollector.percentile_index n 0.99 = Some (99 * n / 100)%nat.
Proof.
  intros Hn.
  assert (Forall (λ n,
    MetricsCollector.percentile_index n 0.5 = Some (n / 2)%nat ∧
    MetricsCollector.percentile_index n 0.95 = Some (95 * n / 100)%nat ∧
    MetricsCollector.percentile_index n 0.99 = Some (99 * n / 100)%nat) (seq 0 1001)) as Hall
    by (apply (bool_decide_unpack _); vm_compute; exact I).
  rewrite Forall_forall in Hall. apply Hall, elem_of_seq. lia.
Qed.

Lemma length_slice_last (n : Z) l :
  0 < n → Z.of_nat (length (MetricsCollector.slice_last n l)) ≤ n.
Proof.
  intros Hn. unfold MetricsCollector.slice_last.
  rewrite bool_decide_eq_true_2 by done. rewrite length_drop. lia.
Qed.

Lemma lookup_trim (n : Z) (key key' : string) d :
  MetricsCollector.trim n key d !! key' =
  if decide (key = key')
  then Some (let l := default [] (d !! key) in
             if bool_decide (n < Z.of_nat (length l))
             then MetricsCollector.slice_last n l else l)
  else d !! key'.
Proof.
  unfold MetricsCollector.trim. simpl.
  case_bool_decide; case_decide; subst;
    by rewrite ?lookup_insert_eq, ?lookup_insert_ne by done.
Qed.

Lemma lookup_append_sample (key key' : string) (x : Qc) d :
  MetricsCollector.append_sample key x d !! key' =
  if decide (key = key') then Some (default [] (d !! key) ++ [x]) else d !! key'.
Proof.
  unfold MetricsCollector.append_sample.
  case_decide; subst; by rewrite ?lookup_insert_eq, ?lookup_insert_ne by done.
Qed.

Lemma bounded_trim (n : Z) (key : string) d :
  0 < n → (∀ key' l, key' ≠ key → d !! key' = Some l → Z.of_nat (length l) ≤ n) →
  MetricsCollector.bounded n (MetricsCollector.trim n key d).
Proof.
  intros Hn Hd key' l. rewrite lookup_trim. case_decide as Hk; [|by apply Hd].
  intros [= <-]. simpl. case_bool_decide; [by apply length_slice_last | lia].
Qed.

Lemma bounded_trim_keep (n : Z) (key : string) d :
  MetricsCollector.bounded n d → 0 < n → MetricsCollector.bounded n (MetricsCollector.trim n key d).
Proof. intros Hd Hn. apply bounded_trim; [done|]. intros key' l _. apply Hd. Qed.

Lemma bounded_empty n : MetricsCollector.bounded n ∅.
Proof. intros key l. by rewrite lookup_empty. Qed.

Lemma series_bounded_exec o s : MetricsCollector.series_bounded s → MetricsCollector.series_bounded (MetricsCollector.exec o s).
Proof.
  intros (Hn & Hlat & Hinf).
  destruct o as [ |endpoint status_code latency_ms|model_type time_ms| | |clock|now];
    simpl; try done.
  - split; [done|]. split; [|done]. simpl. rewrite Hn.
    apply bounded_trim; [done|]. intros key' l Hne. rewrite lookup_trim.
    case_decide as Hk.
    + intros [= <-]. simpl. case_bool_decide; [by apply length_slice_last | lia].
    + rewrite !lookup_append_sample. rewrite decide_False by done.
      rewrite decide_False by done. apply Hlat.
  - split; [done|]. split; [done|]. simpl. rewrite Hn.
    apply bounded_trim; [done|]. intros key' l Hne.
    rewrite lookup_append_sample, decide_False by done. apply Hinf.
  - unfold MetricsCollector.get_metrics.
    assert (MetricsCollector.bounded 1000 (<["all" := default [] (MetricsCollector._latencies s !! "all")]>
                            (MetricsCollector._latencies s))) as Hlat'.
    { intros key l. destruct (decide ("all" = key)) as [<-|Hne].
      - rewrite lookup_insert_eq. intros [= <-].
        destruct (MetricsCollector._latencies s !! "all") as [l|] eqn:E; simpl; [|lia].
        by apply (Hlat "all").
      - rewrite lookup_insert_ne by done. apply Hlat. }
    by repeat case_match.
Qed.

Lemma series_bounded_run (ops : list MetricsCollector.op) (clock : nat → Qc) :
  MetricsCollector.series_bounded (MetricsCollector.run ops (MetricsCollector.init clock)).
Proof.
  assert (MetricsCollector.series_bounded (MetricsCollector.init clock)) as Hinit
    by (split; [done | split; apply bounded_empty]).
  revert Hinit. generalize (MetricsCollector.init clock).
  induction ops as [|o ops IH]; intros s Hs; simpl; [done|].
  by apply IH, series_bounded_exec.
Qed.


Lemma sorted_StronglySorted data : StronglySorted Qcle (MetricsCollector.sorted data).
Proof. apply StronglySorted_merge_sort; apply _. Qed.

Lemma sorted_Permutation data : MetricsCollector.sorted data ≡ₚ data.
Proof. apply merge_sort_Permutation. Qed.

Lemma StronglySorted_head_le l (lo : Qc) :
  StronglySorted Qcle l → head l = Some lo → ∀ x, x ∈ l → (lo ≤ x)%Qc.
Proof.
  intros Hs Hhead x Hx. destruct Hs as [|y l Hs Hall]; [done|].
  simpl in Hhead. injection Hhead as ->.
  apply elem_of_cons in Hx as [->|Hx]; [done|]. by eapply Forall_forall in Hall.
Qed.

Lemma StronglySorted_last_ge l (hi : Qc) :
  StronglySorted Qcle l → last l = Some hi → ∀ x, x ∈ l → (x ≤ hi)%Qc.
Proof.
  intros Hs Hlast x Hx. apply last_Some in Hlast as [l' ->].
  apply elem_of_app in Hx as [Hx| ->%list_elem_of_singleton]; [|done].
  eapply (StronglySorted_app_1_elem_of Qcle); [done|done|by left].
Qed.

Lemma calculate_percentiles_nonempty data :
  data ≠ [] →
  MetricsCollector._calculate_percentiles data =
  (let sorted_data := MetricsCollector.sorted data in
   let n := length sorted_data in
   lo ← head sorted_data;
   hi ← last sorted_data;
   q50 ← MetricsCollector.percentile sorted_data 0.5;
   q95 ← (if bool_decide (20 ≤ n)%nat
          then MetricsCollector.percentile sorted_data 0.95 else Some hi);
   q99 ← (if bool_decide (100 ≤ n)%nat
          then MetricsCollector.percentile sorted_data 0.99 else Some hi);
   Some (MetricsCollector.mk_percentiles
           (foldr Qcplus 0%Qc data / Qc_of_Z (Z.of_nat n))%Qc lo hi q50 q95 q99)).
Proof. by destruct data. Qed.

(** The summary of a series of at most 1000 samples that is not empty. *)
Lemma calculate_percentiles_bounded (series : list Qc) :
  (length series ≤ 1000)%nat → series ≠ [] →
  ∃ pc, MetricsCollector._calculate_percentiles series = Some pc ∧
    let sorted_data := MetricsCollector.sorted series in
    let n := length series in
    sorted_data ≡ₚ series ∧ StronglySorted Qcle sorted_data ∧
    sorted_data !! (n / 2)%nat = Some (MetricsCollector.p50 pc) ∧
    ((20 ≤ n)%nat → sorted_data !! (95 * n / 100)%nat = Some (MetricsCollector.p95 pc)) ∧
    ((n < 20)%nat → MetricsCollector.p95 pc = MetricsCollector.max pc) ∧
    ((100 ≤ n)%nat → sorted_data !! (99 * n / 100)%nat = Some (MetricsCollector.p99 pc)) ∧
    ((n < 100)%nat → MetricsCollector.p99 pc = MetricsCollector.max pc) ∧
    MetricsCollector.min pc ∈ series ∧ MetricsCollector.max pc ∈ series ∧
    ∀ x, x ∈ series → (MetricsCollector.min pc ≤ x ≤ MetricsCollector.max pc)%Qc.
Proof.
  intros Hbound Hne.
  pose proof (sorted_Permutation series) as Hperm.
  pose proof (sorted_StronglySorted series) as Hsorted.
  assert (length (MetricsCollector.sorted series) = length series) as Hlen by (by rewrite Hperm).
  assert (0 < length series)%nat as Hpos by (destruct series; [done | simpl; lia]).
  destruct (percentile_index_exact (length series) Hbound) as (H50 & H95 & H99).
  destruct (head (MetricsCollector.sorted series)) as [lo|] eqn:Hlo.
  2:{ apply head_None in Hlo. rewrite Hlo in Hlen. simpl in Hlen. lia. }
  destruct (last (MetricsCollector.sorted series)) as [hi|] eqn:Hhi.
  2:{ apply last_None in Hhi. rewrite Hhi in Hlen. simpl in Hlen. lia. }
  assert (∀ i, (i < length series)%nat → is_Some (MetricsCollector.sorted series !! i)) as Hidx.
  { intros i Hi. apply lookup_lt_is_Some. lia. }
  destruct (Hidx (length series / 2)%nat) as [q50 Hq50].
  { apply Nat.Div0.div_lt_upper_bound; lia. }
  destruct (Hidx (95 * length series / 100)%nat) as [q95 Hq95].
  { apply Nat.Div0.div_lt_upper_bound; lia. }
  destruct (Hidx (99 * length series / 100)%nat) as [q99 Hq99].
  { apply Nat.Div0.div_lt_upper_bound; lia. }
  assert (lo ∈ series ∧ hi ∈ series) as [Hlo_in Hhi_in].
  { rewrite <- Hperm. split.
    - apply head_Some_elem_of. done.
    - apply last_Some_elem_of. done. }
  assert (∀ x, x ∈ series → (lo ≤ x ≤ hi)%Qc) as Hrange.
  { intros x Hx. rewrite <- Hperm in Hx. split.
    - by eapply StronglySorted_head_le.
    - by eapply StronglySorted_last_ge. }
  rewrite calculate_percentiles_nonempty by done. cbv zeta.
  rewrite Hlo, Hhi. cbn -[Nat.div Nat.mul]. unfold MetricsCollector.percentile.
  rewrite Hlen, H50. cbn -[Nat.div Nat.mul]. rewrite Hq50. cbn -[Nat.div Nat.mul].
  destruct (decide (20 ≤ length series)%nat) as [H20|H20];
    destruct (decide (100 ≤ length series)%nat) as [H100|H100].
  - rewrite !bool_decide_eq_true_2 by done. rewrite H95, H99. cbn -[Nat.div Nat.mul].
    rewrite Hq95, Hq99. cbn -[Nat.div Nat.mul]. eexists. split; [reflexivity|].
    cbn -[Nat.div Nat.mul].
    split_and!; try done; intros; lia.
  - rewrite (bool_decide_eq_true_2 (20 ≤ length series)%nat) by done.
    rewrite (bool_decide_eq_false_2 (100 ≤ length series)%nat) by done.
    rewrite H95. cbn -[Nat.div Nat.mul]. rewrite Hq95. cbn -[Nat.div Nat.mul].
    eexists. split; [reflexivity|]. cbn -[Nat.div Nat.mul].
    split_and!; try done; intros; lia.
  - lia.
  - rewrite !bool_decide_eq_false_2 by done. cbn -[Nat.div Nat.mul].
    eexists. split; [reflexivity|]. cbn -[Nat.div Nat.mul].
    split_and!; try done; intros; lia.
Qed.

(** C6. For every series that [get_metrics] summarises in a collector that
    a run has built, and that is not empty, [_calculate_percentiles] returns
    a summary: [p50] is the element at index [floor(n * 0.5)] of the sorted
    samples; [p95] is the element at index [floor(n * 0.95)] when [n >= 20]
    and the largest sample when [n < 20]; [p99] is the element at index
    [floor(n * 0.99)] when [n >= 100] and the largest sample when [n < 100];
    [min] and [max] are the smallest and the largest sample. *)
Theorem percentile_summary (clock : nat → Qc) (ops : list MetricsCollector.op)
    (series : list Qc) :
  let s := MetricsCollector.run ops (MetricsCollector.init clock) in
  MetricsCollector.summarised s series → series ≠ [] →
  ∃ pc, MetricsCollector._calculate_percentiles series = Some pc ∧
    let sorted_data := MetricsCollector.sorted series in
    let n := length series in
    sorted_data ≡ₚ series ∧ StronglySorted Qcle sorted_data ∧
    sorted_data !! (n / 2)%nat = Some (MetricsCollector.p50 pc) ∧
    ((20 ≤ n)%nat → sorted_data !! (95 * n / 100)%nat = Some (MetricsCollector.p95 pc)) ∧
    ((n < 20)%nat → MetricsCollector.p95 pc = MetricsCollector.max pc) ∧
    ((100 ≤ n)%nat → sorted_data !! (99 * n / 100)%nat = Some (MetricsCollector.p99 pc)) ∧
    ((n < 100)%nat → MetricsCollector.p99 pc = MetricsCollector.max pc) ∧
    MetricsCollector.min pc ∈ series ∧ MetricsCollector.max pc ∈ series ∧
    ∀ x, x ∈ series → (MetricsCollector.min pc ≤ x ≤ MetricsCollector.max pc)%Qc.
Proof.
  intros s Hsum Hne. apply calculate_percentiles_bounded; [|done].
  destruct (series_bounded_run ops clock) as (_ & Hlat & Hinf). fold s in Hlat, Hinf.
  destruct Hsum as [key [Hk|Hk]]; [apply Hlat in Hk | apply Hinf in Hk]; lia.
Qed.

Lemma calculate_percentiles_total (series : list Qc) :
  (length series ≤ 1000)%nat → is_Some (MetricsCollector._calculate_percentiles series).
Proof.
  intros Hbound. destruct (decide (series = [])) as [->|Hne]; [by eexists|].
  destruct (calculate_percentiles_bounded series Hbound Hne) as (pc & -> & _). by eexists.
Qed.

(** The comprehension over bounded series summarises every one of them. *)
Lemma summarize_bounded d :
  MetricsCollector.bounded 1000 d →
  ∃ m, MetricsCollector.summarize d = Some m ∧
       ∀ key, m !! key = d !! key ≫= MetricsCollector._calculate_percentiles.
Proof.
  unfold MetricsCollector.summarize.
  apply (map_fold_weak_ind (λ acc d, MetricsCollector.bounded 1000 d →
    ∃ m, acc = Some m ∧
         ∀ key, m !! key = d !! key ≫= MetricsCollector._calculate_percentiles)).
  - intros _. exists ∅. split; [done|]. intros key. by rewrite !lookup_empty.
  - intros key series d' acc Hfresh IH Hb.
    destruct IH as (m & -> & Hm).
    { intros key' l Hl. apply (Hb key'). rewrite lookup_insert_ne; [done|]. intros ->. congruence. }
    destruct (calculate_percentiles_total series) as [pc Hpc].
    { specialize (Hb key series). rewrite lookup_insert_eq in Hb. specialize (Hb eq_refl). lia. }
    simpl. rewrite Hpc. simpl. eexists. split; [done|].
    intros key'. destruct (decide (key = key')) as [<-|Hne].
    + by rewrite !lookup_insert_eq.
    + by rewrite !lookup_insert_ne.
Qed.

(** On a collector that a run has built, [get_metrics] returns: no series is
    long enough for an index to fall outside it. Its latency entries are the
    summaries of the series. *)
Lemma get_metrics_returns (clock clock' : nat → Qc) (ops : list MetricsCollector.op) :
  let s := MetricsCollector.run ops (MetricsCollector.init clock) in
  ∃ snap s',
    MetricsCollector.get_metrics clock' s = Return snap s' ∧
    Some (MetricsCollector.latency_overall_ms snap)
    = MetricsCollector._calculate_percentiles
        (default [] (MetricsCollector._latencies s !! "all")) ∧
    (∀ key, key ≠ "all" →
       MetricsCollector.latency_by_endpoint snap !! key
       = MetricsCollector._latencies s !! key ≫= MetricsCollector._calculate_percentiles) ∧
    (∀ key,
       MetricsCollector.model_inference_ms snap !! key
       = MetricsCollector._inference_times s !! key
         ≫= MetricsCollector._calculate_percentiles).
Proof.
  intros s. destruct (series_bounded_run ops clock) as (_ & Hlat & Hinf). fold s in Hlat, Hinf.
  unfold MetricsCollector.get_metrics. rewrite lookup_insert_eq. simpl.
  destruct (calculate_percentiles_total
              (default [] (MetricsCollector._latencies s !! "all"))) as [overall Ho].
  { destruct (MetricsCollector._latencies s !! "all") as [l|] eqn:E; simpl; [|lia].
    apply Hlat in E. lia. }
  destruct (summarize_bounded (delete "all"
    (<["all" := default [] (MetricsCollector._latencies s !! "all")]>
       (MetricsCollector._latencies s)))) as (by_endpoint & Hbe & Hbe').
  { intros key l. rewrite delete_insert_eq. destruct (decide ("all" = key)) as [<-|Hne].
    - by rewrite lookup_delete_eq.
    - rewrite lookup_delete_ne by done. apply Hlat. }
  destruct (summarize_bounded (MetricsCollector._inference_times s) Hinf)
    as (inference & Hin & Hin').
  rewrite Ho, Hbe, Hin. eexists _, _. split; [done|]. simpl. split; [done|]. split; [|done].
  intros key Hne. rewrite Hbe', delete_insert_eq. by rewrite lookup_delete_ne.
Qed.


End Percentile_facts.

(** ** MetricsCollector: instances *)

Lemma percentile_summary_witness :
  MetricsCollector.summarised
    (MetricsCollector.run MetricsExamples.three_requests
       (MetricsCollector.init MetricsExamples.clock0))
    MetricsExamples.three_latencies ∧
  MetricsExamples.three_latencies ≠ [] ∧
  ∃ pc, MetricsCollector._calculate_percentiles MetricsExamples.three_latencies = Some pc ∧
        MetricsCollector.sorted MetricsExamples.three_latencies !! 1%nat
        = Some (MetricsCollector.p50 pc) ∧
        MetricsCollector.p95 pc = MetricsCollector.max pc ∧
        MetricsCollector.p99 pc = MetricsCollector.max pc.
Proof.
  assert (MetricsCollector.summarised
            (MetricsCollector.run MetricsExamples.three_requests
               (MetricsCollector.init MetricsExamples.clock0))
            MetricsExamples.three_latencies) as Hsum
    by (exists "all"; left; vm_compute; reflexivity).
  assert (MetricsExamples.three_latencies ≠ []) as Hne by discriminate.
  split; [exact Hsum|]. split; [exact Hne|].
  destruct (percentile_summary MetricsExamples.clock0 MetricsExamples.three_requests
              MetricsExamples.three_latencies Hsum Hne)
    as (pc & Hpc & _ & _ & H50 & _ & H95 & _ & H99 & _).
  exists pc. split; [exact Hpc|]. split; [exact H50|].
  split; [apply H95 | apply H99]; simpl; lia.
Defined.

(** Scenario of the specification: p50, p95 and p99 of three latencies. *)
Example percentiles_three_latencies :
  MetricsCollector._calculate_percentiles MetricsExamples.three_latencies
  = Some (MetricsCollector.mk_percentiles
            (Qc_of_Z 49 / Qc_of_Z 3)%Qc (Qc_of_Z 7) (Qc_of_Z 30)
            (Qc_of_Z 12) (Qc_of_Z 30) (Qc_of_Z 30)).
Proof. vm_compute. reflexivity. Qed.

(** ** cached_encode *)

Section CachedEncode_facts.
Import Serialization.
Context {V atom : Type}.
Variable str_of_atom : atom → string.
Variable json_of_atom : atom → string.
Variable json_of_key : string → string.
Variable sha256_hexdigest : string → string.

#[local] Abbreviation cached_encode :=
  (CachedEncode.cached_encode (V:=V) str_of_atom json_of_atom json_of_key sha256_hexdigest).
#[local] Abbreviation lookup :=
  (CachedEncode.lookup (V:=V) str_of_atom json_of_atom json_of_key sha256_hexdigest).

Lemma calls_app (l1 l2 : list CachedEncode.event) :
  CachedEncode.calls (l1 ++ l2) = (CachedEncode.calls l1 + CachedEncode.calls l2)%nat.
Proof. unfold CachedEncode.calls. by rewrite filter_app, length_app. Qed.

Lemma set_embedding_total (m : CacheManager.t V) encoder_type (data : pydata atom)
    embedding ttl now :
  CacheManager.set_embedding str_of_atom json_of_atom json_of_key sha256_hexdigest
    encoder_type data embedding ttl now m ≠ OutOfFuel.
Proof.
  unfold CacheManager.set_embedding. destruct (negb _); [done|].
  destruct (CacheManager._caches m !! encoder_type) as [cache|]; [|done].
  pose proof (set_total
    (CacheManager.cache_key str_of_atom json_of_atom json_of_key sha256_hexdigest
       encoder_type data) embedding ttl now cache) as Htotal.
  by destruct (LRUCache.set _ _ _ _ _).
Qed.

Lemma get_cache_log (w : CachedEncode.world V) :
  CachedEncode.log (CachedEncode.get_cache w).2 = CachedEncode.log w ∧
  CachedEncode.metrics (CachedEncode.get_cache w).2 = CachedEncode.metrics w.
Proof. unfold CachedEncode.get_cache. by destruct (CachedEncode.cache_manager w). Qed.

(** C5. On a hit the wrapper returns the cached embedding and does not call
    the wrapped function. On a miss it calls the function once; when that
    call raises, the wrapper raises the same exception, [set_embedding] is
    not called, and the manager is left as it was when the function was
    called, that is as the lookup left it. *)
Theorem cached_encode_calls_once (encoder_type : string)
    (func : pydata atom → pyexn + option V) (data : pydata atom) (now_get now_set : float)
    (w : CachedEncode.world V) :
  let looked := lookup encoder_type data now_get w in
  let r := cached_encode encoder_type func data now_get now_set w in
  (∀ cached, looked.1 = Some cached →
     returned r = Some (Some cached) ∧
     CachedEncode.log (state_after w r) = CachedEncode.log w ++ [CachedEncode.EvGetEmbedding] ∧
     CachedEncode.calls (CachedEncode.log (state_after w r))
     = CachedEncode.calls (CachedEncode.log w)) ∧
  (looked.1 = None →
     CachedEncode.calls (CachedEncode.log (state_after w r))
     = S (CachedEncode.calls (CachedEncode.log w)) ∧
     (∀ e, func data = inl e →
        r = Raise e (CachedEncode.mk_world (Some looked.2)
                       (MetricsCollector.record_cache_miss (CachedEncode.metrics w))
                       (CachedEncode.log w
                        ++ [CachedEncode.EvGetEmbedding; CachedEncode.EvFunc]))) ∧
     (func data = inr None →
        returned r = Some None ∧
        CachedEncode.cache_manager (state_after w r) = Some looked.2)).
Proof.
  intros looked r. subst looked r.
  unfold CachedEncode.cached_encode, CachedEncode.lookup.
  destruct (get_cache_log w) as [Hlog Hmet].
  destruct (CachedEncode.get_cache w) as [cache w0]. simpl in Hlog, Hmet |- *.
  destruct (CacheManager.get_embedding _ _ _ _ _ _ _ cache) as [res cache1]. simpl.
  split.
  - intros cached ->. simpl. rewrite Hlog. split; [done|]. split; [done|].
    rewrite calls_app. unfold CachedEncode.calls at 2. simpl. lia.
  - intros ->. rewrite Hlog, Hmet. split; [|split].
    + destruct (func data) as [e|[result|]]; simpl.
      * rewrite calls_app. by unfold CachedEncode.calls at 2; simpl; lia.
      * pose proof (set_embedding_total cache1 encoder_type data (Some result) None now_set)
          as Htotal.
        destruct (CacheManager.set_embedding _ _ _ _ _ _ _ _ _ cache1); simpl; try done.
        -- rewrite !calls_app. unfold CachedEncode.calls at 2 3; simpl; lia.
        -- rewrite !calls_app. unfold CachedEncode.calls at 2 3; simpl; lia.
      * rewrite calls_app. by unfold CachedEncode.calls at 2; simpl; lia.
    + by intros e ->.
    + by intros ->.
Qed.
End CachedEncode_facts.

Lemma cached_encode_calls_once_witness :
  (CachedEncode.lookup pretty pretty KeyExamples.json_of_key KeyExamples.stand_in_hexdigest
     "motion" KeyExamples.sample_xy 0%float WrapperExamples.fresh_world).1 = None ∧
  WrapperExamples.failing KeyExamples.sample_xy = inl (Exception "RuntimeError") ∧
  raised (CachedEncode.cached_encode pretty pretty KeyExamples.json_of_key
            KeyExamples.stand_in_hexdigest "motion" WrapperExamples.failing
            KeyExamples.sample_xy 0%float 0%float WrapperExamples.fresh_world)
  = Some (Exception "RuntimeError").
Proof.
  assert ((CachedEncode.lookup pretty pretty KeyExamples.json_of_key
             KeyExamples.stand_in_hexdigest "motion" KeyExamples.sample_xy 0%float
             WrapperExamples.fresh_world).1 = None) as Hmiss by (vm_compute; reflexivity).
  split; [exact Hmiss|]. split; [reflexivity|].
  destruct (proj2 (cached_encode_calls_once pretty pretty KeyExamples.json_of_key
              KeyExamples.stand_in_hexdigest "motion" WrapperExamples.failing
              KeyExamples.sample_xy 0%float 0%float WrapperExamples.fresh_world) Hmiss)
    as (_ & Hraise & _).
  rewrite (Hraise (Exception "RuntimeError") eq_refl). reflexivity.
Defined.

(** The wrapper on start-up: the first call misses, calls the encoder and
    stores its answer; the second call hits and returns it. *)
Example cached_encode_miss_then_hit :
  let first := CachedEncode.cached_encode pretty pretty KeyExamples.json_of_key
                 KeyExamples.stand_in_hexdigest "motion" WrapperExamples.answering
                 KeyExamples.sample_xy 0%float 0%float WrapperExamples.fresh_world in
  let second := CachedEncode.cached_encode pretty pretty KeyExamples.json_of_key
                  KeyExamples.stand_in_hexdigest "motion" WrapperExamples.failing
                  KeyExamples.sample_yx 1%float 1%float
                  (state_after WrapperExamples.fresh_world first) in
  returned first = Some (Some [1; 2; 3]) ∧
  returned second = Some (Some [1; 2; 3]) ∧
  CachedEncode.log (state_after WrapperExamples.fresh_world second)
  = [CachedEncode.EvGetEmbedding; CachedEncode.EvFunc; CachedEncode.EvSetEmbedding;
     CachedEncode.EvGetEmbedding].
Proof. vm_compute. repeat split; reflexivity. Qed.

(** * Further properties of the code *)

(** ** LRUCache *)

Section LRUCache_more.
Context {V : Type}.
Implicit Types (s : LRUCache.t V) (k key : string) (v value : option V).

Lemma set_counters key value ttl now s :
  let s' := state_after s (LRUCache.set key value ttl now s) in
  LRUCache._hits s' = LRUCache._hits s ∧ LRUCache._misses s' = LRUCache._misses s.
Proof.
  destruct (Z_le_gt_dec 1 (LRUCache._max_size s)) as [H|H].
  - destruct (set_returns key value ttl now s H) as (s2 & -> & _ & _ & _ & _ & ? & ?).
    by simpl.
  - unfold LRUCache.set.
    destruct (set_prepared_spec key s) as (_ & _ & _ & _ & Hh & Hm).
    pose proof (evict_fields
      (length (LRUCache._cache
         (if od_contains key (LRUCache._cache s) then LRUCache._remove key s else s)))
      (if od_contains key (LRUCache._cache s) then LRUCache._remove key s else s))
      as (_ & _ & Hh' & Hm' & _).
    destruct (LRUCache.evict _ _) as [[] s2|e s2|]; simpl in *; split; congruence.
Qed.

Lemma cleanup_counters clock s :
  LRUCache._hits (LRUCache.cleanup_expired clock s) = LRUCache._hits s ∧
  LRUCache._misses (LRUCache.cleanup_expired clock s) = LRUCache._misses s.
Proof.
  unfold LRUCache.cleanup_expired.
  generalize (LRUCache.expired_keys (LRUCache._cache s).*1 clock 0 s). intros ks.
  revert s. induction ks as [|k ks IH]; intros s; simpl; [done|].
  destruct (IH (LRUCache._remove k s)) as [-> ->]. done.
Qed.

(** X1. The two counters count the calls of [get], and nothing else: after any
    run on a new cache, hits and misses add up to the number of [get] calls
    of the run, whatever [set], [clear] and [cleanup_expired] did between
    them. *)
Theorem gets_are_counted (ops : list (LRUCache.op V)) (max_size default_ttl : Z) :
  let s := LRUCache.run ops (LRUCache.init max_size default_ttl) in
  0 ≤ LRUCache._hits s ∧ 0 ≤ LRUCache._misses s ∧
  LRUCache._hits s + LRUCache._misses s = Z.of_nat (length (filter is_get ops)).
Proof.
  induction ops as [|o ops IH] using rev_ind; [simpl; lia|].
  rewrite run_snoc, filter_app, length_app. cbv zeta in IH.
  set (s := LRUCache.run ops (LRUCache.init max_size default_ttl)) in *.
  destruct o as [key now|key value ttl now| |clock]; simpl.
  - unfold LRUCache.get. destruct (od_get key _); [|simpl; lia].
    destruct (LRUCache._is_expired key now s); simpl; lia.
  - destruct (set_counters key value ttl now s) as [-> ->].
    lia.
  - lia.
  - destruct (cleanup_counters clock s) as [-> ->].
    lia.
Qed.
End LRUCache_more.

Section LRUCache_sweep.
Context {V : Type}.
Implicit Types (s : LRUCache.t V) (k key : string) (v value : option V) (ks : list string).

Lemma foldl_remove_cache ks : ∀ s,
  LRUCache._cache (foldl (λ s' key, LRUCache._remove key s') s ks)
  = filter (λ kv, kv.1 ∉ ks) (LRUCache._cache s).
Proof.
  induction ks as [|k ks IH]; intros s; simpl.
  - generalize (LRUCache._cache s). intros c. induction c as [|kv c IHc]; [done|].
    rewrite filter_cons, decide_True by apply not_elem_of_nil. by rewrite <- IHc.
  - rewrite IH. simpl. unfold od_pop. rewrite list_filter_filter.
    apply list_filter_iff. intros kv. rewrite not_elem_of_cons. tauto.
Qed.

Lemma foldl_remove_maps ks : ∀ s k,
  LRUCache._timestamps (foldl (λ s' key, LRUCache._remove key s') s ks) !! k
  = (if decide (k ∈ ks) then None else LRUCache._timestamps s !! k) ∧
  LRUCache._ttls (foldl (λ s' key, LRUCache._remove key s') s ks) !! k
  = (if decide (k ∈ ks) then None else LRUCache._ttls s !! k) ∧
  LRUCache._default_ttl (foldl (λ s' key, LRUCache._remove key s') s ks)
  = LRUCache._default_ttl s.
Proof.
  induction ks as [|k0 ks IH]; intros s k; cbn [foldl].
  - by destruct (decide (k ∈ [])) as [?%elem_of_nil|].
  - destruct (IH (LRUCache._remove k0 s) k) as (-> & -> & ->).
    cbn [LRUCache._remove LRUCache._timestamps LRUCache._ttls LRUCache._default_ttl].
    destruct (decide (k ∈ k0 :: ks)) as [Hin|Hout].
    + apply elem_of_cons in Hin as [->|Hin].
      * rewrite !lookup_delete_eq. by destruct (decide (k0 ∈ ks)).
      * by rewrite !decide_True by done.
    + apply not_elem_of_cons in Hout as [Hne Hout].
      rewrite !decide_False by done. by rewrite !lookup_delete_ne.
Qed.

(** The keys that the sweep finds expired: the key at position [j] is
    judged at the reading [clock (i + j)]. *)
Lemma expired_keys_spec clock s ks : ∀ i k,
  (∀ k', k' ∈ ks → is_Some (LRUCache._timestamps s !! k')) →
  k ∈ LRUCache.expired_keys ks clock i s ↔
  ∃ j, ks !! j = Some k ∧ LRUCache._is_expired k (clock (i + j)%nat) s = true.
Proof.
  induction ks as [|k0 ks IH]; intros i k Hts; simpl.
  - split; [by intros ?%elem_of_nil | by intros (j & ? & _)].
  - destruct (Hts k0) as [ts Hk0]; [by left|]. rewrite Hk0.
    assert (∀ k', k' ∈ ks → is_Some (LRUCache._timestamps s !! k')) as Hts'
      by (intros k' ?; apply Hts; by right).
    assert (k ∈ LRUCache.expired_keys ks clock (S i) s ↔
            ∃ j, (k0 :: ks) !! S j = Some k
                 ∧ LRUCache._is_expired k (clock (i + S j)%nat) s = true) as Htail.
    { rewrite (IH (S i) k Hts'). split; intros (j & Hj & He); exists j; split; try done.
      - by replace (i + S j)%nat with (S i + j)%nat by lia.
      - by replace (S i + j)%nat with (i + S j)%nat by lia. }
    destruct (LRUCache._is_expired k0 (clock i) s) eqn:E0.
    + rewrite elem_of_cons, Htail. split.
      * intros [->|(j & Hj & He)]; [|by exists (S j)].
        exists 0%nat. by rewrite Nat.add_0_r.
      * intros ([|j] & Hj & He); [|right; by exists j].
        left. simpl in Hj. congruence.
    + rewrite Htail. split.
      * intros (j & Hj & He). by exists (S j).
      * intros ([|j] & Hj & He); [|by exists j].
        simpl in Hj. injection Hj as <-. rewrite Nat.add_0_r in He. congruence.
Qed.

(** X2. [cleanup_expired] on a cache whose dictionaries agree. The entry at
    position [i] is judged at the [i]-th reading of the clock: it stays if
    and only if it has not expired then. The entries that stay keep their
    order, their timestamps and their ttls; the counters are not touched. *)
Theorem cleanup_expired_sweeps (clock : nat → float) s :
  LRUCache.wf s →
  let s' := LRUCache.cleanup_expired clock s in
  (∀ i k v, LRUCache._cache s !! i = Some (k, v) →
     (k, v) ∈ LRUCache._cache s' ↔ LRUCache._is_expired k (clock i) s = false) ∧
  LRUCache._cache s' `sublist_of` LRUCache._cache s ∧
  (∀ k, k ∈ (LRUCache._cache s').*1 →
     LRUCache._timestamps s' !! k = LRUCache._timestamps s !! k ∧
     LRUCache._ttls s' !! k = LRUCache._ttls s !! k) ∧
  LRUCache._hits s' = LRUCache._hits s ∧ LRUCache._misses s' = LRUCache._misses s ∧
  LRUCache.wf s'.
Proof.
  intros Hwf s'. pose proof Hwf as (Hnd & Hts & _).
  assert (LRUCache._cache s' = filter
    (λ kv, kv.1 ∉ LRUCache.expired_keys (LRUCache._cache s).*1 clock 0 s)
    (LRUCache._cache s)) as Hc by apply foldl_remove_cache.
  assert (∀ k', k' ∈ (LRUCache._cache s).*1 → is_Some (LRUCache._timestamps s !! k'))
    as Hall by (intros k' ?; by apply Hts).
  split; [|split; [|split; [|split; [|split]]]].
  - intros i k v Hi. rewrite Hc, list_elem_of_filter. simpl.
    rewrite (expired_keys_spec clock s _ 0 k Hall).
    assert ((LRUCache._cache s).*1 !! i = Some k) as Hki
      by (by rewrite list_lookup_fmap, Hi).
    split.
    + intros [Hout _]. destruct (LRUCache._is_expired k (clock i) s) eqn:E; [|done].
      exfalso. apply Hout. by exists i.
    + intros Hfresh. split; [|by eapply list_elem_of_lookup_2].
      intros (j & Hj & He). rewrite (NoDup_lookup _ _ _ _ Hnd Hj Hki) in He.
      simpl in He. congruence.
  - rewrite Hc. apply sublist_filter.
  - intros k Hk. rewrite Hc in Hk.
    apply list_elem_of_fmap in Hk as ([k' v'] & -> & [Hout _]%list_elem_of_filter).
    simpl in *.
    destruct (foldl_remove_maps (LRUCache.expired_keys (LRUCache._cache s).*1 clock 0 s)
                s k') as (Ht & Hl & _).
    rewrite decide_False in Ht by done. rewrite decide_False in Hl by done. done.
  - apply cleanup_counters.
  - apply cleanup_counters.
  - by apply wf_cleanup_expired.
Qed.
End LRUCache_sweep.

Section LRUCache_entries.
Context {V : Type}.
Implicit Types (s : LRUCache.t V) (k key : string) (v value : option V).

(** X4. [set] removes another entry only when the cache is full and the key is
    new. When the key is in the cache already, or the cache has room, [set]
    returns and the cache holds what it held, the entry of the key apart,
    which is now the last one: a value is replaced without any eviction. *)
Theorem set_keeps_other_entries key value ttl now s :
  LRUCache.wf s →
  Z.of_nat (length (LRUCache._cache s)) ≤ LRUCache._max_size s →
  key ∈ (LRUCache._cache s).*1 ∨ Z.of_nat (length (LRUCache._cache s)) < LRUCache._max_size s →
  ∃ s', LRUCache.set key value ttl now s = Return () s' ∧
        LRUCache._cache s' = od_pop key (LRUCache._cache s) ++ [(key, value)] ∧
        (∀ k, k ≠ key →
           od_get k (LRUCache._cache s') = od_get k (LRUCache._cache s) ∧
           LRUCache._timestamps s' !! k = LRUCache._timestamps s !! k ∧
           LRUCache._ttls s' !! k = LRUCache._ttls s !! k).
Proof.
  intros (Hnd & _) Hlen Hroom. unfold LRUCache.set.
  destruct (set_prepared_spec key s) as (Hk & Hc & Hm & _).
  set (s1 := if od_contains key (LRUCache._cache s) then LRUCache._remove key s else s) in *.
  assert (LRUCache._timestamps s1 = delete key (LRUCache._timestamps s) ∨
          LRUCache._timestamps s1 = LRUCache._timestamps s) as Hts
    by (subst s1; destruct (od_contains key _); simpl; auto).
  assert (LRUCache._ttls s1 = delete key (LRUCache._ttls s) ∨
          LRUCache._ttls s1 = LRUCache._ttls s) as Httl
    by (subst s1; destruct (od_contains key _); simpl; auto).
  rewrite evict_room.
  2:{ rewrite Hc, Hm. destruct Hroom as [Hin|Hlt].
      - pose proof (od_pop_length_NoDup key _ Hnd Hin). lia.
      - pose proof (od_pop_length_le key (LRUCache._cache s)). lia. }
  eexists. split; [done|]. simpl. rewrite od_setitem_absent by done. rewrite Hc.
  split; [done|]. intros k Hne. split; [|split].
  - rewrite od_get_app, od_get_pop_ne by done. simpl.
    rewrite decide_False by done. by destruct (od_get k _).
  - rewrite lookup_insert_ne by done.
    destruct Hts as [-> | ->]; [by rewrite lookup_delete_ne | done].
  - rewrite lookup_insert_ne by done.
    destruct Httl as [-> | ->]; [by rewrite lookup_delete_ne | done].
Qed.

(** X6. The dictionaries of a cache agree after any run: the ordered dictionary
    holds no key twice, and the timestamps and the ttls are recorded for
    exactly its keys, so [_is_expired] never meets a key without a
    timestamp. *)
Theorem dictionaries_agree (ops : list (LRUCache.op V)) (max_size default_ttl : Z) :
  let s := LRUCache.run ops (LRUCache.init max_size default_ttl) in
  NoDup (LRUCache._cache s).*1 ∧
  (∀ k, is_Some (od_get k (LRUCache._cache s)) ↔ is_Some (LRUCache._timestamps s !! k)) ∧
  (∀ k, is_Some (od_get k (LRUCache._cache s)) ↔ is_Some (LRUCache._ttls s !! k)).
Proof.
  intros s. destruct (wf_run ops (LRUCache.init max_size default_ttl) (wf_init _ _))
    as (Hnd & Hts & Httl).
  split; [done|]. split; intros k; rewrite od_get_is_Some; auto.
Qed.

Lemma get_keeps_expiry key now s k :
  LRUCache.wf s →
  let s' := (LRUCache.get key now s).2 in
  k ∈ (LRUCache._cache s').*1 →
  k ∈ (LRUCache._cache s).*1 ∧
  LRUCache._timestamps s' !! k = LRUCache._timestamps s !! k ∧
  LRUCache._ttls s' !! k = LRUCache._ttls s !! k ∧
  LRUCache._default_ttl s' = LRUCache._default_ttl s.
Proof.
  intros (Hnd & _) s'. subst s'. unfold LRUCache.get.
  destruct (od_get key _) as [v|] eqn:E; [|done].
  destruct (LRUCache._is_expired key now s); simpl.
  - rewrite od_pop_elem. intros [Hne Hk]. by rewrite !lookup_delete_ne.
  - intros Hk. by apply (od_move_to_end_keys key _ Hnd) in Hk.
Qed.

(** X7. The ttl of an entry counts from its [set]: reading the cache does not
    renew it. However many [get] calls a run makes, of this key or of
    others, a [get] of the key at which its age, the binary64 difference
    [now - ts] of the reading of the clock and the timestamp of the [set],
    exceeds the ttl returns [None]. *)
Theorem ttl_counts_from_set (ops : list (LRUCache.op V)) key ts ttl now s :
  LRUCache.wf s →
  LRUCache._timestamps s !! key = Some ts →
  LRUCache._ttls s !! key = Some ttl →
  Forall (λ o, is_get o = true) ops →
  float_gt_int (PrimFloat.sub now ts) ttl = true →
  (LRUCache.get key now (LRUCache.run ops s)).1 = None.
Proof.
  intros Hwf Hts Httl Hops Hlate.
  assert (LRUCache.wf (LRUCache.run ops s) ∧
          (key ∈ (LRUCache._cache (LRUCache.run ops s)).*1 →
           LRUCache._timestamps (LRUCache.run ops s) !! key = Some ts ∧
           LRUCache._ttls (LRUCache.run ops s) !! key = Some ttl)) as [Hwf' Hkeep].
  { induction ops as [|o ops IH] using rev_ind; [done|].
    apply Forall_app in Hops as [Hops Ho]. rewrite Forall_singleton in Ho.
    destruct (IH Hops) as [Hwf1 Hk1]. rewrite run_snoc.
    split; [by apply wf_exec|].
    destruct o as [key' now'| | |]; try done. simpl. intros Hin.
    destruct (get_keeps_expiry key' now' (LRUCache.run ops s) key Hwf1 Hin)
      as (Hin1 & -> & -> & _).
    by apply Hk1. }
  unfold LRUCache.get. destruct (od_get key _) as [v|] eqn:E; [|done].
  destruct Hkeep as [Hts' Httl']; [apply od_get_is_Some; eauto|].
  unfold LRUCache._is_expired, LRUCache.expired. rewrite Hts', Httl'. simpl.
  by rewrite Hlate.
Qed.
End LRUCache_entries.

Lemma cleanup_expired_sweeps_witness :
  LRUCache.wf SweepExamples.two_entries ∧
  (("b", Some 2) ∈ LRUCache._cache
     (LRUCache.cleanup_expired SweepExamples.at_two SweepExamples.two_entries)
   ↔ LRUCache._is_expired "b" (SweepExamples.at_two 1) SweepExamples.two_entries = false) ∧
  LRUCache.wf (LRUCache.cleanup_expired SweepExamples.at_two SweepExamples.two_entries).
Proof.
  assert (LRUCache.wf SweepExamples.two_entries) as Hwf by apply wf_run, wf_init.
  split; [exact Hwf|].
  destruct (cleanup_expired_sweeps SweepExamples.at_two SweepExamples.two_entries Hwf)
    as (Hkeep & _ & _ & _ & _ & Hwf').
  split; [|exact Hwf'].
  apply (Hkeep 1%nat "b" (Some 2)). reflexivity.
Defined.

Lemma set_keeps_other_entries_witness :
  LRUCache.wf SweepExamples.two_entries ∧
  Z.of_nat (length (LRUCache._cache SweepExamples.two_entries))
    ≤ LRUCache._max_size SweepExamples.two_entries ∧
  ("a" ∈ (LRUCache._cache SweepExamples.two_entries).*1 ∨
   Z.of_nat (length (LRUCache._cache SweepExamples.two_entries))
     < LRUCache._max_size SweepExamples.two_entries) ∧
  ∃ s', LRUCache.set "a" (Some 5) None 1%float SweepExamples.two_entries = Return () s' ∧
        LRUCache._cache s' = od_pop "a" (LRUCache._cache SweepExamples.two_entries)
                             ++ [("a", Some 5)].
Proof.
  assert (LRUCache.wf SweepExamples.two_entries) as Hwf by apply wf_run, wf_init.
  assert (Z.of_nat (length (LRUCache._cache SweepExamples.two_entries))
          ≤ LRUCache._max_size SweepExamples.two_entries) as Hlen
    by (vm_compute; discriminate).
  assert ("a" ∈ (LRUCache._cache SweepExamples.two_entries).*1 ∨
          Z.of_nat (length (LRUCache._cache SweepExamples.two_entries))
            < LRUCache._max_size SweepExamples.two_entries) as Hroom
    by (right; vm_compute; reflexivity).
  split; [exact Hwf|]. split; [exact Hlen|]. split; [exact Hroom|].
  destruct (set_keeps_other_entries "a" (Some 5) None 1%float SweepExamples.two_entries
              Hwf Hlen Hroom) as (s' & Hset & Hc & _).
  exists s'. split; [exact Hset | exact Hc].
Defined.

Lemma ttl_counts_from_set_witness :
  LRUCache.wf LRUExamples.short_lived ∧
  LRUCache._timestamps LRUExamples.short_lived !! "abc" = Some 0%float ∧
  LRUCache._ttls LRUExamples.short_lived !! "abc" = Some 1 ∧
  Forall (λ o, is_get o = true) SweepExamples.two_reads ∧
  float_gt_int (PrimFloat.sub 2 0) 1 = true ∧
  (LRUCache.get "abc" 2%float
     (LRUCache.run SweepExamples.two_reads LRUExamples.short_lived)).1 = None.
Proof.
  assert (LRUCache.wf LRUExamples.short_lived) as Hwf by apply wf_run, wf_init.
  assert (Forall (λ o : LRUCache.op Z, is_get o = true) SweepExamples.two_reads) as Hops
    by (repeat constructor).
  assert (float_gt_int (PrimFloat.sub 2 0) 1 = true) as Hage by (vm_compute; reflexivity).
  split; [exact Hwf|]. split; [reflexivity|]. split; [reflexivity|].
  split; [exact Hops|]. split; [exact Hage|].
  exact (ttl_counts_from_set SweepExamples.two_reads "abc" 0%float 1 2%float
           LRUExamples.short_lived Hwf eq_refl eq_refl Hops Hage).
Defined.

(** ** CacheManager *)

Section CacheManager_more.
Import Serialization.
Context {V atom : Type}.
Variable str_of_atom : atom → string.
Variable json_of_atom : atom → string.
Variable json_of_key : string → string.
Variable sha256_hexdigest : string → string.

#[local] Abbreviation get_embedding' :=
  (CacheManager.get_embedding (V:=V) str_of_atom json_of_atom json_of_key sha256_hexdigest).
#[local] Abbreviation set_embedding' :=
  (CacheManager.set_embedding (V:=V) str_of_atom json_of_atom json_of_key sha256_hexdigest).

(** X9. An embedding stored by [set_embedding] is returned by [get_embedding]
    within its ttl, also when the mappings of the looked-up input list
    their keys in another order than those of the stored one. Caching has
    to be enabled, the cache of the encoder type has to exist and to have a
    capacity of one or more. *)
Theorem embedding_round_trip (m : CacheManager.t V) (encoder_type : string)
    (d1 d2 : pydata atom) (embedding : option V) (ttl : option Z) (now now' : float)
    (cache : LRUCache.t V) :
  CacheManager._enabled m = true →
  CacheManager._caches m !! encoder_type = Some cache →
  1 ≤ LRUCache._max_size cache →
  same_data d1 d2 → wf_data d1 → wf_data d2 →
  float_gt_int (PrimFloat.sub now' now) (default (LRUCache._default_ttl cache) ttl) = false →
  ∃ m', set_embedding' encoder_type d1 embedding ttl now m = Return () m' ∧
        (get_embedding' encoder_type d2 now' m').1 = embedding.
Proof.
  intros Hen Hc Hmax Hsame Hwf1 Hwf2 Hfresh.
  unfold CacheManager.set_embedding. rewrite Hen, Hc. simpl.
  destruct (set_returns (CacheManager.cache_key str_of_atom json_of_atom json_of_key
              sha256_hexdigest encoder_type d1) embedding ttl now cache Hmax)
    as (s2 & -> & _ & _ & _ & Hd & _).
  eexists. split; [reflexivity|].
  unfold CacheManager.get_embedding. simpl. rewrite lookup_insert_eq. simpl.
  replace (CacheManager.cache_key _ _ _ _ encoder_type d2)
    with (CacheManager.cache_key str_of_atom json_of_atom json_of_key
            sha256_hexdigest encoder_type d1).
  - apply get_store_fresh. by rewrite Hd.
  - unfold CacheManager.cache_key, _generate_cache_key, combined.
    by rewrite (serialize_same_data str_of_atom json_of_atom json_of_key d1 d2).
Qed.

(** X10. [clear] empties the caches it names and nothing else: without an
    encoder type, or with the empty string, every cache; with an encoder
    type, the cache of that name, if there is one. A lookup in an emptied
    cache finds nothing. The caches stay, with their capacity, their
    default ttl and their counts of hits and misses: [clear] does not reset
    the statistics. *)
Theorem clear_scope (m : CacheManager.t V) (encoder_type : option string) :
  let m' := CacheManager.clear encoder_type m in
  let named name := encoder_type = None ∨ encoder_type = Some EmptyString
                    ∨ encoder_type = Some name in
  CacheManager._enabled m' = CacheManager._enabled m ∧
  (∀ name, CacheManager._caches m !! name = None → CacheManager._caches m' !! name = None) ∧
  (∀ name cache, CacheManager._caches m !! name = Some cache →
     ∃ cache', CacheManager._caches m' !! name = Some cache' ∧
       LRUCache._max_size cache' = LRUCache._max_size cache ∧
       LRUCache._default_ttl cache' = LRUCache._default_ttl cache ∧
       LRUCache._hits cache' = LRUCache._hits cache ∧
       LRUCache._misses cache' = LRUCache._misses cache ∧
       (named name → LRUCache._cache cache' = []) ∧
       (¬ named name → cache' = cache)) ∧
  (∀ name data now, named name → (get_embedding' name data now m').1 = None).
Proof.
  intros m' named.
  assert (∀ name, CacheManager._caches m' !! name
                  = (if decide (named name) then LRUCache.clear else id)
                      <$> CacheManager._caches m !! name) as Hlook.
  { intros name. subst m'.
    destruct encoder_type as [[|c e]|]; unfold CacheManager.clear;
      cbn [CacheManager._caches].
    - rewrite lookup_fmap. case_decide as Hn; [done|]. destruct Hn. right. by left.
    - destruct (decide (String c e = name)) as [<-|Hne].
      + rewrite lookup_alter_eq. case_decide as Hn; [done|]. destruct Hn. right. by right.
      + rewrite lookup_alter_ne by done. case_decide as Hn.
        * destruct Hn as [?|[?|[= ?]]]; done.
        * by destruct (CacheManager._caches m !! name).
    - rewrite lookup_fmap. case_decide as Hn; [done|]. destruct Hn. by left. }
  split; [by subst m'; destruct encoder_type as [[|c e]|]|].
  split; [|split].
  - intros name Hnone. by rewrite Hlook, Hnone.
  - intros name cache Hc. rewrite Hlook, Hc. simpl. eexists. split; [reflexivity|].
    destruct (decide (named name)) as [Hn|Hn]; simpl; split_and!; done.
  - intros name data now Hname. unfold CacheManager.get_embedding.
    destruct (negb _); [done|]. rewrite Hlook.
    destruct (decide (named name)) as [_|Hn]; [|done].
    destruct (CacheManager._caches m !! name); done.
Qed.
End CacheManager_more.

Lemma embedding_round_trip_witness :
  CacheManager._enabled (CacheManager.init (V:=list Z) None) = true ∧
  CacheManager._caches (CacheManager.init (V:=list Z) None) !! "motion"
    = Some (LRUCache.init 1000 3600) ∧
  1 ≤ LRUCache._max_size (LRUCache.init (V:=list Z) 1000 3600) ∧
  Serialization.same_data KeyExamples.sample_xy KeyExamples.sample_yx ∧
  Serialization.wf_data KeyExamples.sample_xy ∧
  Serialization.wf_data KeyExamples.sample_yx ∧
  float_gt_int (PrimFloat.sub 1 0)
    (default (LRUCache._default_ttl (LRUCache.init (V:=list Z) 1000 3600)) None) = false ∧
  ∃ m', CacheManager.set_embedding pretty pretty KeyExamples.json_of_key
          KeyExamples.stand_in_hexdigest "motion" KeyExamples.sample_xy
          (Some [1; 2; 3]) None 0%float (CacheManager.init None) = Return () m' ∧
        (CacheManager.get_embedding pretty pretty KeyExamples.json_of_key
           KeyExamples.stand_in_hexdigest "motion" KeyExamples.sample_yx 1%float m').1
        = Some [1; 2; 3].
Proof.
  assert (Serialization.same_data KeyExamples.sample_xy KeyExamples.sample_yx) as Hsame.
  { apply (Serialization.same_dict _ _
             [("x", Serialization.PyAtom 1);
              ("y", Serialization.PyList [Serialization.PyAtom 2; Serialization.PyAtom 3])]).
    - apply Permutation_swap.
    - repeat (constructor; simpl). }
  assert (Serialization.wf_data KeyExamples.sample_xy) as Hwf1.
  { constructor; [apply (bool_decide_unpack _); vm_compute; exact I|].
    repeat (constructor; simpl). }
  assert (Serialization.wf_data KeyExamples.sample_yx) as Hwf2.
  { constructor; [apply (bool_decide_unpack _); vm_compute; exact I|].
    repeat (constructor; simpl). }
  assert (float_gt_int (PrimFloat.sub 1 0)
            (default (LRUCache._default_ttl (LRUCache.init (V:=list Z) 1000 3600)) None)
          = false) as Hfresh
    by (vm_compute; reflexivity).
  assert (1 ≤ LRUCache._max_size (LRUCache.init (V:=list Z) 1000 3600)) as Hmax
    by (simpl; lia).
  split; [reflexivity|]. split; [reflexivity|]. split; [exact Hmax|].
  split; [exact Hsame|]. split; [exact Hwf1|]. split; [exact Hwf2|].
  split; [exact Hfresh|].
  exact (embedding_round_trip pretty pretty KeyExamples.json_of_key
           KeyExamples.stand_in_hexdigest (CacheManager.init None) "motion"
           KeyExamples.sample_xy KeyExamples.sample_yx (Some [1; 2; 3]) None 0%float 1%float
           (LRUCache.init 1000 3600) eq_refl eq_refl Hmax Hsame Hwf1 Hwf2 Hfresh).
Defined.

(** ** cached_encode and the global manager *)

Section CachedEncode_more.
Import Serialization.
Context {V atom : Type}.
Variable str_of_atom : atom → string.
Variable json_of_atom : atom → string.
Variable json_of_key : string → string.
Variable sha256_hexdigest : string → string.

#[local] Abbreviation cached_encode' :=
  (CachedEncode.cached_encode (V:=V) str_of_atom json_of_atom json_of_key sha256_hexdigest).
#[local] Abbreviation lookup' :=
  (CachedEncode.lookup (V:=V) str_of_atom json_of_atom json_of_key sha256_hexdigest).
#[local] Abbreviation key_of :=
  (CacheManager.cache_key str_of_atom json_of_atom json_of_key sha256_hexdigest).

Lemma calls_snoc_func (l : list CachedEncode.event) :
  CachedEncode.calls (l ++ [CachedEncode.EvGetEmbedding; CachedEncode.EvFunc])
  = S (CachedEncode.calls l).
Proof. unfold CachedEncode.calls. rewrite filter_app, length_app. simpl. lia. Qed.

Lemma calls_snoc_other (l : list CachedEncode.event) (e : CachedEncode.event) :
  e ≠ CachedEncode.EvFunc → CachedEncode.calls (l ++ [e]) = CachedEncode.calls l.
Proof.
  intros He. unfold CachedEncode.calls. rewrite filter_app, length_app.
  rewrite filter_cons_False by done. simpl. lia.
Qed.

Lemma get_fields (key : string) (now : float) (s : LRUCache.t V) :
  LRUCache._max_size (LRUCache.get key now s).2 = LRUCache._max_size s ∧
  LRUCache._default_ttl (LRUCache.get key now s).2 = LRUCache._default_ttl s.
Proof.
  unfold LRUCache.get. destruct (od_get key _); [|done].
  by destruct (LRUCache._is_expired key now s).
Qed.

(** X12. With caching disabled, or for an encoder type that has no cache, the
    wrapper is the wrapped function: it calls the function once and returns
    what the function returns or raises what it raises, and the manager
    stays as it was. Every such call is counted as a cache miss in the
    metrics. *)
Theorem cached_encode_pass_through (encoder_type : string)
    (func : pydata atom → pyexn + option V) (data : pydata atom) (now_get now_set : float)
    (w : CachedEncode.world V) (m : CacheManager.t V) :
  (CachedEncode.get_cache w).1 = m →
  CacheManager._enabled m = false ∨ CacheManager._caches m !! encoder_type = None →
  let r := cached_encode' encoder_type func data now_get now_set w in
  let w' := state_after w r in
  returned r = (match func data with inr x => Some x | inl _ => None end) ∧
  raised r = (match func data with inl e => Some e | inr _ => None end) ∧
  CachedEncode.cache_manager w' = Some m ∧
  CachedEncode.calls (CachedEncode.log w') = S (CachedEncode.calls (CachedEncode.log w)) ∧
  MetricsCollector._cache_misses (CachedEncode.metrics w')
  = MetricsCollector._cache_misses (CachedEncode.metrics w) + 1 ∧
  MetricsCollector._cache_hits (CachedEncode.metrics w')
  = MetricsCollector._cache_hits (CachedEncode.metrics w).
Proof.
  intros Hm Hoff r w'. subst r w'. unfold CachedEncode.cached_encode.
  destruct (get_cache_log w) as [Hlog Hmet].
  destruct (CachedEncode.get_cache w) as [cache w0]. simpl in Hm, Hlog, Hmet. subst cache.
  assert (∀ d now, CacheManager.get_embedding str_of_atom json_of_atom json_of_key
                     sha256_hexdigest encoder_type d now m = (None, m)) as Hget.
  { intros d now. unfold CacheManager.get_embedding.
    destruct Hoff as [-> | Hnone]; [done|]. rewrite Hnone. by destruct (negb _). }
  assert (∀ d x ttl now, CacheManager.set_embedding str_of_atom json_of_atom json_of_key
                     sha256_hexdigest encoder_type d x ttl now m = Return () m) as Hset.
  { intros d x ttl now. unfold CacheManager.set_embedding.
    destruct Hoff as [-> | Hnone]; [done|]. rewrite Hnone. by destruct (negb _). }
  rewrite Hget. simpl. rewrite Hlog, Hmet.
  destruct (func data) as [e|[result|]]; simpl.
  - by rewrite calls_snoc_func.
  - rewrite Hset. simpl. rewrite calls_snoc_other, calls_snoc_func by done. done.
  - by rewrite calls_snoc_func.
Qed.

Lemma cached_encode_miss_stores (encoder_type : string)
    (func : pydata atom → pyexn + option V) (d1 : pydata atom) (now_get now_set : float)
    (w : CachedEncode.world V) (m : CacheManager.t V) (cache : LRUCache.t V) (result : V) :
  (CachedEncode.get_cache w).1 = m →
  CacheManager._enabled m = true →
  CacheManager._caches m !! encoder_type = Some cache →
  1 ≤ LRUCache._max_size cache →
  (lookup' encoder_type d1 now_get w).1 = None →
  func d1 = inr (Some result) →
  ∃ s2, LRUCache._default_ttl s2 = LRUCache._default_ttl cache ∧
    cached_encode' encoder_type func d1 now_get now_set w
    = Return (Some result)
        (CachedEncode.mk_world
           (Some (CacheManager.mk
                    (<[encoder_type :=
                         LRUCache.store (key_of encoder_type d1) (Some result) None now_set s2]>
                       (CacheManager._caches m)) true))
           (MetricsCollector.record_cache_miss (CachedEncode.metrics w))
           ((CachedEncode.log w ++ [CachedEncode.EvGetEmbedding; CachedEncode.EvFunc])
            ++ [CachedEncode.EvSetEmbedding])).
Proof.
  intros Hm Hen Hc Hmax Hmiss Hfunc. revert Hmiss.
  unfold CachedEncode.lookup, CachedEncode.cached_encode.
  destruct (get_cache_log w) as [Hlog Hmet].
  destruct (CachedEncode.get_cache w) as [m0 w0]. simpl in Hm, Hlog, Hmet. subst m0.
  simpl. unfold CacheManager.get_embedding.
  rewrite Hen, Hc. simpl. intros Hmiss. rewrite Hmiss, Hfunc.
  unfold CacheManager.set_embedding. simpl. rewrite lookup_insert_eq.
  destruct (get_fields (key_of encoder_type d1) now_get cache) as [Hsize Httl].
  destruct (set_returns (key_of encoder_type d1) (Some result) None now_set
              (LRUCache.get (key_of encoder_type d1) now_get cache).2)
    as (s2 & -> & _ & _ & _ & Hd & _); [by rewrite Hsize|].
  exists s2. split; [by rewrite Hd, Httl|].
  simpl. by rewrite insert_insert_eq, Hlog, Hmet.
Qed.

(** X13. The wrapper memoizes. When the lookup misses and the wrapped function
    returns an embedding, the wrapper stores it, and a second call within
    the default ttl, with the same input up to the order of the keys of its
    mappings, returns that embedding without a call of the wrapped
    function. The metrics count one miss and one hit. Caching has to be
    enabled, and the cache of the encoder type has to exist with a capacity
    of one or more. *)
Theorem cached_encode_memoizes (encoder_type : string)
    (func func' : pydata atom → pyexn + option V) (d1 d2 : pydata atom)
    (now_get now_set now_get' now_set' : float)
    (w : CachedEncode.world V) (m : CacheManager.t V) (cache : LRUCache.t V) (result : V) :
  (CachedEncode.get_cache w).1 = m →
  CacheManager._enabled m = true →
  CacheManager._caches m !! encoder_type = Some cache →
  1 ≤ LRUCache._max_size cache →
  (lookup' encoder_type d1 now_get w).1 = None →
  func d1 = inr (Some result) →
  same_data d1 d2 → wf_data d1 → wf_data d2 →
  float_gt_int (PrimFloat.sub now_get' now_set) (LRUCache._default_ttl cache) = false →
  let first := cached_encode' encoder_type func d1 now_get now_set w in
  let w1 := state_after w first in
  let second := cached_encode' encoder_type func' d2 now_get' now_set' w1 in
  let w2 := state_after w1 second in
  returned first = Some (Some result) ∧
  returned second = Some (Some result) ∧
  CachedEncode.calls (CachedEncode.log w1) = S (CachedEncode.calls (CachedEncode.log w)) ∧
  CachedEncode.calls (CachedEncode.log w2) = CachedEncode.calls (CachedEncode.log w1) ∧
  MetricsCollector._cache_misses (CachedEncode.metrics w2)
  = MetricsCollector._cache_misses (CachedEncode.metrics w) + 1 ∧
  MetricsCollector._cache_hits (CachedEncode.metrics w2)
  = MetricsCollector._cache_hits (CachedEncode.metrics w) + 1.
Proof.
  intros Hm Hen Hc Hmax Hmiss Hfunc Hsame Hwf1 Hwf2 Hfresh first w1 second w2.
  destruct (cached_encode_miss_stores encoder_type func d1 now_get now_set w m cache
              result Hm Hen Hc Hmax Hmiss Hfunc) as (s2 & Hd & Hfirst).
  subst w2 second w1 first. rewrite Hfirst. simpl.
  unfold CachedEncode.cached_encode, CachedEncode.get_cache. simpl.
  unfold CacheManager.get_embedding. simpl. rewrite lookup_insert_eq. simpl.
  replace (key_of encoder_type d2) with (key_of encoder_type d1).
  2:{ unfold CacheManager.cache_key, _generate_cache_key, combined.
      by rewrite (serialize_same_data str_of_atom json_of_atom json_of_key d1 d2). }
  rewrite (get_store_fresh (key_of encoder_type d1) (Some result) None now_set now_get' s2).
  2:{ simpl. by rewrite Hd. }
  simpl. rewrite !calls_snoc_other, calls_snoc_func by done.
  split_and!; done.
Qed.

(** X14. In a cache without capacity nothing can be stored, and the wrapper
    does not return what the wrapped function computed: when the function
    returns an embedding, the store raises [StopIteration], and so does
    the wrapper. *)
Theorem cached_encode_without_capacity (encoder_type : string)
    (func : pydata atom → pyexn + option V) (data : pydata atom) (now_get now_set : float)
    (w : CachedEncode.world V) (m : CacheManager.t V) (cache : LRUCache.t V) (result : V) :
  (CachedEncode.get_cache w).1 = m →
  CacheManager._enabled m = true →
  CacheManager._caches m !! encoder_type = Some cache →
  LRUCache._max_size cache ≤ 0 →
  (lookup' encoder_type data now_get w).1 = None →
  func data = inr (Some result) →
  let r := cached_encode' encoder_type func data now_get now_set w in
  raised r = Some StopIteration ∧
  returned r = None ∧
  CachedEncode.calls (CachedEncode.log (state_after w r))
  = S (CachedEncode.calls (CachedEncode.log w)).
Proof.
  intros Hm Hen Hc Hmax Hmiss Hfunc r. subst r. revert Hmiss.
  unfold CachedEncode.lookup, CachedEncode.cached_encode.
  destruct (get_cache_log w) as [Hlog Hmet].
  destruct (CachedEncode.get_cache w) as [m0 w0]. simpl in Hm, Hlog, Hmet. subst m0.
  simpl. unfold CacheManager.get_embedding.
  rewrite Hen, Hc. simpl. intros Hmiss. rewrite Hmiss, Hfunc.
  unfold CacheManager.set_embedding. simpl. rewrite lookup_insert_eq.
  destruct (get_fields (key_of encoder_type data) now_get cache) as [Hsize Httl].
  destruct (set_raises (key_of encoder_type data) (Some result) None now_set
              (LRUCache.get (key_of encoder_type data) now_get cache).2)
    as (s' & -> & _); [by rewrite Hsize|].
  simpl. rewrite Hlog, calls_snoc_other, calls_snoc_func by done. done.
Qed.

(** X15. [init_cache] discards what was cached: after it, whatever the
    configuration, the encoder type and the input, the lookup of the
    wrapper misses and the wrapped function is called. *)
Theorem init_cache_discards (cfg : option CacheManager.config) (encoder_type : string)
    (func : pydata atom → pyexn + option V) (data : pydata atom) (now_get now_set : float)
    (w : CachedEncode.world V) :
  let w0 := (init_cache cfg w).2 in
  let r := cached_encode' encoder_type func data now_get now_set w0 in
  (lookup' encoder_type data now_get w0).1 = None ∧
  CachedEncode.calls (CachedEncode.log (state_after w0 r))
  = S (CachedEncode.calls (CachedEncode.log w)) ∧
  (∀ e, func data = inl e → raised r = Some e) ∧
  (func data = inr None → returned r = Some None).
Proof.
  intros w0 r.
  assert ((lookup' encoder_type data now_get w0).1 = None) as Hmiss.
  { subst w0. unfold CachedEncode.lookup, init_cache, CachedEncode.get_cache. simpl.
    unfold CacheManager.get_embedding. destruct (negb _); [done|].
    destruct (CacheManager._caches _ !! encoder_type) as [cache|] eqn:Hc; [|done].
    simpl. unfold CacheManager.init in Hc. simpl in Hc.
    repeat (apply lookup_insert_Some in Hc as [[_ <-]|[_ Hc]]; [done|]).
    by rewrite lookup_empty in Hc. }
  split; [exact Hmiss|]. revert Hmiss. subst r.
  unfold CachedEncode.lookup, CachedEncode.cached_encode.
  replace (CachedEncode.get_cache w0) with (CacheManager.init (V:=V) cfg, w0) by done.
  simpl. intros ->.
  destruct (func data) as [e|[result|]]; simpl.
  - rewrite calls_snoc_func. split_and!; [done| by intros ? [= ->] | done].
  - pose proof (set_embedding_total str_of_atom json_of_atom json_of_key sha256_hexdigest
      (CacheManager.get_embedding str_of_atom json_of_atom json_of_key sha256_hexdigest
         encoder_type data now_get (CacheManager.init cfg)).2
      encoder_type data (Some result) None now_set) as Htotal.
    destruct (CacheManager.set_embedding _ _ _ _ _ _ _ _ _ _); simpl; [| |done];
      rewrite calls_snoc_other, calls_snoc_func by done; done.
  - rewrite calls_snoc_func. split_and!; [done| done | done].
Qed.
End CachedEncode_more.

Lemma cached_encode_pass_through_witness :
  (CachedEncode.get_cache ManagerExamples.disabled_world).1 = KeyExamples.disabled ∧
  (CacheManager._enabled KeyExamples.disabled = false ∨
   CacheManager._caches KeyExamples.disabled !! "motion" = None) ∧
  returned (CachedEncode.cached_encode pretty pretty KeyExamples.json_of_key
              KeyExamples.stand_in_hexdigest "motion" WrapperExamples.answering
              KeyExamples.sample_xy 0%float 0%float ManagerExamples.disabled_world)
  = Some (Some [1; 2; 3]).
Proof.
  assert (CacheManager._enabled KeyExamples.disabled = false ∨
          CacheManager._caches KeyExamples.disabled !! "motion" = None) as Hoff
    by (left; reflexivity).
  split; [reflexivity|]. split; [exact Hoff|].
  destruct (cached_encode_pass_through pretty pretty KeyExamples.json_of_key
              KeyExamples.stand_in_hexdigest "motion" WrapperExamples.answering
              KeyExamples.sample_xy 0%float 0%float ManagerExamples.disabled_world
              KeyExamples.disabled eq_refl Hoff) as (Hret & _).
  exact Hret.
Defined.

Lemma cached_encode_memoizes_witness :
  let first := CachedEncode.cached_encode pretty pretty KeyExamples.json_of_key
                 KeyExamples.stand_in_hexdigest "motion" WrapperExamples.answering
                 KeyExamples.sample_xy 0%float 0%float WrapperExamples.fresh_world in
  let second := CachedEncode.cached_encode pretty pretty KeyExamples.json_of_key
                  KeyExamples.stand_in_hexdigest "motion" WrapperExamples.failing
                  KeyExamples.sample_yx 1%float 1%float
                  (state_after WrapperExamples.fresh_world first) in
  (CachedEncode.get_cache WrapperExamples.fresh_world).1 = CacheManager.init None ∧
  CacheManager._enabled (CacheManager.init (V:=list Z) None) = true ∧
  CacheManager._caches (CacheManager.init (V:=list Z) None) !! "motion"
    = Some (LRUCache.init 1000 3600) ∧
  1 ≤ LRUCache._max_size (LRUCache.init (V:=list Z) 1000 3600) ∧
  (CachedEncode.lookup pretty pretty KeyExamples.json_of_key KeyExamples.stand_in_hexdigest
     "motion" KeyExamples.sample_xy 0%float WrapperExamples.fresh_world).1 = None ∧
  WrapperExamples.answering KeyExamples.sample_xy = inr (Some [1; 2; 3]) ∧
  Serialization.same_data KeyExamples.sample_xy KeyExamples.sample_yx ∧
  Serialization.wf_data KeyExamples.sample_xy ∧
  Serialization.wf_data KeyExamples.sample_yx ∧
  float_gt_int (PrimFloat.sub 1 0)
    (LRUCache._default_ttl (LRUCache.init (V:=list Z) 1000 3600)) = false ∧
  returned second = Some (Some [1; 2; 3]) ∧
  CachedEncode.calls (CachedEncode.log (state_after
      (state_after WrapperExamples.fresh_world first) second)) = 1%nat.
Proof.
  intros first second.
  assert (Serialization.same_data KeyExamples.sample_xy KeyExamples.sample_yx) as Hsame.
  { apply (Serialization.same_dict _ _
             [("x", Serialization.PyAtom 1);
              ("y", Serialization.PyList [Serialization.PyAtom 2; Serialization.PyAtom 3])]).
    - apply Permutation_swap.
    - repeat (constructor; simpl). }
  assert (Serialization.wf_data KeyExamples.sample_xy) as Hwf1.
  { constructor; [apply (bool_decide_unpack _); vm_compute; exact I|].
    repeat (constructor; simpl). }
  assert (Serialization.wf_data KeyExamples.sample_yx) as Hwf2.
  { constructor; [apply (bool_decide_unpack _); vm_compute; exact I|].
    repeat (constructor; simpl). }
  assert (float_gt_int (PrimFloat.sub 1 0)
            (LRUCache._default_ttl (LRUCache.init (V:=list Z) 1000 3600)) = false) as Hfresh
    by (vm_compute; reflexivity).
  assert (1 ≤ LRUCache._max_size (LRUCache.init (V:=list Z) 1000 3600)) as Hmax
    by (simpl; lia).
  assert ((CachedEncode.lookup pretty pretty KeyExamples.json_of_key
             KeyExamples.stand_in_hexdigest "motion" KeyExamples.sample_xy 0%float
             WrapperExamples.fresh_world).1 = None) as Hmiss by (vm_compute; reflexivity).
  split; [reflexivity|]. split; [reflexivity|]. split; [reflexivity|].
  split; [exact Hmax|]. split; [exact Hmiss|]. split; [reflexivity|].
  split; [exact Hsame|]. split; [exact Hwf1|]. split; [exact Hwf2|].
  split; [exact Hfresh|].
  destruct (cached_encode_memoizes pretty pretty KeyExamples.json_of_key
              KeyExamples.stand_in_hexdigest "motion" WrapperExamples.answering
              WrapperExamples.failing KeyExamples.sample_xy KeyExamples.sample_yx
              0%float 0%float 1%float 1%float WrapperExamples.fresh_world (CacheManager.init None)
              (LRUCache.init 1000 3600) [1; 2; 3]
              eq_refl eq_refl eq_refl Hmax Hmiss eq_refl Hsame Hwf1 Hwf2 Hfresh)
    as (_ & Hsecond & Hc1 & Hc2 & _).
  split; [exact Hsecond|]. subst first second. rewrite Hc2, Hc1. reflexivity.
Defined.

Lemma cached_encode_without_capacity_witness :
  (CachedEncode.get_cache ManagerExamples.no_capacity_world).1 = ManagerExamples.no_capacity ∧
  CacheManager._enabled ManagerExamples.no_capacity = true ∧
  CacheManager._caches ManagerExamples.no_capacity !! "motion" = Some (LRUCache.init 0 3600) ∧
  LRUCache._max_size (LRUCache.init (V:=list Z) 0 3600) ≤ 0 ∧
  (CachedEncode.lookup pretty pretty KeyExamples.json_of_key KeyExamples.stand_in_hexdigest
     "motion" KeyExamples.sample_xy 0%float ManagerExamples.no_capacity_world).1 = None ∧
  WrapperExamples.answering KeyExamples.sample_xy = inr (Some [1; 2; 3]) ∧
  raised (CachedEncode.cached_encode pretty pretty KeyExamples.json_of_key
            KeyExamples.stand_in_hexdigest "motion" WrapperExamples.answering
            KeyExamples.sample_xy 0%float 0%float ManagerExamples.no_capacity_world)
  = Some StopIteration.
Proof.
  assert (LRUCache._max_size (LRUCache.init (V:=list Z) 0 3600) ≤ 0) as Hmax
    by (simpl; lia).
  assert ((CachedEncode.lookup pretty pretty KeyExamples.json_of_key
             KeyExamples.stand_in_hexdigest "motion" KeyExamples.sample_xy 0%float
             ManagerExamples.no_capacity_world).1 = None) as Hmiss
    by (vm_compute; reflexivity).
  split; [reflexivity|]. split; [reflexivity|]. split; [reflexivity|].
  split; [exact Hmax|]. split; [exact Hmiss|]. split; [reflexivity|].
  destruct (cached_encode_without_capacity pretty pretty KeyExamples.json_of_key
              KeyExamples.stand_in_hexdigest "motion" WrapperExamples.answering
              KeyExamples.sample_xy 0%float 0%float ManagerExamples.no_capacity_world
              ManagerExamples.no_capacity (LRUCache.init 0 3600) [1; 2; 3]
              eq_refl eq_refl eq_refl Hmax Hmiss eq_refl) as (Hraise & _).
  exact Hraise.
Defined.

(** ** MetricsCollector: counters and series *)

Section MetricsCollector_more.
Implicit Types (s : MetricsCollector.t) (o : MetricsCollector.op)
  (ops : list MetricsCollector.op).

Lemma metrics_run_snoc ops o s :
  MetricsCollector.run (ops ++ [o]) s = MetricsCollector.exec o (MetricsCollector.run ops s).
Proof. unfold MetricsCollector.run. by rewrite foldl_app. Qed.

Lemma since_reset_snoc ops o :
  since_reset (ops ++ [o])
  = match o with MetricsCollector.OpReset _ => [] | _ => since_reset ops ++ [o] end.
Proof. unfold since_reset. by rewrite foldl_app. Qed.

Lemma count_ops_snoc f ops o :
  count_ops f (ops ++ [o]) = count_ops f ops + (if f o then 1 else 0).
Proof.
  unfold count_ops. rewrite filter_app, length_app.
  destruct (f o) eqn:E.
  - rewrite filter_cons_True by done. simpl. lia.
  - rewrite filter_cons_False by (by rewrite E). simpl. lia.
Qed.

Lemma lookup_incr (k key : string) (d : gmap string Z) :
  default 0 (MetricsCollector.incr k d !! key)
  = default 0 (d !! key) + (if bool_decide (k = key) then 1 else 0).
Proof.
  unfold MetricsCollector.incr. destruct (decide (k = key)) as [->|Hne].
  - by rewrite lookup_insert_eq, bool_decide_eq_true_2.
  - rewrite lookup_insert_ne, bool_decide_eq_false_2 by done. lia.
Qed.

Lemma get_metrics_fields (clock : nat → Qc) s :
  let s' := state_after s (MetricsCollector.get_metrics clock s) in
  MetricsCollector._request_count s'
  = <["total" := default 0 (MetricsCollector._request_count s !! "total")]>
      (MetricsCollector._request_count s) ∧
  MetricsCollector._status_count s' = MetricsCollector._status_count s ∧
  MetricsCollector._error_count s' = MetricsCollector._error_count s ∧
  MetricsCollector._cache_hits s' = MetricsCollector._cache_hits s ∧
  MetricsCollector._cache_misses s' = MetricsCollector._cache_misses s ∧
  MetricsCollector._latencies s'
  = <["all" := default [] (MetricsCollector._latencies s !! "all")]>
      (MetricsCollector._latencies s) ∧
  MetricsCollector._inference_times s' = MetricsCollector._inference_times s ∧
  MetricsCollector._active_requests s' = MetricsCollector._active_requests s ∧
  MetricsCollector._peak_active_requests s' = MetricsCollector._peak_active_requests s ∧
  MetricsCollector._max_latency_samples s' = MetricsCollector._max_latency_samples s.
Proof.
  unfold MetricsCollector.get_metrics. cbv zeta.
  destruct (MetricsCollector._calculate_percentiles _); [|done].
  destruct (MetricsCollector.summarize (delete _ _)); [|done].
  by destruct (MetricsCollector.summarize _).
Qed.

(** The counters after a run, by the operations since the last [reset]. *)
Lemma run_counters (clock : nat → Qc) ops :
  let s := MetricsCollector.run ops (MetricsCollector.init clock) in
  let rs := since_reset ops in
  (∀ key, default 0 (MetricsCollector._request_count s !! key)
          = count_ops (is_end (λ e _, bool_decide (e = key))) rs
            + (if bool_decide ("total" = key) then count_ops (is_end (λ _ _, true)) rs else 0)) ∧
  (∀ code : Z, default 0 (MetricsCollector._status_count s !! pretty code)
               = count_ops (is_end (λ _ c, bool_decide (c = code))) rs) ∧
  (∀ key, default 0 (MetricsCollector._error_count s !! key)
          = count_ops (is_end (λ e c, bool_decide (400 ≤ c) && bool_decide (e = key))) rs
            + (if bool_decide ("total" = key)
               then count_ops (is_end (λ _ c, bool_decide (400 ≤ c))) rs else 0)) ∧
  MetricsCollector._cache_hits s = count_ops is_cache_hit rs ∧
  MetricsCollector._cache_misses s = count_ops is_cache_miss rs.
Proof.
  induction ops as [|o ops IH] using rev_ind.
  - simpl. split_and!; try done; intros key; rewrite lookup_empty; simpl;
      unfold count_ops; simpl; by destruct (bool_decide _).
  - cbv zeta in IH |- *. rewrite metrics_run_snoc, since_reset_snoc.
    destruct IH as (Hreq & Hstat & Herr & Hhit & Hmiss).
    set (s := MetricsCollector.run ops (MetricsCollector.init clock)) in *.
    destruct o as [|endpoint status_code latency_ms|model_type time_ms| | |clock'|now];
      try (simpl; split_and!; [intros key|intros code|intros key| |];
           rewrite !count_ops_snoc; simpl; rewrite ?Hreq, ?Hstat, ?Herr;
           try destruct (bool_decide _); lia).
    + simpl. split_and!.
      * intros key. rewrite !lookup_incr, Hreq, !count_ops_snoc. simpl.
        destruct (bool_decide ("total" = key)), (bool_decide (endpoint = key)); lia.
      * intros code. rewrite lookup_incr, Hstat, count_ops_snoc. simpl.
        destruct (decide (status_code = code)) as [->|Hne].
        -- by rewrite !bool_decide_eq_true_2.
        -- rewrite !bool_decide_eq_false_2; [done|done|].
           intros Heq. by apply (inj pretty) in Heq.
      * intros key. rewrite !count_ops_snoc. simpl.
        destruct (bool_decide (400 ≤ status_code)); simpl.
        -- rewrite !lookup_incr, Herr.
           destruct (bool_decide ("total" = key)), (bool_decide (endpoint = key)); lia.
        -- rewrite Herr. destruct (bool_decide ("total" = key)); lia.
      * rewrite count_ops_snoc. simpl. lia.
      * rewrite count_ops_snoc. simpl. lia.
    + cbn [MetricsCollector.exec].
      destruct (get_metrics_fields clock' s) as (-> & -> & -> & -> & -> & _).
      split_and!; [intros key|intros code|intros key| |];
        rewrite !count_ops_snoc; simpl; rewrite ?Hstat, ?Herr;
        [|lia|destruct (bool_decide _); lia|lia|lia].
      destruct (decide ("total" = key)) as [<-|Hne].
      * rewrite lookup_insert_eq. simpl. rewrite Hreq.
        rewrite (bool_decide_eq_true_2 ("total" = "total")) by done. lia.
      * rewrite lookup_insert_ne by done. rewrite Hreq. destruct (bool_decide _); lia.
    + simpl. unfold count_ops. simpl.
      split_and!; try done; intros key; rewrite lookup_empty; simpl;
        by destruct (bool_decide _).
Qed.

(** X16. The counters count. After any run on a new collector, and for the
    operations since the last [reset]: the request count of a key is the
    number of requests that ended on that endpoint, and under [total] the
    number of all requests besides; the count of a status code is the number
    of requests that ended with it; the error counts are the same counts of
    the requests with a status of 400 or more; the cache counters are the
    numbers of recorded hits and misses. Reading the metrics changes none
    of them, and [get_metrics] reports them: its total is the number of
    requests, counted twice for an endpoint that is itself named [total],
    and its count by endpoint always has the entry [total]. *)
Theorem counters_count (clock clock' : nat → Qc) ops :
  let s := MetricsCollector.run ops (MetricsCollector.init clock) in
  let rs := since_reset ops in
  (∀ key, default 0 (MetricsCollector._request_count s !! key)
          = count_ops (is_end (λ e _, bool_decide (e = key))) rs
            + (if bool_decide ("total" = key) then count_ops (is_end (λ _ _, true)) rs else 0)) ∧
  (∀ code : Z, default 0 (MetricsCollector._status_count s !! pretty code)
               = count_ops (is_end (λ _ c, bool_decide (c = code))) rs) ∧
  (∀ key, default 0 (MetricsCollector._error_count s !! key)
          = count_ops (is_end (λ e c, bool_decide (400 ≤ c) && bool_decide (e = key))) rs
            + (if bool_decide ("total" = key)
               then count_ops (is_end (λ _ c, bool_decide (400 ≤ c))) rs else 0)) ∧
  MetricsCollector._cache_hits s = count_ops is_cache_hit rs ∧
  MetricsCollector._cache_misses s = count_ops is_cache_miss rs ∧
  ∃ snap s',
    MetricsCollector.get_metrics clock' s = Return snap s' ∧
    MetricsCollector.requests_total snap
    = count_ops (is_end (λ e _, bool_decide (e = "total"))) rs
      + count_ops (is_end (λ _ _, true)) rs ∧
    MetricsCollector.requests_by_endpoint snap !! "total"
    = Some (MetricsCollector.requests_total snap) ∧
    MetricsCollector.cache_hits snap = count_ops is_cache_hit rs ∧
    MetricsCollector.cache_misses snap = count_ops is_cache_miss rs.
Proof.
  intros s rs.
  destruct (run_counters clock ops) as (Hreq & Hstat & Herr & Hhit & Hmiss).
  fold s rs in Hreq, Hstat, Herr, Hhit, Hmiss.
  split_and!; try done.
  destruct (get_metrics_returns clock clock' ops) as (snap & s' & Hget & _).
  fold s in Hget. exists snap, s'. split; [done|]. revert Hget.
  unfold MetricsCollector.get_metrics. cbv zeta.
  destruct (MetricsCollector._calculate_percentiles _) as [overall|]; [|done].
  destruct (MetricsCollector.summarize (delete _ _)) as [by_endpoint|]; [|done].
  destruct (MetricsCollector.summarize (MetricsCollector._inference_times s))
    as [inference|]; [|done].
  intros [= <- _].
  cbn [MetricsCollector.requests_total MetricsCollector.requests_by_endpoint
       MetricsCollector.cache_hits MetricsCollector.cache_misses].
  rewrite !lookup_insert_eq. cbn [default from_option id].
  rewrite Hreq, (bool_decide_eq_true_2 ("total" = "total")) by done.
  split_and!; done.
Qed.
End MetricsCollector_more.

Section MetricsCollector_series.
Implicit Types (s : MetricsCollector.t) (o : MetricsCollector.op)
  (ops : list MetricsCollector.op) (d : gmap string (list Qc)) (l xs : list Qc).

Lemma last_n_short {A} (n : nat) (l : list A) : (length l ≤ n)%nat → last_n n l = l.
Proof. intros Hl. unfold last_n. by replace (length l - n)%nat with 0%nat by lia. Qed.

Lemma last_n_app {A} (n : nat) (l xs : list A) :
  last_n n (last_n n l ++ xs) = last_n n (l ++ xs).
Proof.
  destruct (decide (length l ≤ n)%nat) as [Hl|Hl]; [by rewrite (last_n_short n l)|].
  unfold last_n. rewrite !length_app, length_drop.
  replace (length l - (length l - n) + length xs - n)%nat with (length xs) by lia.
  replace (length l + length xs - n)%nat with (length l - n + length xs)%nat by lia.
  rewrite <- drop_drop. f_equal. rewrite drop_app_le by lia. done.
Qed.

Lemma last_n_idemp {A} (n : nat) (l : list A) : last_n n (last_n n l) = last_n n l.
Proof.
  pose proof (last_n_app n l []) as H. by rewrite !app_nil_r in H.
Qed.

Lemma trimmed_last_n l :
  (if bool_decide (1000 < Z.of_nat (length l)) then MetricsCollector.slice_last 1000 l else l)
  = last_n 1000 l.
Proof.
  case_bool_decide as Hl.
  - unfold MetricsCollector.slice_last, last_n.
    rewrite bool_decide_eq_true_2 by done. f_equal. lia.
  - rewrite last_n_short; [done|lia].
Qed.

Lemma default_trim key key' d :
  default [] (MetricsCollector.trim 1000 key d !! key')
  = if decide (key = key') then last_n 1000 (default [] (d !! key))
    else default [] (d !! key').
Proof.
  rewrite lookup_trim. case_decide; [|done]. simpl. apply trimmed_last_n.
Qed.

Lemma default_append_sample key key' (x : Qc) d :
  default [] (MetricsCollector.append_sample key x d !! key')
  = default [] (d !! key') ++ (if decide (key = key') then [x] else []).
Proof.
  rewrite lookup_append_sample. case_decide; subst; simpl; [done|].
  by rewrite app_nil_r.
Qed.

Lemma latency_samples_snoc key ops o :
  latency_samples key (ops ++ [o])
  = match o with
    | MetricsCollector.OpReset _ => []
    | MetricsCollector.OpRequestEnd endpoint _ latency_ms =>
        latency_samples key ops
          ++ (if decide (endpoint = key) then [latency_ms] else [])
          ++ (if decide ("all" = key) then [latency_ms] else [])
    | _ => latency_samples key ops
    end.
Proof. unfold latency_samples. by rewrite foldl_app. Qed.

Lemma inference_samples_snoc key ops o :
  inference_samples key (ops ++ [o])
  = match o with
    | MetricsCollector.OpReset _ => []
    | MetricsCollector.OpInferenceTime model_type time_ms =>
        inference_samples key ops ++ (if decide (model_type = key) then [time_ms] else [])
    | _ => inference_samples key ops
    end.
Proof. unfold inference_samples. by rewrite foldl_app. Qed.

(** X17. The series are sliding windows. After any run on a new collector, the
    latency series of a key holds the last 1000 of the latencies that the
    requests since the last [reset] have added to it, in the order in which
    they were recorded, and the inference series of a model type the last
    1000 of its recorded times: the oldest samples are the ones dropped.
    Every request adds its latency to the series of its endpoint and to the
    series [all]. *)
Theorem series_hold_latest_samples (clock : nat → Qc) ops (key : string) :
  let s := MetricsCollector.run ops (MetricsCollector.init clock) in
  default [] (MetricsCollector._latencies s !! key)
  = last_n 1000 (latency_samples key ops) ∧
  default [] (MetricsCollector._inference_times s !! key)
  = last_n 1000 (inference_samples key ops).
Proof.
  induction ops as [|o ops IH] using rev_ind.
  { cbn. by rewrite !lookup_empty. }
  cbv zeta in IH |- *.
  rewrite metrics_run_snoc, latency_samples_snoc, inference_samples_snoc.
  destruct (series_bounded_run ops clock) as (Hn & _).
  destruct IH as [Hlat Hinf].
  set (s := MetricsCollector.run ops (MetricsCollector.init clock)) in *.
  destruct o as [|endpoint status_code latency_ms|model_type time_ms| | |clock'|now];
    try done.
  - split; [|done]. cbn [MetricsCollector.exec MetricsCollector.record_request_end
                         MetricsCollector._latencies]. rewrite Hn.
    rewrite !default_trim, !default_append_sample.
    destruct (decide ("all" = key)) as [Ha|Ha], (decide (endpoint = key)) as [He|He];
      subst; repeat (rewrite ?decide_True, ?decide_False by done); rewrite ?Hlat.
    + rewrite last_n_idemp, <- app_assoc. apply last_n_app.
    + rewrite app_nil_r. simpl. apply last_n_app.
    + rewrite app_nil_r. apply last_n_app.
    + rewrite !app_nil_r. done.
  - split; [done|]. cbn [MetricsCollector.exec MetricsCollector.record_inference_time
                         MetricsCollector._inference_times]. rewrite Hn.
    rewrite default_trim, !default_append_sample.
    destruct (decide (model_type = key)) as [He|He]; subst;
      repeat (rewrite ?decide_True, ?decide_False by done); rewrite ?Hinf.
    + apply last_n_app.
    + by rewrite !app_nil_r.
  - cbn [MetricsCollector.exec].
    destruct (get_metrics_fields clock' s) as (_ & _ & _ & _ & _ & -> & -> & _).
    split; [|done]. destruct (decide ("all" = key)) as [<-|Hne].
    + rewrite lookup_insert_eq. done.
    + rewrite lookup_insert_ne by done. done.
Qed.

(** X18. No series ever holds more than 1000 samples, whatever is recorded. *)
Theorem samples_never_exceed_limit (clock : nat → Qc) ops (key : string) (series : list Qc) :
  let s := MetricsCollector.run ops (MetricsCollector.init clock) in
  MetricsCollector._latencies s !! key = Some series ∨
  MetricsCollector._inference_times s !! key = Some series →
  (length series ≤ 1000)%nat.
Proof.
  intros s Hk. destruct (series_bounded_run ops clock) as (_ & Hlat & Hinf).
  fold s in Hlat, Hinf.
  destruct Hk as [Hk|Hk]; [apply Hlat in Hk | apply Hinf in Hk]; lia.
Qed.

(** X19. The active count is never negative and never above the peak, after any
    run on a new collector: of starts and ends in any number and order, of
    readings and of resets. *)
Theorem active_between_zero_and_peak (clock : nat → Qc) ops :
  let s := MetricsCollector.run ops (MetricsCollector.init clock) in
  0 ≤ MetricsCollector._active_requests s ≤ MetricsCollector._peak_active_requests s.
Proof.
  induction ops as [|o ops IH] using rev_ind; [simpl; lia|].
  cbv zeta in IH |- *. rewrite metrics_run_snoc.
  set (s := MetricsCollector.run ops (MetricsCollector.init clock)) in *.
  destruct o as [|endpoint status_code latency_ms|model_type time_ms| | |clock'|now];
    try (simpl; lia).
  cbn [MetricsCollector.exec].
  destruct (get_metrics_fields clock' s) as (_ & _ & _ & _ & _ & _ & _ & -> & -> & _).
  done.
Qed.
End MetricsCollector_series.

Section MetricsCollector_summary.
Implicit Types (s : MetricsCollector.t) (o : MetricsCollector.op)
  (ops : list MetricsCollector.op) (l series : list Qc).

Lemma StronglySorted_lookup_le l : ∀ (i j : nat) (x y : Qc),
  StronglySorted Qcle l → l !! i = Some x → l !! j = Some y → (i ≤ j)%nat → (x ≤ y)%Qc.
Proof.
  induction l as [|a l IH]; intros i j x y Hs Hi Hj Hij; [done|].
  apply StronglySorted_inv in Hs as [Hs Ha].
  destruct i as [|i], j as [|j]; simplify_eq/=.
  - apply Qcle_refl.
  - rewrite Forall_forall in Ha. by eapply Ha, list_elem_of_lookup_2.
  - lia.
  - eapply (IH i j); eauto with lia.
Qed.

(** X20. The summary of a series is ordered. For every series that
    [get_metrics] summarises in a collector that a run has built, and that
    is not empty: [min <= p50 <= p95 <= p99 <= max]. *)
Theorem percentiles_ordered (clock : nat → Qc) ops series :
  let s := MetricsCollector.run ops (MetricsCollector.init clock) in
  MetricsCollector.summarised s series → series ≠ [] →
  ∃ pc, MetricsCollector._calculate_percentiles series = Some pc ∧
    (MetricsCollector.min pc ≤ MetricsCollector.p50 pc)%Qc ∧
    (MetricsCollector.p50 pc ≤ MetricsCollector.p95 pc)%Qc ∧
    (MetricsCollector.p95 pc ≤ MetricsCollector.p99 pc)%Qc ∧
    (MetricsCollector.p99 pc ≤ MetricsCollector.max pc)%Qc.
Proof.
  intros s Hsum Hne.
  assert (length series ≤ 1000)%nat as Hbound.
  { destruct (series_bounded_run ops clock) as (_ & Hlat & Hinf). fold s in Hlat, Hinf.
    destruct Hsum as [key [Hk|Hk]]; [apply Hlat in Hk | apply Hinf in Hk]; lia. }
  destruct (calculate_percentiles_bounded series Hbound Hne)
    as (pc & Hpc & Hperm & Hsorted & H50 & H95 & H95' & H99 & H99' & _ & Hmax & Hrange).
  exists pc. split; [done|].
  assert (∀ i x, MetricsCollector.sorted series !! i = Some x → x ∈ series) as Hin.
  { intros i x Hx. rewrite <- Hperm. by eapply list_elem_of_lookup_2. }
  assert (0 < length series)%nat as Hpos by (destruct series; [done | simpl; lia]).
  assert (length series / 2 ≤ 95 * length series / 100)%nat as H1.
  { apply Nat.div_le_lower_bound; [lia|].
    pose proof (Nat.Div0.mul_div_le (length series) 2). lia. }
  assert (95 * length series / 100 ≤ 99 * length series / 100)%nat as H2
    by (apply Nat.Div0.div_le_mono; lia).
  split_and!.
  - apply Hrange. by eapply Hin.
  - destruct (decide (20 ≤ length series)%nat) as [H20|H20].
    + eapply StronglySorted_lookup_le; [done|done|by apply H95|done].
    + rewrite H95' by lia. apply Hrange. by eapply Hin.
  - destruct (decide (100 ≤ length series)%nat) as [H100|H100].
    + eapply StronglySorted_lookup_le; [done|apply H95; lia|by apply H99|done].
    + rewrite H99' by lia. destruct (decide (20 ≤ length series)%nat) as [H20|H20].
      * apply Hrange. eapply Hin. by apply H95.
      * rewrite H95' by lia. apply Qcle_refl.
  - destruct (decide (100 ≤ length series)%nat) as [H100|H100].
    + apply Hrange. eapply Hin. by apply H99.
    + rewrite H99' by lia. apply Qcle_refl.
Qed.

(** X21. [get_metrics] never raises on a collector that a run has built: no
    index falls outside a series. And a reading records nothing: a second
    reading, at whatever time, returns the same counts and summaries. *)
Theorem get_metrics_repeatable (clock clock1 clock2 : nat → Qc) ops :
  let s := MetricsCollector.run ops (MetricsCollector.init clock) in
  ∃ snap s1 s2,
    MetricsCollector.get_metrics clock1 s = Return snap s1 ∧
    MetricsCollector.get_metrics clock2 s1 = Return snap s2.
Proof.
  intros s. destruct (get_metrics_returns clock clock1 ops) as (snap & s1 & H1 & _).
  fold s in H1. exists snap, s1. revert H1.
  unfold MetricsCollector.get_metrics at 1. cbv zeta.
  destruct (MetricsCollector._calculate_percentiles _) as [overall|] eqn:E1; [|done].
  destruct (MetricsCollector.summarize (delete _ _)) as [by_endpoint|] eqn:E2; [|done].
  destruct (MetricsCollector.summarize (MetricsCollector._inference_times s))
    as [inference|] eqn:E3; [|done].
  intros [= <- <-]. unfold MetricsCollector.get_metrics. cbv zeta.
  cbn [MetricsCollector._request_count MetricsCollector._latencies
       MetricsCollector._inference_times MetricsCollector._cache_hits
       MetricsCollector._cache_misses MetricsCollector._status_count
       MetricsCollector._error_count MetricsCollector._active_requests
       MetricsCollector._peak_active_requests].
  rewrite !lookup_insert_eq. cbn [default from_option id]. rewrite !insert_insert_eq.
  rewrite lookup_insert_eq in E1. cbn [default from_option id] in E1.
  rewrite E1, E2, E3. eexists. split; reflexivity.
Qed.
End MetricsCollector_summary.

Lemma samples_never_exceed_limit_witness :
  (MetricsCollector._latencies
     (MetricsCollector.run MetricsExamples.three_requests
        (MetricsCollector.init MetricsExamples.clock0)) !! "encode"
   = Some MetricsExamples.three_latencies ∨
   MetricsCollector._inference_times
     (MetricsCollector.run MetricsExamples.three_requests
        (MetricsCollector.init MetricsExamples.clock0)) !! "encode"
   = Some MetricsExamples.three_latencies) ∧
  (length MetricsExamples.three_latencies ≤ 1000)%nat.
Proof.
  assert (MetricsCollector._latencies
            (MetricsCollector.run MetricsExamples.three_requests
               (MetricsCollector.init MetricsExamples.clock0)) !! "encode"
          = Some MetricsExamples.three_latencies ∨
          MetricsCollector._inference_times
            (MetricsCollector.run MetricsExamples.three_requests
               (MetricsCollector.init MetricsExamples.clock0)) !! "encode"
          = Some MetricsExamples.three_latencies) as Hk
    by (left; vm_compute; reflexivity).
  split; [exact Hk|].
  exact (samples_never_exceed_limit MetricsExamples.clock0 MetricsExamples.three_requests
           "encode" MetricsExamples.three_latencies Hk).
Defined.

Lemma percentiles_ordered_witness :
  MetricsCollector.summarised
    (MetricsCollector.run MetricsExamples.three_requests
       (MetricsCollector.init MetricsExamples.clock0))
    MetricsExamples.three_latencies ∧
  MetricsExamples.three_latencies ≠ [] ∧
  ∃ pc, MetricsCollector._calculate_percentiles MetricsExamples.three_latencies = Some pc ∧
        (MetricsCollector.min pc ≤ MetricsCollector.p50 pc)%Qc ∧
        (MetricsCollector.p50 pc ≤ MetricsCollector.p95 pc)%Qc.
Proof.
  assert (MetricsCollector.summarised
            (MetricsCollector.run MetricsExamples.three_requests
               (MetricsCollector.init MetricsExamples.clock0))
            MetricsExamples.three_latencies) as Hsum
    by (exists "all"; left; vm_compute; reflexivity).
  assert (MetricsExamples.three_latencies ≠ []) as Hne by discriminate.
  split; [exact Hsum|]. split; [exact Hne|].
  destruct (percentiles_ordered MetricsExamples.clock0 MetricsExamples.three_requests
              MetricsExamples.three_latencies Hsum Hne)
    as (pc & Hpc & Hmin & H50 & _).
  exists pc. split; [exact Hpc|]. split; [exact Hmin | exact H50].
Defined.

(** ** track_request and track_inference *)

Section Tracking_facts.
Implicit Types (m : MetricsCollector.t) (clock : nat → Qc).

Lemma request_end_counts (name : string) (c : Tracking.status_code) (latency_ms : Qc) m :
  let m' := Tracking.record_request_end name c latency_ms m in
  default 0 (MetricsCollector._request_count m' !! name)
  = default 0 (MetricsCollector._request_count m !! name) + 1
    + (if bool_decide ("total" = name) then 1 else 0) ∧
  default 0 (MetricsCollector._status_count m' !! Tracking.status_str c)
  = default 0 (MetricsCollector._status_count m !! Tracking.status_str c) + 1 ∧
  MetricsCollector._active_requests m' = Z.max 0 (MetricsCollector._active_requests m - 1).
Proof.
  destruct c as [z|b];
    cbn [Tracking.record_request_end MetricsCollector.record_request_end
         MetricsCollector._request_count MetricsCollector._status_count
         MetricsCollector._active_requests];
    (split; [|split; [|done]]).
  - rewrite !lookup_incr, (bool_decide_eq_true_2 (name = name)) by done. lia.
  - cbn [Tracking.status_str]. by rewrite lookup_incr, bool_decide_eq_true_2.
  - rewrite !lookup_incr, (bool_decide_eq_true_2 (name = name)) by done. lia.
  - by rewrite lookup_incr, bool_decide_eq_true_2.
Qed.

(** X23. [track_request] brackets the call of a function that returns or
    raises an [Exception]: it records one start before the wrapped function
    runs and one end after it. The request count of the endpoint then grows
    by one over what the function left, and when the function leaves the
    active count as it found it, so does the wrapper. A result whose status
    code can be read is returned, and the request is counted under
    [str(status_code)], a [bool] under [True] or [False] and never as an
    error. An [Exception], of the function or of reading the status code,
    is raised again, and the request is counted with status 500 and as an
    error. What is raised and is not an [Exception] passes through the
    wrapper with nothing recorded: the collector stays as the function left
    it, its active count not taken back. *)
Theorem track_request_brackets (endpoint_name : option string) (func_name : string)
    (func : MetricsCollector.t → (Tracking.raise_kind + Tracking.response) * MetricsCollector.t)
    clock m :
  let name := Tracking.endpoint_of endpoint_name func_name in
  let ran := func (MetricsCollector.record_request_start m) in
  let r := Tracking.track_request endpoint_name func_name func clock m in
  let failure :=
    match ran.1 with
    | inl e => Some e
    | inr result =>
        match Tracking.status_of result with inl e => Some e | inr _ => None end
    end in
  let ended (key : string) :=
    default 0 (MetricsCollector._request_count r.2 !! name)
    = default 0 (MetricsCollector._request_count ran.2 !! name) + 1
      + (if bool_decide ("total" = name) then 1 else 0) ∧
    default 0 (MetricsCollector._status_count r.2 !! key)
    = default 0 (MetricsCollector._status_count ran.2 !! key) + 1 ∧
    MetricsCollector._active_requests r.2
    = Z.max 0 (MetricsCollector._active_requests ran.2 - 1) ∧
    (0 ≤ MetricsCollector._active_requests m →
     MetricsCollector._active_requests ran.2 = MetricsCollector._active_requests m + 1 →
     MetricsCollector._active_requests r.2 = MetricsCollector._active_requests m) in
  (∀ result code,
     ran.1 = inr result → Tracking.status_of result = inr code →
     r.1 = inr result ∧ ended (Tracking.status_str code) ∧
     (∀ b, code = Tracking.BoolCode b →
        MetricsCollector._error_count r.2 = MetricsCollector._error_count ran.2)) ∧
  (∀ e, failure = Some (Tracking.IsException e) →
     r.1 = inl (Tracking.IsException e) ∧ ended "500" ∧
     default 0 (MetricsCollector._error_count r.2 !! name)
     = default 0 (MetricsCollector._error_count ran.2 !! name) + 1
       + (if bool_decide ("total" = name) then 1 else 0)) ∧
  (∀ n, failure = Some (Tracking.NotException n) →
     r = (inl (Tracking.NotException n), ran.2)).
Proof.
  intros name ran r failure ended. subst ended failure r.
  unfold Tracking.track_request. cbv zeta. fold name. fold ran.
  assert (∀ (e : pyexn) (now : Qc),
    let m' := MetricsCollector.record_request_end name 500 now ran.2 in
    default 0 (MetricsCollector._request_count m' !! name)
    = default 0 (MetricsCollector._request_count ran.2 !! name) + 1
      + (if bool_decide ("total" = name) then 1 else 0) ∧
    default 0 (MetricsCollector._status_count m' !! "500")
    = default 0 (MetricsCollector._status_count ran.2 !! "500") + 1 ∧
    MetricsCollector._active_requests m'
    = Z.max 0 (MetricsCollector._active_requests ran.2 - 1) ∧
    default 0 (MetricsCollector._error_count m' !! name)
    = default 0 (MetricsCollector._error_count ran.2 !! name) + 1
      + (if bool_decide ("total" = name) then 1 else 0)) as H500.
  { intros _ now.
    destruct (request_end_counts name (Tracking.IntCode 500) now ran.2) as (Hc & Hs & Ha).
    split; [exact Hc|]. split; [exact Hs|]. split; [exact Ha|].
    cbn [MetricsCollector.record_request_end MetricsCollector._error_count].
    rewrite (bool_decide_eq_true_2 (400 ≤ 500)) by done.
    rewrite !lookup_incr, !bool_decide_eq_true_2 by done.
    destruct (bool_decide _); lia. }
  destruct ran as [[[e|n]|result] m2]; cbn [fst snd] in *.
  - split; [by intros ? ? [=]|]. split; [|by intros ? [=]].
    intros e' [= <-]. destruct (H500 e ((clock 1%nat - clock 0%nat) * Qc_of_Z 1000)%Qc)
      as (Hc & Hs & Ha & He).
    cbn [fst snd]. split_and!; try done. intros Hpos Hbal. rewrite Ha. lia.
  - split; [by intros ? ? [=]|]. split; [by intros ? [=]|]. by intros n' [= <-].
  - destruct (Tracking.status_of result) as [[e|n]|code] eqn:E.
    + split; [intros ? ? [= <-]; by rewrite E|]. split; [|by intros ? [=]].
      intros e' [= <-]. destruct (H500 e ((clock 2%nat - clock 0%nat) * Qc_of_Z 1000)%Qc)
        as (Hc & Hs & Ha & He).
      cbn [fst snd]. split_and!; try done. intros Hpos Hbal. rewrite Ha. lia.
    + split; [intros ? ? [= <-]; by rewrite E|]. split; [by intros ? [=]|].
      by intros n' [= <-].
    + split; [|split; by intros ? [=]].
      intros result' code' [= <-]. rewrite E. intros [= <-].
      destruct (request_end_counts name code
                  ((clock 1%nat - clock 0%nat) * Qc_of_Z 1000)%Qc m2) as (Hc & Hs & Ha).
      cbn [fst snd]. split_and!; try done.
      * intros Hpos Hbal. rewrite Ha. lia.
      * by intros b ->.
Qed.

(** A response whose second item is [True] is counted under the status
    [True], and not under [1]. *)
Example track_request_bool_status :
  let result := Tracking.mk_response (Tracking.Gives true) (Tracking.Gives 2)
                  (Tracking.Gives (Tracking.BoolItem true)) in
  let r := Tracking.track_request (Some "encode") "view" (λ m, (inr result, m))
             TrackingExamples.quarter_second (MetricsCollector.init MetricsExamples.clock0) in
  MetricsCollector._status_count r.2 !! "True" = Some 1 ∧
  MetricsCollector._status_count r.2 !! "1" = None ∧
  MetricsCollector._error_count r.2 = ∅.
Proof. vm_compute. repeat split; reflexivity. Qed.

(** A [KeyboardInterrupt] in the wrapped function leaves the request
    active: no end is recorded. *)
Example track_request_keyboard_interrupt :
  let r := Tracking.track_request None "view"
             (λ m, (inl (Tracking.NotException "KeyboardInterrupt"), m))
             TrackingExamples.quarter_second (MetricsCollector.init MetricsExamples.clock0) in
  r.1 = inl (Tracking.NotException "KeyboardInterrupt") ∧
  MetricsCollector._active_requests r.2 = 1 ∧
  MetricsCollector._request_count r.2 = ∅.
Proof. vm_compute. repeat split; reflexivity. Qed.

End Tracking_facts.


(** ** _format_uptime *)

Section Uptime_facts.

Lemma Qfloor_div_pos (q : Q) (y : positive) :
  Qfloor (q * / inject_Z (Z.pos y))%Q = Qfloor q / Z.pos y.
Proof.
  destruct q as [a b]. unfold Qfloor, Qmult, Qinv, inject_Z. simpl.
  rewrite Z.mul_1_r, Pos2Z.inj_mul. by rewrite Z.div_div by lia.
Qed.

Lemma Qfloor_sub_Z (q : Q) (c : Z) : Qfloor (q - inject_Z c)%Q = Qfloor q - c.
Proof.
  destruct q as [a b]. unfold Qfloor, Qminus, Qplus, Qopp, inject_Z. simpl.
  rewrite Z.mul_1_r, Pos.mul_1_r.
  replace (a + - c * Z.pos b) with (a + (- c) * Z.pos b) by lia.
  rewrite Z.div_add by lia. lia.
Qed.

Lemma floordiv_floor (x : Qc) (y : Z) : 0 < y → floordiv x y = Qfloor x / y.
Proof.
  intros Hy. destruct y as [|p|p]; try lia. unfold floordiv.
  rewrite <- (Qfloor_div_pos x p). apply Qfloor_comp.
  unfold Qcdiv, Qcmult, Qcinv, Q2Qc. simpl.
  by rewrite !Qred_correct.
Qed.

Lemma floor_pymod (x : Qc) (y : Z) : 0 < y → Qfloor (pymod x y) = Qfloor x mod y.
Proof.
  intros Hy. unfold pymod. fold (floordiv x y). rewrite floordiv_floor by done.
  rewrite <- Z2Qc_inj_mul, Z.mod_eq by lia.
  rewrite <- (Qfloor_sub_Z x). apply Qfloor_comp.
  unfold Qcminus, Qcplus, Qcopp, Q2Qc. simpl.
  by rewrite !Qred_correct.
Qed.

(** X22. The uptime is printed in whole seconds. For an uptime that is not
    negative and below [2 ** 53] seconds, where the floor division and the
    remainder of floats are exact, the text is that of the days, hours,
    minutes and seconds of [floor(seconds)], an hour count below 24 and
    minute and second counts below 60 that add up to it; the fraction of a
    second is dropped, not rounded. *)
Theorem format_uptime_whole_seconds (seconds : Qc) :
  (0 ≤ seconds)%Qc → (seconds < Qc_of_Z (2 ^ 53))%Qc →
  let n := Qfloor seconds in
  let days := n / 86400 in
  let hours := n mod 86400 / 3600 in
  let minutes := n mod 3600 / 60 in
  let secs := n mod 60 in
  _format_uptime seconds = uptime_text days hours minutes secs ∧
  n = 86400 * days + 3600 * hours + 60 * minutes + secs ∧
  0 ≤ days ∧ 0 ≤ hours < 24 ∧ 0 ≤ minutes < 60 ∧ 0 ≤ secs < 60.
Proof.
  intros Hpos _ n days hours minutes secs.
  assert (0 ≤ n) as Hn.
  { subst n. rewrite <- (Qfloor_Z 0). by apply Qfloor_resp_le. }
  split.
  - unfold _format_uptime.
    rewrite !floordiv_floor, !floor_pymod by lia. done.
  - subst days hours minutes secs.
    pose proof (Z.div_mod n 86400). pose proof (Z.mod_pos_bound n 86400).
    pose proof (Z.div_mod (n mod 86400) 3600). pose proof (Z.mod_pos_bound (n mod 86400) 3600).
    pose proof (Z.div_mod (n mod 3600) 60). pose proof (Z.mod_pos_bound (n mod 3600) 60).
    pose proof (Z.mod_pos_bound n 3600). pose proof (Z.mod_pos_bound n 60).
    assert ((n mod 86400) mod 3600 = n mod 3600) as Hh.
    { apply Z.mod_mod_divide. by exists 24. }
    assert ((n mod 3600) mod 60 = n mod 60) as Hm.
    { apply Z.mod_mod_divide. by exists 60. }
    pose proof (Z.div_pos n 86400).
    split_and!; lia.
Qed.
End Uptime_facts.

Lemma format_uptime_whole_seconds_witness :
  (0 ≤ Qc_of_Z 180123 / Qc_of_Z 2)%Qc ∧
  (Qc_of_Z 180123 / Qc_of_Z 2 < Qc_of_Z (2 ^ 53))%Qc ∧
  _format_uptime (Qc_of_Z 180123 / Qc_of_Z 2)%Qc = "1d 1h 1m 1s".
Proof.
  assert (0 ≤ Qc_of_Z 180123 / Qc_of_Z 2)%Qc as Hpos
    by (apply (bool_decide_unpack _); vm_compute; exact I).
  assert (Qc_of_Z 180123 / Qc_of_Z 2 < Qc_of_Z (2 ^ 53))%Qc as Hbound
    by (apply (bool_decide_unpack _); vm_compute; exact I).
  split; [exact Hpos|]. split; [exact Hbound|].
  destruct (format_uptime_whole_seconds (Qc_of_Z 180123 / Qc_of_Z 2)%Qc Hpos Hbound)
    as [-> _].
  vm_compute. reflexivity.
Defined.

(** ** CacheManager: the statistics *)

Section CacheManager_stats.
Context {V : Type}.

(** X11. A sweep of the manager changes the statistics in one entry only. After
    [cleanup_expired] the report of [get_stats] has the same caches, each
    with the capacity, the hits, the misses and the hit rate it had, and
    with a size that is not larger. *)
Theorem manager_cleanup_keeps_statistics (clock : string → nat → float)
    (m : CacheManager.t V) (name : string) :
  let before := CacheManager.get_stats m in
  let after := CacheManager.get_stats (CacheManager.cleanup_expired clock m) in
  after.1 = before.1 ∧
  match before.2 !! name, after.2 !! name with
  | Some b, Some a =>
      LRUCache.size a ≤ LRUCache.size b ∧
      LRUCache.max_size a = LRUCache.max_size b ∧
      LRUCache.hits a = LRUCache.hits b ∧
      LRUCache.misses a = LRUCache.misses b ∧
      LRUCache.hit_rate_percent a = LRUCache.hit_rate_percent b
  | None, None => True
  | _, _ => False
  end.
Proof.
  intros before after. subst before after. split; [done|].
  unfold CacheManager.get_stats, CacheManager.cleanup_expired.
  cbn [snd CacheManager._caches]. rewrite !lookup_fmap, map_lookup_imap.
  destruct (CacheManager._caches m !! name) as [cache|]; [|done].
  cbn [fmap option_fmap option_map mbind option_bind].
  destruct (cleanup_counters (clock name) cache) as [Hh Hm].
  pose proof (exec_max_size (LRUCache.OpCleanupExpired (clock name)) cache) as Hs.
  cbn [LRUCache.exec] in Hs.
  unfold LRUCache.get_stats.
  cbn [LRUCache.size LRUCache.max_size LRUCache.hits LRUCache.misses
       LRUCache.hit_rate_percent].
  rewrite Hh, Hm, Hs. split_and!; try done.
  unfold LRUCache.cleanup_expired. rewrite foldl_remove_cache.
  apply inj_le, length_filter.
Qed.
End CacheManager_stats.

(** ** LRUCache: overflow, and the key of the cache *)

Section LRUCache_overflow.
Context {V : Type}.

(** X5. A full cache makes room by dropping its least recently used entry.
    After any run on a new cache of capacity one or more, when the cache is
    full, a [set] of a key that is not in it returns; the entry it removes
    is the first one, whose last access is older than that of every other
    entry; the other entries keep their order, and the new entry comes
    last. *)
Theorem overflow_evicts_least_recent (ops : list (LRUCache.op V)) (max_size default_ttl : Z)
    (key : string) (value : option V) (ttl : option Z) (now : float) :
  let s := LRUCache.run ops (LRUCache.init max_size default_ttl) in
  1 ≤ max_size → key ∉ (LRUCache._cache s).*1 →
  Z.of_nat (length (LRUCache._cache s)) = max_size →
  ∃ oldest v0 c s',
    LRUCache._cache s = (oldest, v0) :: c ∧
    LRUCache.set key value ttl now s = Return () s' ∧
    LRUCache._cache s' = c ++ [(key, value)] ∧
    od_get oldest (LRUCache._cache s') = None ∧
    Z.of_nat (length (LRUCache._cache s')) = max_size ∧
    ∀ k, k ∈ c.*1 → (LRUCache.last_access ops oldest < LRUCache.last_access ops k)%nat.
Proof.
  intros s Hmax Hkey Hfull.
  destruct (set_evicts_least_recent ops max_size default_ttl key value ttl now
              Hmax Hkey Hfull) as (oldest & v0 & c & s' & Ec & Hset & Hc & Hrec).
  fold s in Ec, Hset. exists oldest, v0, c, s'.
  assert (LRUCache.wf s) as (Hnd & _) by apply wf_run, wf_init.
  rewrite Ec, fmap_cons in Hnd, Hkey. simpl in Hnd, Hkey.
  apply NoDup_cons in Hnd as [Hold _]. apply not_elem_of_cons in Hkey as [Hne _].
  split_and!; try done.
  - rewrite Hc. apply od_get_None. rewrite fmap_app, not_elem_of_app. split; [done|].
    simpl. rewrite not_elem_of_cons. split; [done|apply not_elem_of_nil].
  - rewrite Hc, length_app. rewrite Ec in Hfull. simpl in Hfull |- *. lia.
Qed.
End LRUCache_overflow.

Section generate_key_facts.
Import Serialization.
Context {atom : Type}.
Variable str_of_atom : atom → string.
Variable json_of_atom : atom → string.
Variable json_of_key : string → string.
Variable sha256_hexdigest : string → string.

Hypothesis hexdigest_length : ∀ b, String.length (sha256_hexdigest b) = 64%nat.
Hypothesis hexdigest_hex :
  ∀ b, Forall is_hex_digit (list_ascii_of_string (sha256_hexdigest b)).

(** X8. The key that the cache derives from data is 32 hexadecimal digits, and
    does not depend on the order in which the keys of a mapping were
    supplied. *)
Theorem generate_key_stable :
  (∀ d1 d2, same_data d1 d2 → wf_data d1 → wf_data d2 →
     _generate_key str_of_atom json_of_atom json_of_key sha256_hexdigest d1
     = _generate_key str_of_atom json_of_atom json_of_key sha256_hexdigest d2) ∧
  (∀ d,
     String.length (_generate_key str_of_atom json_of_atom json_of_key sha256_hexdigest d)
     = 32%nat ∧
     Forall is_hex_digit
       (list_ascii_of_string
          (_generate_key str_of_atom json_of_atom json_of_key sha256_hexdigest d))).
Proof.
  split.
  - intros d1 d2 Hsame Hwf1 Hwf2. unfold _generate_key.
    by rewrite (serialize_same_data str_of_atom json_of_atom json_of_key d1 d2).
  - intros d. unfold _generate_key. split.
    + by rewrite length_string_take, hexdigest_length.
    + apply string_take_chars, hexdigest_hex.
Qed.
End generate_key_facts.

Lemma overflow_evicts_least_recent_witness :
  let ops := LRUCache.op_of_insertion <$> [LRUExamples.a1; LRUExamples.b2; LRUExamples.c3] in
  1 ≤ 3 ∧
  ("d" ∉ (LRUCache._cache (LRUCache.run ops (LRUCache.init 3 3600))).*1) ∧
  Z.of_nat (length (LRUCache._cache (LRUCache.run ops (LRUCache.init 3 3600)))) = 3 ∧
  ∃ s', LRUCache.set "d" (Some 4) None 1%float (LRUCache.run ops (LRUCache.init 3 3600))
        = Return () s' ∧
        LRUCache._cache s' = [("b", Some 2); ("c", Some 3); ("d", Some 4)].
Proof.
  intros ops.
  assert (1 ≤ 3) as Hmax by lia.
  assert ("d" ∉ (LRUCache._cache (LRUCache.run ops (LRUCache.init 3 3600))).*1) as Hkey
    by (apply (bool_decide_unpack _); vm_compute; exact I).
  assert (Z.of_nat (length (LRUCache._cache (LRUCache.run ops (LRUCache.init 3 3600)))) = 3)
    as Hfull by (vm_compute; reflexivity).
  split; [exact Hmax|]. split; [exact Hkey|]. split; [exact Hfull|].
  destruct (overflow_evicts_least_recent ops 3 3600 "d" (Some 4) None 1%float Hmax Hkey Hfull)
    as (oldest & v0 & c & s' & Ec & Hset & Hc & _).
  exists s'. split; [exact Hset|]. rewrite Hc.
  injection Ec as _ _ <-. reflexivity.
Defined.

Lemma generate_key_stable_witness :
  (∀ b, String.length (KeyExamples.stand_in_hexdigest b) = 64%nat) ∧
  (∀ b, Forall is_hex_digit (list_ascii_of_string (KeyExamples.stand_in_hexdigest b))) ∧
  String.length (_generate_key pretty pretty KeyExamples.json_of_key
                   KeyExamples.stand_in_hexdigest KeyExamples.sample_xy) = 32%nat.
Proof.
  assert (∀ b, String.length (KeyExamples.stand_in_hexdigest b) = 64%nat) as Hlen
    by (intros b; reflexivity).
  assert (∀ b, Forall is_hex_digit
            (list_ascii_of_string (KeyExamples.stand_in_hexdigest b))) as Hhex.
  { intros b. unfold is_hex_digit. apply (bool_decide_unpack _). vm_compute. exact I. }
  split; [exact Hlen|]. split; [exact Hhex|].
  exact (proj1 (proj2 (generate_key_stable pretty pretty KeyExamples.json_of_key
                         KeyExamples.stand_in_hexdigest Hlen Hhex) KeyExamples.sample_xy)).
Defined.

Section LRUCache_sweep_lookups.
Context {V : Type}.
Implicit Types (s : LRUCache.t V) (k key : string) (v value : option V) (ks : list string).

Lemma od_get_filter_keys k ks (c : list (string * option V)) :
  od_get k (filter (λ kv, kv.1 ∉ ks) c) = if decide (k ∈ ks) then None else od_get k c.
Proof.
  induction c as [|[k0 v0] c IH]; [rewrite filter_nil; by destruct (decide (k ∈ ks))|].
  rewrite filter_cons. simpl. destruct (decide (k0 ∉ ks)) as [Hout|Hin]; simpl.
  - destruct (decide (k0 = k)) as [->|Hne]; [by rewrite decide_False|done].
  - rewrite IH. destruct (decide (k0 = k)) as [->|Hne]; [|done].
    destruct (decide (k ∈ ks)) as [_|Hout]; [done|]. by destruct Hin.
Qed.

(** X3. A sweep cannot be seen in what lookups return. At the instant of a
    sweep, a [get] of any key returns from the swept cache what it would
    have returned from the cache as it was: the entries that the sweep
    removes are the ones that [get] would have found expired. *)
Theorem sweep_keeps_lookups (now : float) s k :
  LRUCache.wf s →
  (LRUCache.get k now (LRUCache.cleanup_expired (λ _, now) s)).1
  = (LRUCache.get k now s).1.
Proof.
  intros (Hnd & Hts & _).
  set (ks := LRUCache.expired_keys (LRUCache._cache s).*1 (λ _, now) 0 s).
  assert (k ∈ ks ↔ k ∈ (LRUCache._cache s).*1 ∧ LRUCache._is_expired k now s = true) as Hks.
  { subst ks. rewrite (expired_keys_spec (λ _, now) s _ 0 k).
    - split.
      + intros (j & Hj & He). split; [by eapply list_elem_of_lookup_2 | done].
      + intros [[j Hj]%list_elem_of_lookup He]. by exists j.
    - intros k' ?. by apply Hts. }
  unfold LRUCache.get, LRUCache.cleanup_expired. fold ks.
  rewrite foldl_remove_cache, od_get_filter_keys.
  destruct (od_get k (LRUCache._cache s)) as [v|] eqn:Eg.
  - assert (k ∈ (LRUCache._cache s).*1) as Hin by (apply od_get_is_Some; eauto).
    destruct (LRUCache._is_expired k now s) eqn:Ee.
    + rewrite decide_True by (by apply Hks). done.
    + rewrite decide_False by (rewrite Hks; intros [_ ?]; congruence).
      assert (LRUCache._is_expired k now (foldl (λ s' key, LRUCache._remove key s') s ks)
              = false) as ->; [|done].
      rewrite <- Ee. unfold LRUCache._is_expired.
      destruct (foldl_remove_maps ks s k) as (-> & -> & ->).
      rewrite !decide_False by (rewrite Hks; intros [_ ?]; congruence). done.
  - by destruct (decide (k ∈ ks)).
Qed.
End LRUCache_sweep_lookups.

Lemma sweep_keeps_lookups_witness :
  LRUCache.wf SweepExamples.two_entries ∧
  (LRUCache.get "a" 2%float
     (LRUCache.cleanup_expired (λ _, 2%float) SweepExamples.two_entries)).1
  = (LRUCache.get "a" 2%float SweepExamples.two_entries).1.
Proof.
  assert (LRUCache.wf SweepExamples.two_entries) as Hwf by apply wf_run, wf_init.
  split; [exact Hwf|].
  exact (sweep_keeps_lookups 2%float SweepExamples.two_entries "a" Hwf).
Defined.
